(** * A shallow embedding of the sx artifact installer

    The development follows the Go packages of the repository:

    - [Hash]      : package utils, the digest helpers (hash.go);
    - [Filepath]  : the lexical path functions of path/filepath the code
                    calls (Clean, Join, Base, Dir), for Unix paths;
    - [OS]        : the file-system state the os calls act on;
    - [Cache]     : package cache, directory layout (cache.go);
    - [Sessions]  : package cache, the session file (sessions.go);
    - [Github]    : package github, tree URLs;
    - [Handlers]  : package handlers, the agent handler;
    - [Commands]  : package commands, the install command;
    - [Lockfile]  : the lock model of the specification.

    Go strings are byte strings: they are modelled by [string] (a list of
    8-bit [ascii]); a [[]byte] is a [list byte].  A Go [error] result is an
    [option error], [None] standing for [nil]; a pair [(T, error)] is a
    [Result T].  A function that acts on the file system takes its state
    and returns the state it leaves, with its result. *)

From Stdlib Require Import ZArith NArith List String Ascii Lia Bool.
From Stdlib.Strings Require Import Byte.
From stdpp Require Import base option list gmap strings.
Import ListNotations.

Local Open Scope Z_scope.

(** ** Errors and results *)

Definition error := string.

Inductive Result (A : Type) : Type :=
| Ok (a : A)
| Err (e : error).
Arguments Ok {A} a.
Arguments Err {A} e.

(** [fmt.Errorf("<prefix>: %w", err)]: the message of the wrapping error. *)
Definition wrap (prefix : string) (e : error) : error := prefix +:+ ": " +:+ e.

(** ** Strings

    stdpp keeps [String.append] from unfolding under [simpl]; these equations
    are used as rewrite rules instead. *)

Lemma app_nil_l (t : string) : "" +:+ t = t.
Proof. reflexivity. Qed.

Lemma app_cons (c : ascii) (s t : string) : String c s +:+ t = String c (s +:+ t).
Proof. reflexivity. Qed.

Lemma app_nil_r (s : string) : s +:+ "" = s.
Proof. induction s as [|c s IH]; [reflexivity|]. now rewrite app_cons, IH. Qed.

Lemma app_ne_r (s t : string) : t <> "" -> s +:+ t <> "".
Proof. destruct s; [now rewrite app_nil_l | discriminate]. Qed.

Lemma app_assoc (s t u : string) : (s +:+ t) +:+ u = s +:+ t +:+ u.
Proof. induction s as [|c s IH]; [reflexivity|]. now rewrite !app_cons, IH. Qed.

Lemma length_app (s t : string) :
  String.length (s +:+ t) = (String.length s + String.length t)%nat.
Proof. induction s as [|c s IH]; [reflexivity|]. rewrite app_cons. simpl. now rewrite IH. Qed.

(** ** Package utils: hashing *)

Module Hash.

(** *** SHA-2 (FIPS 180-4), on words kept in [Z] with the reduction modulo
    [2^w] written out.  [crypto/sha256] and [crypto/sha512] are library code;
    the functions below compute the same digests (see the test vectors). *)

Section Sha2.
(** word size in bits, and the rotation and shift amounts of the
    [Sigma0], [Sigma1], [sigma0] and [sigma1] functions *)
Variable w : Z.
Variables S0a S0b S0c S1a S1b S1c s0a s0b s0c s1a s1b s1c : Z.
Variable K : list Z.
Variable IV : list Z.

Definition wrapw (x : Z) : Z := x mod 2 ^ w.
Definition addw (x y : Z) : Z := wrapw (x + y).
Definition rotr (n x : Z) : Z :=
  wrapw (Z.lor (Z.shiftr x n) (Z.shiftl x (w - n))).
Definition notw (x : Z) : Z := Z.lxor x (2 ^ w - 1).

Definition Ch (x y z : Z) : Z := Z.lxor (Z.land x y) (Z.land (notw x) z).
Definition Maj (x y z : Z) : Z :=
  Z.lxor (Z.lxor (Z.land x y) (Z.land x z)) (Z.land y z).
Definition Sigma0 (x : Z) : Z :=
  Z.lxor (Z.lxor (rotr S0a x) (rotr S0b x)) (rotr S0c x).
Definition Sigma1 (x : Z) : Z :=
  Z.lxor (Z.lxor (rotr S1a x) (rotr S1b x)) (rotr S1c x).
Definition sigma0 (x : Z) : Z :=
  Z.lxor (Z.lxor (rotr s0a x) (rotr s0b x)) (Z.shiftr x s0c).
Definition sigma1 (x : Z) : Z :=
  Z.lxor (Z.lxor (rotr s1a x) (rotr s1b x)) (Z.shiftr x s1c).

(** the eight working variables *)
Record regs : Type := Regs { ra : Z; rb : Z; rc : Z; rd : Z;
                             re : Z; rf : Z; rg : Z; rh : Z }.

Definition regs_of_list (l : list Z) : regs :=
  Regs (nth 0 l 0) (nth 1 l 0) (nth 2 l 0) (nth 3 l 0)
       (nth 4 l 0) (nth 5 l 0) (nth 6 l 0) (nth 7 l 0).

Definition regs_to_list (r : regs) : list Z :=
  [ra r; rb r; rc r; rd r; re r; rf r; rg r; rh r].

Definition regs_add (x y : regs) : regs :=
  Regs (addw (ra x) (ra y)) (addw (rb x) (rb y)) (addw (rc x) (rc y))
       (addw (rd x) (rd y)) (addw (re x) (re y)) (addw (rf x) (rf y))
       (addw (rg x) (rg y)) (addw (rh x) (rh y)).

(** One round.  The message schedule is a window of sixteen words: its
    head is [W t], and [W (t+16)] is appended for the rounds to come. *)
Definition round (st : regs * list Z) (k : Z) : regs * list Z :=
  let '(r, win) := st in
  let wt := nth 0 win 0 in
  let t1 := addw (addw (addw (addw (rh r) (Sigma1 (re r)))
                             (Ch (re r) (rf r) (rg r))) k) wt in
  let t2 := addw (Sigma0 (ra r)) (Maj (ra r) (rb r) (rc r)) in
  let wnew := addw (addw (addw (sigma1 (nth 14 win 0)) (nth 9 win 0))
                         (sigma0 (nth 1 win 0))) wt in
  (Regs (addw t1 t2) (ra r) (rb r) (rc r) (addw (rd r) t1) (re r) (rf r) (rg r),
   tl win ++ [wnew]).

Definition compress (h : regs) (block : list Z) : regs :=
  regs_add h (fst (fold_left round K (h, block))).

(** big-endian bytes of a number, [n] of them *)
Fixpoint be_bytes (n : nat) (x : Z) : list Z :=
  match n with
  | O => []
  | S n' => (Z.shiftr x (8 * Z.of_nat n')) mod 256 :: be_bytes n' x
  end.

Definition be_word (bs : list Z) : Z :=
  fold_left (fun acc b => acc * 256 + b) bs 0.

Definition wbytes : nat := Z.to_nat (w / 8).
Definition blockbytes : Z := 2 * w.

(** the padded message: a [1] bit, zeros, and the bit length in [w/4]
    bytes, up to a multiple of the block size *)
Definition pad (msg : list Z) : list Z :=
  let len := Z.of_nat (length msg) in
  let lenfield := w / 4 in
  let k := (blockbytes - (len + 1 + lenfield) mod blockbytes) mod blockbytes in
  msg ++ [128] ++ repeat 0 (Z.to_nat k) ++ be_bytes (Z.to_nat lenfield) (8 * len).

(** the bytes as big-endian words, and the blocks of sixteen words folded
    into the hash value; the fuel, the length of the list, outlasts it *)
Fixpoint words (fuel : nat) (bs : list Z) : list Z :=
  match fuel, bs with
  | S f, _ :: _ => be_word (firstn wbytes bs) :: words f (skipn wbytes bs)
  | _, _ => []
  end.

Fixpoint blocks (fuel : nat) (h : regs) (ws : list Z) : regs :=
  match fuel, ws with
  | S f, _ :: _ => blocks f (compress h (firstn 16 ws)) (skipn 16 ws)
  | _, _ => h
  end.

Definition sum (msg : list Z) : list Z :=
  let p := pad msg in
  let ws := words (length p) p in
  flat_map (be_bytes wbytes) (regs_to_list (blocks (length ws) (regs_of_list IV) ws)).

Lemma length_be_bytes n x : length (be_bytes n x) = n.
Proof. induction n as [|n IH]; simpl; [reflexivity | now rewrite IH]. Qed.

Lemma length_sum msg : length (sum msg) = (8 * wbytes)%nat.
Proof.
  unfold sum, regs_to_list. cbn [flat_map].
  rewrite !List.length_app, !length_be_bytes. simpl. lia.
Qed.

End Sha2.

(** the constants: the first [w] bits of the fractional parts of the cube
    roots (round constants) and square roots (initial hash value) of the
    first primes *)
Fixpoint root_search (k : Z) (bits : nat) (n acc : Z) : Z :=
  match bits with
  | O => acc
  | S b => let cand := acc + 2 ^ Z.of_nat b in
           root_search k b n (if cand ^ k <=? n then cand else acc)
  end.

Definition is_prime (n : Z) : bool :=
  (2 <=? n) &&
  forallb (fun d => negb (n mod d =? 0))
          (map Z.of_nat (seq 2 (Z.to_nat (Z.sqrt n) - 1))).

Definition first_primes (n : nat) : list Z :=
  firstn n (filter is_prime (map Z.of_nat (seq 2 420))).

Definition frac_root (k w p : Z) : Z :=
  root_search k 300 (p * 2 ^ (k * w)) 0 mod 2 ^ w.

Definition K256 : list Z := Eval vm_compute in map (frac_root 3 32) (first_primes 64).
Definition H256 : list Z := Eval vm_compute in map (frac_root 2 32) (first_primes 8).
Definition K512 : list Z := Eval vm_compute in map (frac_root 3 64) (first_primes 80).
Definition H512 : list Z := Eval vm_compute in map (frac_root 2 64) (first_primes 8).

Definition Z_of_byte (b : byte) : Z := Z.of_N (Byte.to_N b).
Definition byte_of_Z (z : Z) : byte :=
  match Byte.of_N (Z.to_N (z mod 256)) with
  | Some b => b
  | None => x00
  end.

(** [sha256.Sum256] and [sha512.Sum512] *)
Definition Sum256 (data : list byte) : list byte :=
  map byte_of_Z (sum 32 2 13 22 6 11 25 7 18 3 17 19 10 K256 H256 (map Z_of_byte data)).

Definition Sum512 (data : list byte) : list byte :=
  map byte_of_Z (sum 64 28 34 39 14 18 41 1 8 7 19 61 6 K512 H512 (map Z_of_byte data)).

(** *** encoding/hex *)
Definition hexdigit (n : N) : ascii :=
  match String.get (N.to_nat n) "0123456789abcdef" with
  | Some c => c
  | None => "0"%char
  end.

Definition hex_of_byte (b : byte) : string :=
  String (hexdigit (Byte.to_N b / 16)) (String (hexdigit (Byte.to_N b mod 16)) EmptyString).

Fixpoint EncodeToString (bs : list byte) : string :=
  match bs with
  | [] => EmptyString
  | b :: bs' => hex_of_byte b +:+ EncodeToString bs'
  end.

(** *** hash.go *)

(** [ComputeSHA256] computes the SHA256 hash of data *)
Definition ComputeSHA256 (data : list byte) : string :=
  EncodeToString (Sum256 data).

(** [ComputeSHA512] computes the SHA512 hash of data *)
Definition ComputeSHA512 (data : list byte) : string :=
  EncodeToString (Sum512 data).

(** [VerifyHash] verifies that data matches the expected hash *)
Definition VerifyHash (data : list byte) (algorithm expected : string) : option error :=
  let actual :=
    if String.eqb algorithm "sha256" then Ok (ComputeSHA256 data)
    else if String.eqb algorithm "sha512" then Ok (ComputeSHA512 data)
    else Err ("unsupported hash algorithm: " +:+ algorithm) in
  match actual with
  | Err e => Some e
  | Ok actual =>
      if negb (String.eqb actual expected)
      then Some ("hash mismatch: expected " +:+ expected +:+ ", got " +:+ actual)
      else None
  end.

(** [URLHash] computes a short hash of a URL for directory naming *)
Definition URLHash (url : string) : string :=
  EncodeToString (firstn 8 (Sum256 (list_byte_of_string url))).

(** *** Facts about the digests *)

(** characters of a lower-case hexadecimal numeral *)
Definition is_lower_hex (c : ascii) : bool :=
  let n := N_of_ascii c in
  ((48 <=? n) && (n <=? 57) || (97 <=? n) && (n <=? 102))%N.

Fixpoint string_forall (p : ascii -> bool) (s : string) : bool :=
  match s with
  | EmptyString => true
  | String c s' => p c && string_forall p s'
  end.

Lemma string_forall_app p s t :
  string_forall p (s +:+ t) = string_forall p s && string_forall p t.
Proof.
  induction s as [|c s IH]; [reflexivity|].
  rewrite app_cons. simpl. now rewrite IH, andb_assoc.
Qed.

Lemma hex_of_byte_lower_hex b : string_forall is_lower_hex (hex_of_byte b) = true.
Proof. destruct b; reflexivity. Qed.

Lemma EncodeToString_lower_hex bs :
  string_forall is_lower_hex (EncodeToString bs) = true.
Proof.
  induction bs as [|b bs IH]; cbn [EncodeToString]; [reflexivity|].
  now rewrite string_forall_app, hex_of_byte_lower_hex, IH.
Qed.

Lemma length_EncodeToString bs :
  String.length (EncodeToString bs) = (2 * length bs)%nat.
Proof.
  induction bs as [|b bs IH]; [reflexivity|].
  cbn [EncodeToString]. rewrite length_app, IH. simpl. lia.
Qed.

(** the encoding of a prefix of the bytes is a prefix of the encoding *)
Lemma EncodeToString_firstn n bs :
  EncodeToString (firstn n bs) = String.substring 0 (2 * n) (EncodeToString bs).
Proof.
  revert bs; induction n as [|n IH]; intros bs.
  - simpl. now destruct (EncodeToString bs).
  - destruct bs as [|b bs].
    + reflexivity.
    + replace (2 * S n)%nat with (S (S (2 * n))) by lia.
      cbn [firstn EncodeToString]. unfold hex_of_byte.
      rewrite !app_cons, !app_nil_l.
      cbn [String.substring]. now rewrite IH.
Qed.

Lemma length_Sum256 data : length (Sum256 data) = 32%nat.
Proof. unfold Sum256. now rewrite length_map, length_sum. Qed.

Lemma length_Sum512 data : length (Sum512 data) = 64%nat.
Proof. unfold Sum512. now rewrite length_map, length_sum. Qed.

(** the digests are 64 and 128 lower-case hexadecimal characters *)
Lemma length_ComputeSHA256 data : String.length (ComputeSHA256 data) = 64%nat.
Proof. unfold ComputeSHA256. now rewrite length_EncodeToString, length_Sum256. Qed.

Lemma length_ComputeSHA512 data : String.length (ComputeSHA512 data) = 128%nat.
Proof. unfold ComputeSHA512. now rewrite length_EncodeToString, length_Sum512. Qed.

(** test vectors of FIPS 180-4 *)
Example sha256_empty :
  ComputeSHA256 [] = "e3b0c44298fc1c149afbf4c8996fb92427ae41e4649b934ca495991b7852b855".
Proof. vm_compute. reflexivity. Qed.

Example sha256_abc :
  ComputeSHA256 (list_byte_of_string "abc")
  = "ba7816bf8f01cfea414140de5dae2223b00361a396177a9cb410ff61f20015ad".
Proof. vm_compute. reflexivity. Qed.

Example sha256_two_blocks :
  ComputeSHA256 (list_byte_of_string "abcdbcdecdefdefgefghfghighijhijkijkljklmklmnlmnomnopnopq")
  = "248d6a61d20638b8e5c026930c3e6039a33ce45964ff2167f6ecedd419db06c1".
Proof. vm_compute. reflexivity. Qed.

Example sha512_abc :
  ComputeSHA512 (list_byte_of_string "abc")
  = "ddaf35a193617abacc417349ae20413112e6fa4e89a97ea20a9eeee64b55d39a2192992a274fc1a836ba3c23a3feebbd454d4423643ce80e2a9ac94fa54ca49f".
Proof. vm_compute. reflexivity. Qed.

(** C1: for an algorithm that is sha256 or sha512, [VerifyHash] returns nil
    exactly when the digest it computes over the bytes equals the declared
    digest, and on a mismatch it returns the "hash mismatch" error: the
    caller gets an error instead of verified bytes. *)
Theorem VerifyHash_succeeds_iff_digest_matches
  (data : list byte) (algorithm expected : string) :
  algorithm = "sha256" \/ algorithm = "sha512" ->
  let digest := if String.eqb algorithm "sha256"
                then ComputeSHA256 data else ComputeSHA512 data in
  (VerifyHash data algorithm expected = None <-> digest = expected) /\
  (digest <> expected ->
   VerifyHash data algorithm expected
   = Some ("hash mismatch: expected " +:+ expected +:+ ", got " +:+ digest)).
Proof.
  intros Halg digest. subst digest. unfold VerifyHash.
  destruct Halg as [-> | ->]; cbn [String.eqb Ascii.eqb Bool.eqb]; cbv iota.
  - destruct (String.eqb (ComputeSHA256 data) expected) eqn:E; cbn [negb].
    + apply String.eqb_eq in E. split; [tauto | congruence].
    + apply String.eqb_neq in E. split; [split; [discriminate | tauto] | reflexivity].
  - destruct (String.eqb (ComputeSHA512 data) expected) eqn:E; cbn [negb].
    + apply String.eqb_eq in E. split; [tauto | congruence].
    + apply String.eqb_neq in E. split; [split; [discriminate | tauto] | reflexivity].
Qed.

Lemma VerifyHash_succeeds_iff_digest_matches_witness :
  ("sha256" = "sha256" \/ "sha256" = "sha512") /\
  VerifyHash (list_byte_of_string "abc") "sha256"
    "ba7816bf8f01cfea414140de5dae2223b00361a396177a9cb410ff61f20015ad" = None.
Proof.
  split; [left; reflexivity|].
  apply (VerifyHash_succeeds_iff_digest_matches
           (list_byte_of_string "abc") "sha256"
           "ba7816bf8f01cfea414140de5dae2223b00361a396177a9cb410ff61f20015ad");
    [left; reflexivity | vm_compute; reflexivity].
Defined.

(** an algorithm outside the two is refused whatever the digest *)
Lemma VerifyHash_unsupported data expected :
  VerifyHash data "md5" expected = Some "unsupported hash algorithm: md5".
Proof. reflexivity. Qed.

(** a declared digest that differs in letter case is a mismatch *)
Example VerifyHash_mismatch :
  VerifyHash [] "sha256" "E3B0C44298FC1C149AFBF4C8996FB92427AE41E4649B934CA495991B7852B855"
  <> None.
Proof. vm_compute. discriminate. Qed.

(** [URLHash] is sixteen lower-case hexadecimal characters, the first
    sixteen of the SHA-256 digest of the URL *)
Lemma URLHash_prefix_of_digest url :
  URLHash url = String.substring 0 16 (ComputeSHA256 (list_byte_of_string url)).
Proof. unfold URLHash, ComputeSHA256. now rewrite (EncodeToString_firstn 8). Qed.

Lemma length_URLHash url : String.length (URLHash url) = 16%nat.
Proof.
  unfold URLHash. rewrite length_EncodeToString, length_firstn, length_Sum256.
  reflexivity.
Qed.

Lemma URLHash_lower_hex url : string_forall is_lower_hex (URLHash url) = true.
Proof. apply EncodeToString_lower_hex. Qed.

(** X1: [VerifyHash] returns nil only for a declared digest written as the
    code prints one: lower-case hexadecimal, 64 characters under sha256 and
    128 under sha512.  A digest in upper case, shortened, or given under the
    other algorithm's name is a mismatch whatever the data. *)
Theorem VerifyHash_accepts_only_printed_form
  (data : list byte) (algorithm expected : string) :
  VerifyHash data algorithm expected = None ->
  string_forall is_lower_hex expected = true /\
  (algorithm = "sha256" /\ String.length expected = 64%nat \/
   algorithm = "sha512" /\ String.length expected = 128%nat).
Proof.
  unfold VerifyHash.
  destruct (String.eqb algorithm "sha256") eqn:E256.
  - apply String.eqb_eq in E256.
    destruct (String.eqb (ComputeSHA256 data) expected) eqn:E; [|discriminate].
    apply String.eqb_eq in E. subst expected. intros _. split.
    + apply EncodeToString_lower_hex.
    + left. split; [assumption | apply length_ComputeSHA256].
  - destruct (String.eqb algorithm "sha512") eqn:E512; [|discriminate].
    apply String.eqb_eq in E512.
    destruct (String.eqb (ComputeSHA512 data) expected) eqn:E; [|discriminate].
    apply String.eqb_eq in E. subst expected. intros _. split.
    + apply EncodeToString_lower_hex.
    + right. split; [assumption | apply length_ComputeSHA512].
Qed.

Lemma VerifyHash_accepts_only_printed_form_witness :
  VerifyHash (list_byte_of_string "abc") "sha256"
    "ba7816bf8f01cfea414140de5dae2223b00361a396177a9cb410ff61f20015ad" = None /\
  String.length "ba7816bf8f01cfea414140de5dae2223b00361a396177a9cb410ff61f20015ad"
  = 64%nat.
Proof.
  assert (H : VerifyHash (list_byte_of_string "abc") "sha256"
                "ba7816bf8f01cfea414140de5dae2223b00361a396177a9cb410ff61f20015ad" = None)
    by (vm_compute; reflexivity).
  split; [exact H|].
  destruct (VerifyHash_accepts_only_printed_form _ _ _ H) as [_ [[_ Hl] | [Ha _]]];
    [exact Hl | discriminate Ha].
Defined.

End Hash.


(** ** path/filepath, for Unix paths

    [Clean], [Join], [Base] and [Dir] are purely lexical.  A path is cut at
    its separators into elements; [Clean] drops empty and [.] elements and
    resolves [..] against the element before it. *)

Module Filepath.

Definition is_sep (c : ascii) : bool := Ascii.eqb c "/".

(** [strings.Split(s, "/")]: the fields between separators, never empty *)
Fixpoint split (s : string) : list string :=
  match s with
  | EmptyString => [EmptyString]
  | String c s' =>
      if is_sep c then EmptyString :: split s'
      else match split s' with
           | x :: r => String c x :: r
           | [] => [String c EmptyString]
           end
  end.

(** [strings.Join(elems, "/")] *)
Fixpoint join (elems : list string) : string :=
  match elems with
  | [] => EmptyString
  | [x] => x
  | x :: r => x +:+ "/" +:+ join r
  end.

Definition rooted (p : string) : bool :=
  match p with
  | String c _ => is_sep c
  | EmptyString => false
  end.

(** The elements of the cleaned path, [stack] holding those kept so far,
    last first.  A [..] removes the element before it; at the root it is
    dropped, and at the start of a relative path it is kept. *)
Fixpoint clean_elems (root : bool) (stack : list string) (elems : list string)
  : list string :=
  match elems with
  | [] => rev stack
  | c :: cs =>
      if String.eqb c "" || String.eqb c "." then clean_elems root stack cs
      else if String.eqb c ".." then
        match stack with
        | top :: rest =>
            if String.eqb top ".." then clean_elems root (c :: stack) cs
            else clean_elems root rest cs
        | [] =>
            if root then clean_elems root [] cs
            else clean_elems root [c] cs
        end
      else clean_elems root (c :: stack) cs
  end.

(** [filepath.Clean] *)
Definition Clean (path : string) : string :=
  let elems := clean_elems (rooted path) [] (split path) in
  if rooted path then "/" +:+ join elems
  else match elems with
       | [] => "."
       | _ => join elems
       end.

(** [filepath.Join]: leading empty elements are ignored, the rest is joined
    with separators and cleaned; all empty gives the empty string *)
Fixpoint Join (elem : list string) : string :=
  match elem with
  | [] => EmptyString
  | e :: rest =>
      if String.eqb e "" then Join rest else Clean (join elem)
  end.

(** the string without its trailing separators *)
Fixpoint strip_trailing_seps (s : string) : string :=
  match s with
  | EmptyString => EmptyString
  | String c s' =>
      match strip_trailing_seps s' with
      | EmptyString => if is_sep c then EmptyString else String c EmptyString
      | t => String c t
      end
  end.

(** [filepath.Base]: the last element of the path *)
Definition Base (path : string) : string :=
  if String.eqb path "" then "."
  else
    let p := strip_trailing_seps path in
    let last_elem := List.last (split p) EmptyString in
    if String.eqb p "" then "/" else last_elem.

(** the string up to and including its last separator *)
Fixpoint upto_last_sep (s : string) : string :=
  match s with
  | EmptyString => EmptyString
  | String c s' =>
      match upto_last_sep s' with
      | EmptyString => if is_sep c then String c EmptyString else EmptyString
      | t => String c t
      end
  end.

(** [filepath.Dir]: all but the last element of the path, cleaned *)
Definition Dir (path : string) : string := Clean (upto_last_sep path).

(** *** The tables of Go's own tests for these functions *)

Example Clean_table :
  map Clean ["abc"; "abc/def"; "."; ".."; "../../abc"; "/abc"; "/"; "";
             "abc/"; "./"; "../../"; "abc//def//ghi"; "///abc"; "//abc//";
             "abc/./def"; "abc/."; "abc/def/ghi/../jkl"; "abc/def/../.."; "/abc/def/../..";
             "abc/def/../../.."; "/abc/def/../../..";
             "abc/def/../../../ghi/jkl/../../../mno"; "/../abc";
             "abc//./../def"; "abc/../../././../def"]
  = ["abc"; "abc/def"; "."; ".."; "../../abc"; "/abc"; "/"; ".";
     "abc"; "."; "../.."; "abc/def/ghi"; "/abc"; "/abc";
     "abc/def"; "abc"; "abc/def/jkl"; "."; "/";
     ".."; "/";
     "../../mno"; "/abc";
     "def"; "../../def"].
Proof. reflexivity. Qed.

Example Base_table :
  map Base [""; "."; "/."; "/"; "////"; "x/"; "abc"; "abc/def"; "a/b/.x"; "a/b/c."]
  = ["."; "."; "."; "/"; "/"; "x"; "abc"; "def"; ".x"; "c."].
Proof. reflexivity. Qed.

Example Dir_table :
  map Dir [""; "."; "/."; "/"; "/foo"; "x/"; "abc"; "abc/def"; "a/b/.x"; "////"]
  = ["."; "."; "/"; "/"; "/"; "x"; "."; "abc"; "a/b"; "/"].
Proof. reflexivity. Qed.

Example Join_table :
  map Join [[]; [""]; ["a"]; ["a"; "b"]; ["a"; ""]; [""; "b"]; ["/"; "a"];
            ["/"; ""]; ["/a"; "b"]; ["a/"; "b"]; ["a/"; ""]; [""; ""]]
  = [""; ""; "a"; "a/b"; "a"; "b"; "/a"; "/"; "/a/b"; "a/b"; "a"; ""].
Proof. reflexivity. Qed.

(** *** Lexical facts *)

(** the string holds no separator *)
Definition no_sep (s : string) : bool :=
  Hash.string_forall (fun c => negb (is_sep c)) s.

Lemma split_not_nil s : split s <> [].
Proof.
  destruct s as [|c s]; simpl; [discriminate|].
  destruct (is_sep c); [discriminate|]. destruct (split s); discriminate.
Qed.

Lemma split_no_sep s : no_sep s = true -> split s = [s].
Proof.
  induction s as [|c s IH]; [reflexivity|]. unfold no_sep. simpl.
  intros [Hc Hs]%andb_true_iff. apply negb_true_iff in Hc. rewrite Hc.
  now rewrite (IH Hs).
Qed.

(** splitting distributes over a separator *)
Lemma split_app_sep a b : split (a +:+ "/" +:+ b) = split a ++ split b.
Proof.
  induction a as [|c a IH].
  - reflexivity.
  - rewrite app_cons. simpl. destruct (is_sep c).
    + now rewrite IH.
    + rewrite IH. destruct (split a) as [|x r] eqn:E; [|reflexivity].
      now apply split_not_nil in E.
Qed.

Lemma rooted_app a b : a <> "" -> rooted (a +:+ b) = rooted a.
Proof. destruct a; [congruence | reflexivity]. Qed.

(** an empty element and a [.] element are both dropped *)
Lemma clean_elems_drop root stack xs c ys :
  c = "" \/ c = "." ->
  clean_elems root stack (xs ++ c :: ys) = clean_elems root stack (xs ++ ys).
Proof.
  intros Hc. revert stack. induction xs as [|x xs IH]; intros stack.
  - simpl. destruct Hc as [-> | ->]; reflexivity.
  - simpl. destruct (String.eqb x "" || String.eqb x "."); [apply IH|].
    destruct (String.eqb x "..").
    + destruct stack as [|top rest].
      * destruct root; apply IH.
      * destruct (String.eqb top ".."); apply IH.
    + apply IH.
Qed.

Lemma clean_elems_nonempty root stack elems :
  Forall (fun e => e <> "") stack ->
  Forall (fun e => e <> "") (clean_elems root stack elems).
Proof.
  revert stack. induction elems as [|c cs IH]; intros stack Hst.
  - simpl. now apply Forall_rev.
  - simpl. destruct (String.eqb c "" || String.eqb c ".") eqn:E1; [now apply IH|].
    apply orb_false_iff in E1 as [E1 _]. apply String.eqb_neq in E1.
    destruct (String.eqb c "..").
    + destruct stack as [|top rest].
      * destruct root; apply IH; auto.
      * destruct (String.eqb top ".."); apply IH; auto.
        now inversion Hst.
    + apply IH; auto.
Qed.

Lemma join_nonempty elems :
  elems <> [] -> Forall (fun e => e <> "") elems -> join elems <> "".
Proof.
  destruct elems as [|x r]; [congruence|]. intros _ H. inversion H; subst.
  destruct r; simpl; [assumption|]. destruct x; [congruence | discriminate].
Qed.

(** [Clean] never returns the empty string *)
Lemma Clean_nonempty path : Clean path <> "".
Proof.
  unfold Clean. destruct (rooted path); [discriminate|].
  destruct (clean_elems false [] (split path)) as [|x r] eqn:E; [discriminate|].
  apply join_nonempty; [discriminate|]. rewrite <- E.
  apply clean_elems_nonempty. constructor.
Qed.

Lemma Join_cons_nonempty e rest : e <> "" -> Join (e :: rest) = Clean (join (e :: rest)).
Proof. intros H. simpl. apply String.eqb_neq in H. now rewrite H. Qed.

(** a name without separator is cleaned to itself, or to [.] when it is
    empty or [.] *)
Lemma Clean_no_sep s :
  no_sep s = true ->
  Clean s = if String.eqb s "" || String.eqb s "." then "." else s.
Proof.
  intros H. unfold Clean. rewrite (split_no_sep s H).
  assert (Hr : rooted s = false).
  { destruct s as [|c s]; [reflexivity|]. unfold no_sep in H. simpl in H.
    apply andb_true_iff in H as [H _]. now apply negb_true_iff in H. }
  rewrite Hr. simpl.
  destruct (String.eqb s "" || String.eqb s "."); [reflexivity|].
  destruct (String.eqb s ".."); reflexivity.
Qed.

Lemma strip_trailing_seps_no_sep s : no_sep s = true -> strip_trailing_seps s = s.
Proof.
  induction s as [|c s IH]; [reflexivity|]. unfold no_sep. simpl.
  intros [Hc Hs]%andb_true_iff. apply negb_true_iff in Hc.
  rewrite (IH Hs), Hc. now destruct s.
Qed.

Lemma Base_no_sep s : no_sep s = true -> s <> "" -> Base s = s.
Proof.
  intros H Hne. unfold Base. apply String.eqb_neq in Hne. rewrite Hne.
  rewrite (strip_trailing_seps_no_sep s H), Hne, (split_no_sep s H). reflexivity.
Qed.

(** *** Names, and how [Clean] and [Join] treat them *)

(** a proper path element: not empty, not [.] or [..], without separator *)
Definition is_name (x : string) : bool :=
  negb (String.eqb x "") && negb (String.eqb x ".") && negb (String.eqb x "..")
  && no_sep x.

Lemma is_name_inv x :
  is_name x = true -> x <> "" /\ x <> "." /\ x <> ".." /\ no_sep x = true.
Proof.
  unfold is_name. intros H.
  apply andb_true_iff in H as [H H4]. apply andb_true_iff in H as [H H3].
  apply andb_true_iff in H as [H1 H2].
  apply negb_true_iff in H1, H2, H3. apply String.eqb_neq in H1, H2, H3. auto.
Qed.

Lemma split_all_no_sep s : Forall (fun e => no_sep e = true) (split s).
Proof.
  induction s as [|c s IH]; simpl.
  - repeat constructor.
  - destruct (is_sep c) eqn:Hc.
    + constructor; [reflexivity | exact IH].
    + destruct (split s) as [|x r]; [repeat constructor; unfold no_sep; simpl; now rewrite Hc|].
      inversion IH; subst. constructor; [|assumption].
      unfold no_sep. simpl. rewrite Hc. assumption.
Qed.

(** what holds of the stack and of the elements holds of the result *)
Lemma clean_elems_Forall (P : string -> Prop) root stack elems :
  Forall P stack -> Forall P elems -> Forall P (clean_elems root stack elems).
Proof.
  revert stack. induction elems as [|c cs IH]; intros stack Hst Hel.
  - simpl. now apply Forall_rev.
  - inversion Hel; subst. simpl.
    destruct (String.eqb c "" || String.eqb c "."); [now apply IH|].
    destruct (String.eqb c "..").
    + destruct stack as [|top rest].
      * destruct root; apply IH; auto.
      * destruct (String.eqb top ".."); apply IH; auto. now inversion Hst.
    + apply IH; auto.
Qed.

(** a name is kept, wherever it stands *)
Lemma clean_elems_name root stack x cs :
  is_name x = true -> clean_elems root stack (x :: cs) = clean_elems root (x :: stack) cs.
Proof.
  intros (H1 & H2 & H3 & _)%is_name_inv.
  apply String.eqb_neq in H1, H2, H3. simpl. now rewrite H1, H2, H3.
Qed.

(** a name at the end of the path is the last element of the result *)
Lemma clean_elems_snoc root stack xs x :
  is_name x = true ->
  clean_elems root stack (xs ++ [x]) = clean_elems root stack xs ++ [x].
Proof.
  intros Hx. revert stack. induction xs as [|c cs IH]; intros stack.
  - cbn [app]. rewrite (clean_elems_name _ _ _ _ Hx). reflexivity.
  - simpl. destruct (String.eqb c "" || String.eqb c "."); [apply IH|].
    destruct (String.eqb c "..").
    + destruct stack as [|top rest].
      * destruct root; apply IH.
      * destruct (String.eqb top ".."); apply IH.
    + apply IH.
Qed.

(** elements without [.], [..] and empty ones are all kept *)
Definition kept (e : string) : Prop := e <> "" /\ e <> "." /\ e <> "..".

Lemma clean_elems_kept root stack xs :
  Forall kept xs -> clean_elems root stack xs = rev stack ++ xs.
Proof.
  revert stack. induction xs as [|c cs IH]; intros stack H.
  - simpl. now rewrite List.app_nil_r.
  - inversion H as [|? ? (H1 & H2 & H3) Hcs]; subst.
    apply String.eqb_neq in H1, H2, H3. simpl. rewrite H1, H2, H3. simpl.
    rewrite (IH _ Hcs). simpl. now rewrite <- List.app_assoc.
Qed.

(** under a root only such elements are kept *)
Lemma clean_elems_rooted_kept stack xs :
  Forall kept stack -> Forall kept (clean_elems true stack xs).
Proof.
  revert stack. induction xs as [|c cs IH]; intros stack Hst.
  - simpl. now apply Forall_rev.
  - simpl. destruct (String.eqb c "") eqn:E1; [now apply IH|].
    destruct (String.eqb c ".") eqn:E2; [now apply IH|]. cbn [orb].
    destruct (String.eqb c "..") eqn:E3.
    + destruct stack as [|top rest]; [now apply IH|].
      destruct (String.eqb top "..") eqn:E4.
      * apply String.eqb_eq in E4. inversion Hst as [|? ? (_ & _ & Hk) _]; subst.
        congruence.
      * apply IH. now inversion Hst.
    + apply IH. constructor; [|assumption].
      apply String.eqb_neq in E1, E2, E3. now repeat split.
Qed.

(** joining and splitting *)
Lemma join_cons x y r : join (x :: y :: r) = x +:+ "/" +:+ join (y :: r).
Proof. reflexivity. Qed.

Lemma split_join elems :
  elems <> [] -> Forall (fun e => no_sep e = true) elems -> split (join elems) = elems.
Proof.
  intros Hne H. induction H as [|x r Hx Hr IH]; [congruence|].
  destruct r as [|y r].
  - simpl. now apply split_no_sep.
  - rewrite join_cons, split_app_sep, (split_no_sep x Hx), IH by discriminate.
    reflexivity.
Qed.

Lemma join_not_rooted elems :
  Forall (fun e => e <> "" /\ no_sep e = true) elems -> rooted (join elems) = false.
Proof.
  intros H. destruct H as [|x r [Hx Hs] _]; [reflexivity|].
  assert (Hr : rooted x = false).
  { destruct x as [|c x]; [congruence|]. unfold no_sep in Hs. simpl in Hs.
    apply andb_true_iff in Hs as [Hs _]. now apply negb_true_iff in Hs. }
  destruct r; [exact Hr|]. rewrite join_cons. now rewrite rooted_app.
Qed.

(** the elements of a cleaned path *)
Definition elements (path : string) : list string :=
  clean_elems (rooted path) [] (split path).

Lemma elements_ok path :
  Forall (fun e => e <> "" /\ no_sep e = true) (elements path).
Proof.
  unfold elements.
  pose proof (clean_elems_nonempty (rooted path) [] (split path)
                ltac:(constructor)) as H1.
  pose proof (clean_elems_Forall (fun e => no_sep e = true) (rooted path) [] (split path)
                ltac:(constructor) (split_all_no_sep path)) as H2.
  rewrite Forall_forall in *. intros e He. split; auto.
Qed.

(** a name joined to a path is the last element of the result *)
Lemma elements_child p x :
  p <> "" -> is_name x = true -> elements (p +:+ "/" +:+ x) = elements p ++ [x].
Proof.
  intros Hp Hx. unfold elements.
  pose proof (is_name_inv x Hx) as (_ & _ & _ & Hs).
  rewrite (rooted_app p) by assumption.
  rewrite split_app_sep, (split_no_sep x Hs).
  now apply clean_elems_snoc.
Qed.

(** [Clean] is injective on paths with the same elements but the last *)
Lemma Clean_spec path :
  Clean path = if rooted path then "/" +:+ join (elements path)
               else match elements path with [] => "." | _ => join (elements path) end.
Proof. reflexivity. Qed.

Lemma split_Clean_rooted path :
  rooted path = true -> elements path <> [] ->
  split (Clean path) = "" :: elements path.
Proof.
  intros Hr Hne. rewrite Clean_spec, Hr.
  change ("/" +:+ join (elements path)) with (String "/" (join (elements path))).
  simpl. rewrite split_join; [reflexivity | assumption |].
  eapply List.Forall_impl; [|apply elements_ok]. now intros e [_ He].
Qed.

Lemma split_Clean_relative path :
  rooted path = false -> elements path <> [] ->
  split (Clean path) = elements path.
Proof.
  intros Hr Hne. rewrite Clean_spec, Hr.
  destruct (elements path) as [|x r] eqn:E; [congruence|].
  rewrite <- E. rewrite split_join; [reflexivity | now rewrite E |].
  eapply List.Forall_impl; [|apply elements_ok]. now intros e [_ He].
Qed.

(** two paths that differ in their last name are cleaned to different paths *)
Lemma Clean_child_inj p x y :
  p <> "" -> is_name x = true -> is_name y = true ->
  Clean (p +:+ "/" +:+ x) = Clean (p +:+ "/" +:+ y) -> x = y.
Proof.
  intros Hp Hx Hy H. apply (f_equal split) in H.
  assert (Hrx : rooted (p +:+ "/" +:+ x) = rooted p) by now apply rooted_app.
  assert (Hry : rooted (p +:+ "/" +:+ y) = rooted p) by now apply rooted_app.
  assert (Hnx : elements (p +:+ "/" +:+ x) <> []).
  { rewrite elements_child by assumption. now destruct (elements p). }
  assert (Hny : elements (p +:+ "/" +:+ y) <> []).
  { rewrite elements_child by assumption. now destruct (elements p). }
  destruct (rooted p) eqn:Hr.
  - rewrite !split_Clean_rooted in H by assumption.
    rewrite !elements_child in H by assumption.
    injection H as H. now apply app_inj_tail in H as [_ H].
  - rewrite !split_Clean_relative in H by assumption.
    rewrite !elements_child in H by assumption.
    now apply app_inj_tail in H as [_ H].
Qed.

(** *** Cleaning a path and then resolving it from a root *)

(** a kept element followed by [..] is as if neither were there *)
Lemma clean_elems_cancel root stack ys top cs :
  kept top ->
  clean_elems root stack (ys ++ top :: ".." :: cs) = clean_elems root stack (ys ++ cs).
Proof.
  intros (H1 & H2 & H3). apply String.eqb_neq in H1, H2, H3.
  revert stack. induction ys as [|y ys IH]; intros stack.
  - cbn [app clean_elems]. rewrite H1, H2, H3. cbn [orb].
    change (String.eqb ".." "" || String.eqb ".." ".") with false.
    change (String.eqb ".." "..") with true. cbv iota. reflexivity.
  - simpl. destruct (String.eqb y "" || String.eqb y "."); [apply IH|].
    destruct (String.eqb y "..").
    + destruct stack as [|t rest].
      * destruct root; apply IH.
      * destruct (String.eqb t ".."); apply IH.
    + apply IH.
Qed.

(** the stack after the first elements decides the rest *)
Lemma clean_elems_app root stack pre :
  exists stack', forall ys,
    clean_elems root stack (pre ++ ys) = clean_elems root stack' ys.
Proof.
  revert stack. induction pre as [|c cs IH]; intros stack.
  - now exists stack.
  - simpl. destruct (String.eqb c "" || String.eqb c "."); [apply IH|].
    destruct (String.eqb c "..").
    + destruct stack as [|t rest].
      * destruct root; apply IH.
      * destruct (String.eqb t ".."); apply IH.
    + apply IH.
Qed.

(** cleaning a relative path first changes nothing for a rooted reading *)
Lemma clean_elems_over xs :
  forall stack2 stack,
    Forall (fun e => e <> "" /\ e <> ".") stack2 ->
    clean_elems true stack (clean_elems false stack2 xs)
    = clean_elems true stack (rev stack2 ++ xs).
Proof.
  induction xs as [|c cs IH]; intros stack2 stack Hst.
  - simpl. now rewrite List.app_nil_r.
  - cbn [clean_elems].
    destruct (String.eqb c "") eqn:E1.
    { apply String.eqb_eq in E1. subst c. cbn [orb]. rewrite (IH _ _ Hst).
      symmetry. apply clean_elems_drop. now left. }
    destruct (String.eqb c ".") eqn:E2.
    { apply String.eqb_eq in E2. subst c. cbn [orb]. rewrite (IH _ _ Hst).
      symmetry. apply clean_elems_drop. now right. }
    cbn [orb]. apply String.eqb_neq in E1, E2.
    destruct (String.eqb c "..") eqn:E3.
    + apply String.eqb_eq in E3. subst c.
      destruct stack2 as [|top rest].
      * rewrite IH by (repeat constructor; discriminate). reflexivity.
      * destruct (String.eqb top "..") eqn:E4.
        -- rewrite IH by (constructor; [split; discriminate | assumption]).
           cbn [rev]. now rewrite <- List.app_assoc.
        -- apply String.eqb_neq in E4. inversion Hst as [|? ? [Ht1 Ht2] Hrest]; subst.
           rewrite (IH _ _ Hrest). cbn [rev]. rewrite <- List.app_assoc. cbn [app].
           symmetry. now apply clean_elems_cancel.
    + rewrite IH by (constructor; [split; assumption | assumption]).
      cbn [rev]. now rewrite <- List.app_assoc.
Qed.

Lemma rooted_Clean path : rooted (Clean path) = rooted path.
Proof.
  rewrite Clean_spec. destruct (rooted path) eqn:Hr; [reflexivity|].
  pose proof (elements_ok path) as Hok.
  destruct (elements path) as [|x r] eqn:E; [reflexivity|].
  now apply join_not_rooted.
Qed.

(** the elements of [prefix] followed by the path, read from a root, are
    the same for the path and for its cleaned form *)
Lemma clean_elems_Clean prefix path :
  (rooted path = true -> prefix = []) ->
  clean_elems true [] (prefix ++ split (Clean path))
  = clean_elems true [] (prefix ++ split path).
Proof.
  intros Hpre. destruct (rooted path) eqn:Hr.
  - rewrite (Hpre eq_refl). cbn [app].
    assert (HE : clean_elems true [] (split path) = elements path)
      by (unfold elements; now rewrite Hr).
    assert (Hk : Forall kept (elements path)).
    { rewrite <- HE. now apply clean_elems_rooted_kept. }
    rewrite HE. destruct (elements path) as [|x r] eqn:E.
    + rewrite Clean_spec, Hr, E. reflexivity.
    + rewrite split_Clean_rooted by (assumption || now rewrite E).
      rewrite E. change (clean_elems true [] ("" :: x :: r))
        with (clean_elems true [] (x :: r)).
      now rewrite (clean_elems_kept true [] (x :: r) Hk).
  - destruct (clean_elems_app true [] prefix) as [st Hst]. rewrite !Hst.
    pose proof (clean_elems_over (split path) [] st ltac:(constructor)) as Hover.
    cbn [rev app] in Hover. rewrite <- Hover.
    destruct (elements path) as [|x r] eqn:E.
    + rewrite Clean_spec, Hr, E.
      unfold elements in E. rewrite Hr in E. rewrite E.
      reflexivity.
    + rewrite split_Clean_relative by (assumption || now rewrite E).
      unfold elements. now rewrite Hr.
Qed.

(** joining what [split] gave restores the text *)
Lemma join_split s : join (split s) = s.
Proof.
  induction s as [|c s IH]; [reflexivity|].
  simpl. pose proof (split_not_nil s) as Hne.
  destruct (split s) as [|x r]; [congruence|].
  destruct (is_sep c) eqn:Hc.
  - rewrite join_cons, app_nil_l, IH.
    unfold is_sep in Hc. apply Ascii.eqb_eq in Hc. now subst c.
  - destruct r as [|y r].
    + simpl in *. now rewrite IH.
    + rewrite join_cons, app_cons. rewrite join_cons in IH. now rewrite IH.
Qed.

(** a path joined with a proper name ends with that name *)
Lemma join_snoc l x : exists pre, join (l ++ [x]) = pre +:+ x.
Proof.
  induction l as [|y l IH]; [now exists ""|].
  destruct IH as (pre & IH). destruct l as [|z l].
  - exists (y +:+ "/"). simpl. now rewrite app_assoc.
  - exists (y +:+ "/" +:+ pre). cbn [app] in *. rewrite join_cons, IH.
    now rewrite !app_assoc.
Qed.

Lemma Join_child_suffix d x :
  d <> "" -> is_name x = true -> exists pre, Join [d; x] = pre +:+ x.
Proof.
  intros Hd Hx. rewrite Join_cons_nonempty by assumption.
  change (join [d; x]) with (d +:+ "/" +:+ x).
  rewrite Clean_spec, (rooted_app d) by assumption.
  rewrite (elements_child d x Hd Hx).
  destruct (join_snoc (elements d) x) as (pre & Hpre). rewrite Hpre.
  destruct (rooted d).
  - exists ("/" +:+ pre). now rewrite app_assoc.
  - exists pre. now destruct (elements d).
Qed.

End Filepath.


(** ** The file system the [os] calls act on

    The state is a tree of directories and regular files, kept as a finite
    map from the elements of an absolute path to the node there; the root,
    the empty path, is a directory that always exists.  Names are resolved
    lexically against the working directory (no symbolic links).  The
    failures modelled are those the tree decides: a missing parent, a file
    where a directory is needed, a directory where a file is needed. *)

Module OS.

Inductive node : Type :=
| DirNode
| FileNode (data : string).

Record FS : Type := mkFS {
  cwd : list string;
  nodes : gmap (list string) node
}.

Definition with_nodes (fs : FS) (m : gmap (list string) node) : FS :=
  mkFS (cwd fs) m.

(** the elements of the absolute path a name stands for; the empty name
    stands for none *)
Definition resolve (fs : FS) (name : string) : option (list string) :=
  if String.eqb name "" then None
  else Some (Filepath.clean_elems true []
               (if Filepath.rooted name then Filepath.split name
                else cwd fs ++ Filepath.split name)).

Definition lookup_node (m : gmap (list string) node) (p : list string) : option node :=
  match p with
  | [] => Some DirNode
  | _ => m !! p
  end.

Definition parent (p : list string) : list string := removelast p.

(** [os.Stat]: the node a name leads to, if any *)
Definition Stat (name : string) (fs : FS) : option node :=
  match resolve fs name with
  | Some p => lookup_node (nodes fs) p
  | None => None
  end.

(** [os.Mkdir] at a resolved path *)
Definition mkdir (p : list string) (m : gmap (list string) node)
  : gmap (list string) node * option error :=
  match lookup_node m p with
  | Some _ => (m, Some "file exists")
  | None =>
      match lookup_node m (parent p) with
      | Some DirNode => (<[p := DirNode]> m, None)
      | Some (FileNode _) => (m, Some "not a directory")
      | None => (m, Some "no such file or directory")
      end
  end.

(** [os.MkdirAll] at a resolved path, given last element first.  As in Go:
    a path that is a directory is left alone, a file there is an error,
    otherwise the parent is made first and then the directory itself. *)
Fixpoint mkdirAll (rp : list string) (m : gmap (list string) node)
  : gmap (list string) node * option error :=
  match lookup_node m (rev rp) with
  | Some DirNode => (m, None)
  | Some (FileNode _) => (m, Some "not a directory")
  | None =>
      match rp with
      | [] => (m, None)
      | _ :: rparent =>
          match mkdirAll rparent m with
          | (m', Some e) => (m', Some e)
          | (m', None) =>
              match mkdir (rev rp) m' with
              | (m'', Some e) =>
                  match lookup_node m'' (rev rp) with
                  | Some DirNode => (m'', None)
                  | _ => (m'', Some e)
                  end
              | (m'', None) => (m'', None)
              end
          end
      end
  end.

Definition MkdirAll (name : string) (fs : FS) : FS * option error :=
  match resolve fs name with
  | None => (fs, Some "no such file or directory")
  | Some p =>
      let '(m, e) := mkdirAll (rev p) (nodes fs) in
      (with_nodes fs m, e)
  end.

(** the tree without the node at [p] and the nodes below it *)
Definition remove_below (p : list string) (m : gmap (list string) node)
  : gmap (list string) node :=
  filter (fun kv : list string * node => ¬ (p `prefix_of` kv.1)) m.

(** the last element of the name is [.] *)
Definition endsWithDot (name : string) : bool :=
  String.eqb name "." ||
  match List.rev (list_ascii_of_string name) with
  | c1 :: c2 :: _ => Ascii.eqb c1 "." && Filepath.is_sep c2
  | _ => false
  end.

(** [os.RemoveAll]: the node and everything below it goes; a name that
    leads nowhere is no error.  The empty name is accepted and a name
    ending in [.] refused, as Go does; the root itself cannot be removed
    (what it holds is). *)
Definition RemoveAll (name : string) (fs : FS) : FS * option error :=
  if String.eqb name "" then (fs, None)
  else if endsWithDot name then (fs, Some "invalid argument")
  else
    match resolve fs name with
    | None => (fs, None)
    | Some p =>
        match p with
        | [] => (with_nodes fs ∅, Some "device or resource busy")
        | _ => (with_nodes fs (remove_below p (nodes fs)), None)
        end
    end.

(** [os.OpenFile(name, O_APPEND|O_CREATE|O_WRONLY, 0644)]: the file is
    created empty when it is missing; the result is the open file, known by
    its resolved path *)
Definition OpenFileAppend (name : string) (fs : FS) : FS * Result (list string) :=
  match resolve fs name with
  | None => (fs, Err "no such file or directory")
  | Some p =>
      match lookup_node (nodes fs) p with
      | Some DirNode => (fs, Err "is a directory")
      | Some (FileNode _) => (fs, Ok p)
      | None =>
          match lookup_node (nodes fs) (parent p) with
          | Some DirNode => (with_nodes fs (<[p := FileNode ""]> (nodes fs)), Ok p)
          | Some (FileNode _) => (fs, Err "not a directory")
          | None => (fs, Err "no such file or directory")
          end
      end
  end.

(** [file.WriteString] on a file opened for appending *)
Definition WriteString (file : list string) (s : string) (fs : FS) : FS * option error :=
  match nodes fs !! file with
  | Some (FileNode data) =>
      (with_nodes fs (<[file := FileNode (data +:+ s)]> (nodes fs)), None)
  | _ => (fs, Some "bad file descriptor")
  end.

(** [os.Open]: any existing node can be opened for reading *)
Definition Open (name : string) (fs : FS) : Result (list string) :=
  match resolve fs name with
  | None => Err "no such file or directory"
  | Some p =>
      match lookup_node (nodes fs) p with
      | Some _ => Ok p
      | None => Err "no such file or directory"
      end
  end.

(** what reading an open file to its end gives; a directory cannot be read *)
Definition ReadAll (file : list string) (fs : FS) : Result string :=
  match lookup_node (nodes fs) file with
  | Some (FileNode data) => Ok data
  | Some DirNode => Err "is a directory"
  | None => Err "bad file descriptor"
  end.

(** *** Properties of the model *)

Lemma mkdir_preserves p m m' e q n :
  mkdir p m = (m', e) -> lookup_node m q = Some n -> lookup_node m' q = Some n.
Proof.
  unfold mkdir. intros H Hq.
  destruct (lookup_node m p) eqn:Hp; [congruence|].
  destruct (lookup_node m (parent p)) as [[|d]|]; try congruence.
  injection H as <- <-.
  destruct q as [|x q]; [assumption|]. simpl in *.
  destruct (decide (p = x :: q)) as [->|Hne].
  - simpl in Hp. congruence.
  - now rewrite lookup_insert_ne.
Qed.

Lemma mkdir_ok p m m' :
  mkdir p m = (m', None) -> lookup_node m' p = Some DirNode.
Proof.
  unfold mkdir. intros H.
  destruct (lookup_node m p) eqn:Hp; [congruence|].
  destruct (lookup_node m (parent p)) as [[|d]|]; try congruence.
  injection H as <-. destruct p; [reflexivity|]. simpl. apply lookup_insert_eq.
Qed.

(** what exists before [MkdirAll] exists after it, whatever its outcome *)
Lemma mkdirAll_preserves rp m m' e q n :
  mkdirAll rp m = (m', e) -> lookup_node m q = Some n -> lookup_node m' q = Some n.
Proof.
  revert m m' e. induction rp as [|c rp IH]; intros m m' e H Hq.
  - simpl in H. injection H as <- _. assumption.
  - cbn [mkdirAll] in H.
    destruct (lookup_node m (rev (c :: rp))) as [[|d]|].
    + injection H as <- _. assumption.
    + injection H as <- _. assumption.
    + destruct (mkdirAll rp m) as [m1 [e1|]] eqn:Hrec.
      * injection H as <- _. eapply IH; eassumption.
      * destruct (mkdir (rev (c :: rp)) m1) as [m2 e2] eqn:Hmk.
        assert (lookup_node m2 q = Some n).
        { eapply mkdir_preserves; [eassumption|]. eapply IH; eassumption. }
        destruct e2; [destruct (lookup_node m2 (rev (c :: rp))) as [[|?]|]|];
          injection H as <- _; assumption.
Qed.

(** after a successful [MkdirAll] the path is a directory *)
Lemma mkdirAll_ok rp m m' :
  mkdirAll rp m = (m', None) -> lookup_node m' (rev rp) = Some DirNode.
Proof.
  destruct rp as [|c rp]; [reflexivity|].
  cbn [mkdirAll]. intros H.
  destruct (lookup_node m (rev (c :: rp))) as [[|d]|] eqn:Hl.
  - injection H as <-. assumption.
  - discriminate.
  - destruct (mkdirAll rp m) as [m1 [e1|]]; [discriminate|].
    destruct (mkdir (rev (c :: rp)) m1) as [m2 [e2|]] eqn:Hmk.
    + destruct (lookup_node m2 (rev (c :: rp))) as [[|?]|] eqn:Hl2; try discriminate.
      injection H as <-. assumption.
    + injection H as <-. eapply mkdir_ok; eassumption.
Qed.

(** on a directory [MkdirAll] does nothing and succeeds *)
Lemma mkdirAll_existing rp m :
  lookup_node m (rev rp) = Some DirNode -> mkdirAll rp m = (m, None).
Proof. intros H. destruct rp; cbn [mkdirAll]; now rewrite H. Qed.

(** [MkdirAll] adds directories only *)
Lemma mkdir_adds_dir p m m' e q n :
  mkdir p m = (m', e) -> lookup_node m' q = Some n ->
  lookup_node m q = Some n \/ n = DirNode.
Proof.
  unfold mkdir. intros H Hq.
  destruct (lookup_node m p) eqn:Hp; [injection H as <- _; now left|].
  destruct (lookup_node m (parent p)) as [[|d]|]; try (injection H as <- _; now left).
  injection H as <- _.
  destruct q as [|x q]; [now left|]. simpl in *.
  destruct (decide (p = x :: q)) as [->|Hne].
  - rewrite lookup_insert_eq in Hq. right. congruence.
  - rewrite lookup_insert_ne in Hq by assumption. now left.
Qed.

Lemma mkdirAll_adds_dirs rp m m' e q n :
  mkdirAll rp m = (m', e) -> lookup_node m' q = Some n ->
  lookup_node m q = Some n \/ n = DirNode.
Proof.
  revert m m' e. induction rp as [|c rp IH]; intros m m' e H Hq.
  - simpl in H. injection H as <- _. now left.
  - cbn [mkdirAll] in H.
    destruct (lookup_node m (rev (c :: rp))) as [[|d]|].
    + injection H as <- _. now left.
    + injection H as <- _. now left.
    + destruct (mkdirAll rp m) as [m1 [e1|]] eqn:Hrec.
      * injection H as <- _. eapply IH; eassumption.
      * destruct (mkdir (rev (c :: rp)) m1) as [m2 e2] eqn:Hmk.
        assert (Hm2 : m' = m2).
        { destruct e2; [destruct (lookup_node m2 (rev (c :: rp))) as [[|?]|]|];
            now injection H as <- _. }
        subst m'.
        destruct (mkdir_adds_dir _ _ _ _ _ _ Hmk Hq) as [H1|H1]; [|now right].
        eapply IH; eassumption.
Qed.

Lemma with_nodes_id fs : with_nodes fs (nodes fs) = fs.
Proof. now destruct fs. Qed.

(** *** More of package os *)

(** some directory on the way to [p] is a regular file: the failure of a
    call on such a path is [ENOTDIR], not [ENOENT] *)
Definition through_file (m : gmap (list string) node) (p : list string) : bool :=
  existsb (fun n => match lookup_node m (firstn n p) with
                    | Some (FileNode _) => true
                    | _ => false
                    end)
          (seq 0 (length p)).

(** the error of a call on a name that leads nowhere *)
Definition lookup_error (name : string) (fs : FS) : error :=
  match resolve fs name with
  | None => "no such file or directory"
  | Some p =>
      if through_file (nodes fs) p then "not a directory"
      else "no such file or directory"
  end.

(** [os.IsNotExist] *)
Definition IsNotExist (err : error) : bool :=
  String.eqb err "no such file or directory".

(** the directory at [p] holds something *)
Definition has_children (m : gmap (list string) node) (p : list string) : bool :=
  negb (bool_decide
          (filter (fun kv : list string * node => p `prefix_of` kv.1 /\ kv.1 <> p) m = ∅)).

(** [os.Remove]: a file, or a directory that holds nothing, is removed *)
Definition Remove (name : string) (fs : FS) : FS * option error :=
  match resolve fs name with
  | None => (fs, Some "no such file or directory")
  | Some p =>
      match lookup_node (nodes fs) p with
      | None => (fs, Some (lookup_error name fs))
      | Some (FileNode _) => (with_nodes fs (delete p (nodes fs)), None)
      | Some DirNode =>
          match p with
          | [] => (fs, Some "device or resource busy")
          | _ =>
              if has_children (nodes fs) p then (fs, Some "directory not empty")
              else (with_nodes fs (delete p (nodes fs)), None)
          end
      end
  end.

(** [os.WriteFile(name, data, 0644)]: the file is created or truncated, and
    then holds the data *)
Definition WriteFile (name : string) (data : string) (fs : FS) : FS * option error :=
  match resolve fs name with
  | None => (fs, Some "no such file or directory")
  | Some p =>
      match lookup_node (nodes fs) p with
      | Some DirNode => (fs, Some "is a directory")
      | Some (FileNode _) => (with_nodes fs (<[p := FileNode data]> (nodes fs)), None)
      | None =>
          match lookup_node (nodes fs) (parent p) with
          | Some DirNode => (with_nodes fs (<[p := FileNode data]> (nodes fs)), None)
          | Some (FileNode _) => (fs, Some "not a directory")
          | None => (fs, Some (lookup_error name fs))
          end
      end
  end.

(** *** Resolving cleaned and joined paths *)

Lemma resolve_Clean fs path :
  path <> "" -> resolve fs (Filepath.Clean path) = resolve fs path.
Proof.
  intros Hp. unfold resolve.
  pose proof (Filepath.Clean_nonempty path) as Hc.
  apply String.eqb_neq in Hp, Hc. rewrite Hp, Hc. f_equal.
  rewrite Filepath.rooted_Clean. destruct (Filepath.rooted path) eqn:Hr.
  - apply (Filepath.clean_elems_Clean [] path). reflexivity.
  - apply (Filepath.clean_elems_Clean (cwd fs) path). congruence.
Qed.

(** a name joined to a path resolves to a child of what the path resolves to *)
Lemma resolve_child fs p x pp :
  Filepath.is_name x = true -> resolve fs p = Some pp ->
  resolve fs (p +:+ "/" +:+ x) = Some (pp ++ [x]).
Proof.
  intros Hx. unfold resolve.
  destruct (String.eqb p "") eqn:Hp; [discriminate|]. apply String.eqb_neq in Hp.
  intros [= <-].
  assert (Hne : p +:+ "/" +:+ x <> "") by (apply app_ne_r; discriminate).
  apply String.eqb_neq in Hne. rewrite Hne. f_equal.
  pose proof (Filepath.is_name_inv x Hx) as (_ & _ & _ & Hs).
  rewrite (Filepath.rooted_app p) by assumption.
  rewrite Filepath.split_app_sep, (Filepath.split_no_sep x Hs).
  destruct (Filepath.rooted p).
  - now apply Filepath.clean_elems_snoc.
  - rewrite List.app_assoc. now apply Filepath.clean_elems_snoc.
Qed.

Lemma resolve_Join_child fs d x pd :
  Filepath.is_name x = true -> resolve fs d = Some pd ->
  resolve fs (Filepath.Join [d; x]) = Some (pd ++ [x]).
Proof.
  intros Hx Hd.
  assert (Hne : d <> "").
  { intros ->. discriminate. }
  rewrite Filepath.Join_cons_nonempty by assumption.
  change (Filepath.join [d; x]) with (d +:+ "/" +:+ x).
  rewrite resolve_Clean by (apply app_ne_r; discriminate).
  now apply resolve_child.
Qed.

Lemma resolve_is_Some fs name : name <> "" -> exists p, resolve fs name = Some p.
Proof.
  intros H. unfold resolve. apply String.eqb_neq in H. rewrite H. eauto.
Qed.

Lemma resolve_with_nodes fs m name : resolve (with_nodes fs m) name = resolve fs name.
Proof. reflexivity. Qed.

(** *** What [RemoveAll] leaves *)

Lemma remove_below_lookup p m q :
  p <> [] ->
  lookup_node (remove_below p m) q
  = if decide (p `prefix_of` q) then None else lookup_node m q.
Proof.
  intros Hp. destruct q as [|x q].
  - simpl. destruct (decide (p `prefix_of` [])) as [Hpre|]; [|reflexivity].
    apply prefix_nil_inv in Hpre. congruence.
  - cbn [lookup_node]. unfold remove_below.
    destruct (decide (p `prefix_of` x :: q)) as [Hpre|Hpre].
    + apply map_lookup_filter_None. right. intros n _ Hn. now apply Hn.
    + apply option_eq. intros n. rewrite map_lookup_filter_Some. simpl. tauto.
Qed.

Lemma list_ascii_app s t :
  list_ascii_of_string (s +:+ t) = list_ascii_of_string s ++ list_ascii_of_string t.
Proof.
  induction s as [|c s IH]; [reflexivity|]. rewrite app_cons. simpl. now rewrite IH.
Qed.

Lemma no_sep_chars x :
  Filepath.no_sep x = true ->
  Forall (fun c => Filepath.is_sep c = false) (list_ascii_of_string x).
Proof.
  induction x as [|c x IH]; [constructor|].
  unfold Filepath.no_sep. simpl. intros [Hc Hx]%andb_true_iff.
  apply negb_true_iff in Hc. constructor; [exact Hc | now apply IH].
Qed.

(** a path whose last element is a proper name does not end in a dot element *)
Lemma endsWithDot_name pre x :
  Filepath.is_name x = true -> endsWithDot (pre +:+ x) = false.
Proof.
  intros Hx. destruct (Filepath.is_name_inv x Hx) as (Hne & Hdot & _ & Hsep).
  unfold endsWithDot. apply orb_false_iff. split.
  - apply String.eqb_neq. intros E. destruct pre as [|c pre].
    + now rewrite app_nil_l in E.
    + rewrite app_cons in E. injection E as _ E.
      destruct pre; [now rewrite app_nil_l in E | discriminate].
  - rewrite list_ascii_app, rev_app_distr.
    pose proof (no_sep_chars x Hsep) as Hall.
    pose proof (string_of_list_ascii_of_string x) as Hx'.
    pose proof (rev_involutive (list_ascii_of_string x)) as Hrev.
    destruct (rev (list_ascii_of_string x)) as [|c1 [|c2 r]] eqn:E.
    + simpl in Hrev. rewrite <- Hrev in Hx'. simpl in Hx'. congruence.
    + simpl in Hrev. rewrite <- Hrev in Hx'. simpl in Hx'.
      assert (Hc1 : Ascii.eqb c1 "." = false).
      { apply Ascii.eqb_neq. intros ->. congruence. }
      simpl. destruct (rev (list_ascii_of_string pre)); [reflexivity|].
      now rewrite Hc1.
    + assert (Hc2 : Filepath.is_sep c2 = false).
      { rewrite <- Hrev in Hall. apply Forall_rev in Hall. rewrite rev_involutive in Hall.
        inversion Hall as [|? ? _ Hall']; subst.
        now inversion Hall'. }
      simpl. rewrite Hc2. apply andb_false_r.
Qed.

(** [RemoveAll] of a path below the root succeeds, and takes the node and
    what is below it *)
Lemma RemoveAll_below fs name p :
  name <> "" -> endsWithDot name = false -> resolve fs name = Some p -> p <> [] ->
  RemoveAll name fs = (with_nodes fs (remove_below p (nodes fs)), None).
Proof.
  intros Hne Hdot Hres Hp. unfold RemoveAll.
  apply String.eqb_neq in Hne. rewrite Hne, Hdot, Hres.
  destruct p; [congruence | reflexivity].
Qed.

(** *** What [WriteFile] and [Remove] leave *)

Lemma lookup_node_insert p n m q :
  p <> [] ->
  lookup_node (<[p := n]> m) q = if decide (q = p) then Some n else lookup_node m q.
Proof.
  intros Hp. destruct (decide (q = p)) as [-> | Hq].
  - destruct p; [congruence|]. apply lookup_insert_eq.
  - destruct q; [reflexivity|]. cbn [lookup_node]. now apply lookup_insert_ne.
Qed.

Lemma lookup_node_delete p m q :
  p <> [] ->
  lookup_node (delete p m) q = if decide (q = p) then None else lookup_node m q.
Proof.
  intros Hp. destruct (decide (q = p)) as [-> | Hq].
  - destruct p; [congruence|]. apply lookup_delete_eq.
  - destruct q; [reflexivity|]. cbn [lookup_node]. now apply lookup_delete_ne.
Qed.

Lemma file_not_root m p data : lookup_node m p = Some (FileNode data) -> p <> [].
Proof. now intros H ->. Qed.

(** writing to a regular file replaces what it holds *)
Lemma WriteFile_existing name data fs p old :
  resolve fs name = Some p -> lookup_node (nodes fs) p = Some (FileNode old) ->
  WriteFile name data fs = (with_nodes fs (<[p := FileNode data]> (nodes fs)), None).
Proof. intros Hr Hl. unfold WriteFile. now rewrite Hr, Hl. Qed.

(** [MkdirAll] adds nodes on the way to the path only *)
Lemma mkdir_adds_at p m m' e q n :
  mkdir p m = (m', e) -> lookup_node m' q = Some n ->
  lookup_node m q = Some n \/ q = p.
Proof.
  unfold mkdir. intros H Hq.
  destruct (lookup_node m p) eqn:Hp; [injection H as <- _; now left|].
  destruct (lookup_node m (parent p)) as [[|d]|]; try (injection H as <- _; now left).
  injection H as <- _.
  destruct (decide (q = p)) as [->|Hne]; [now right|]. left.
  destruct q as [|x q]; [assumption|]. simpl in *.
  now rewrite lookup_insert_ne in Hq by congruence.
Qed.

Lemma mkdirAll_adds_prefixes rp m m' e q n :
  mkdirAll rp m = (m', e) -> lookup_node m' q = Some n ->
  lookup_node m q = Some n \/ q `prefix_of` rev rp.
Proof.
  revert m m' e. induction rp as [|c rp IH]; intros m m' e H Hq.
  - simpl in H. injection H as <- _. now left.
  - cbn [mkdirAll] in H.
    destruct (lookup_node m (rev (c :: rp))) as [[|d]|].
    + injection H as <- _. now left.
    + injection H as <- _. now left.
    + assert (Hpre : forall q', q' `prefix_of` rev rp -> q' `prefix_of` rev (c :: rp)).
      { intros q' Hq'. simpl. now apply prefix_app_r. }
      destruct (mkdirAll rp m) as [m1 [e1|]] eqn:Hrec.
      * injection H as <- _. destruct (IH _ _ _ Hrec Hq); auto.
      * destruct (mkdir (rev (c :: rp)) m1) as [m2 e2] eqn:Hmk.
        assert (Hm2 : m' = m2).
        { destruct e2; [destruct (lookup_node m2 (rev (c :: rp))) as [[|?]|]|];
            now injection H as <- _. }
        subst m'.
        destruct (mkdir_adds_at _ _ _ _ _ _ Hmk Hq) as [H1 | ->]; [|now right].
        destruct (IH _ _ _ Hrec H1); auto.
Qed.

(** [MkdirAll] leaves what is strictly below the path as it was *)
Lemma MkdirAll_below name fs fs' e p q :
  MkdirAll name fs = (fs', e) -> resolve fs name = Some p ->
  p `prefix_of` q -> q <> p ->
  lookup_node (nodes fs') q = lookup_node (nodes fs) q.
Proof.
  unfold MkdirAll. intros H Hr Hpre Hne. rewrite Hr in H.
  destruct (mkdirAll (rev p) (nodes fs)) as [m e'] eqn:Hm. injection H as <- _.
  cbn [nodes with_nodes].
  destruct (lookup_node m q) as [n|] eqn:Hq.
  - destruct (mkdirAll_adds_prefixes _ _ _ _ _ _ Hm Hq) as [H1 | H1]; [now rewrite H1|].
    rewrite rev_involutive in H1. exfalso. apply Hne.
    now apply (anti_symm prefix).
  - destruct (lookup_node (nodes fs) q) as [n|] eqn:Hq0; [|reflexivity].
    rewrite (mkdirAll_preserves _ _ _ _ _ _ Hm Hq0) in Hq. discriminate.
Qed.

End OS.

(** ** Package utils: directories *)

Module Utils.

(** Modelled from the spec: [utils.IsDirectory] (internal/utils/paths.go) is
    not among the sources.  By its name and its callers it reports whether
    the path exists and is a directory: [os.Stat] followed by [IsDir]. *)
Definition IsDirectory (path : string) (fs : OS.FS) : bool :=
  match OS.Stat path fs with
  | Some OS.DirNode => true
  | _ => false
  end.

(** Modelled from the spec: [utils.EnsureDir] (internal/utils/paths.go) is
    not among the sources.  The spec has the cache expose an idempotent
    [ensureDirs] built on it, and its callers use it to make a directory
    with its parents before writing below it: it is [os.MkdirAll]. *)
Definition EnsureDir (path : string) (fs : OS.FS) : OS.FS * option error :=
  OS.MkdirAll path fs.

Lemma EnsureDir_cwd path fs fs' e :
  EnsureDir path fs = (fs', e) -> OS.cwd fs' = OS.cwd fs.
Proof.
  unfold EnsureDir, OS.MkdirAll. destruct (OS.resolve fs path).
  - destruct (OS.mkdirAll _ _). now intros [= <- _].
  - now intros [= <- _].
Qed.

Lemma resolve_cwd fs fs' name :
  OS.cwd fs' = OS.cwd fs -> OS.resolve fs' name = OS.resolve fs name.
Proof. unfold OS.resolve. now intros ->. Qed.

(** a successful [EnsureDir] leaves a directory at the path *)
Lemma EnsureDir_ok path fs fs' :
  EnsureDir path fs = (fs', None) -> IsDirectory path fs' = true.
Proof.
  intros H. pose proof (EnsureDir_cwd _ _ _ _ H) as Hcwd.
  unfold IsDirectory, OS.Stat. rewrite (resolve_cwd _ _ _ Hcwd).
  unfold EnsureDir, OS.MkdirAll in H.
  destruct (OS.resolve fs path) as [p|]; [|discriminate].
  destruct (OS.mkdirAll (rev p) (OS.nodes fs)) as [m e] eqn:Hm.
  injection H as <- ->. simpl.
  apply OS.mkdirAll_ok in Hm. rewrite rev_involutive in Hm. now rewrite Hm.
Qed.

(** on an existing directory [EnsureDir] succeeds and changes nothing *)
Lemma EnsureDir_existing path fs :
  IsDirectory path fs = true -> EnsureDir path fs = (fs, None).
Proof.
  unfold IsDirectory, OS.Stat, EnsureDir, OS.MkdirAll.
  destruct (OS.resolve fs path) as [p|]; [|discriminate].
  destruct (OS.lookup_node (OS.nodes fs) p) as [[|d]|] eqn:Hl; try discriminate.
  intros _. rewrite OS.mkdirAll_existing by now rewrite rev_involutive.
  now rewrite OS.with_nodes_id.
Qed.

(** directories that exist stay, whatever the outcome *)
Lemma EnsureDir_preserves path fs fs' e q :
  EnsureDir path fs = (fs', e) -> IsDirectory q fs = true -> IsDirectory q fs' = true.
Proof.
  intros H. pose proof (EnsureDir_cwd _ _ _ _ H) as Hcwd.
  unfold IsDirectory, OS.Stat. rewrite (resolve_cwd _ _ _ Hcwd).
  destruct (OS.resolve fs q) as [pq|]; [|discriminate].
  destruct (OS.lookup_node (OS.nodes fs) pq) as [[|d]|] eqn:Hl; try discriminate.
  intros _. unfold EnsureDir, OS.MkdirAll in H.
  destruct (OS.resolve fs path) as [p|].
  - destruct (OS.mkdirAll (rev p) (OS.nodes fs)) as [m e'] eqn:Hm.
    injection H as <- _. simpl.
    now rewrite (OS.mkdirAll_preserves _ _ _ _ _ _ Hm Hl).
  - injection H as <- _. now rewrite Hl.
Qed.

(** *** hash.go: the digests of files *)

(** [ComputeFileSHA256] computes the SHA256 hash of a file: the file is
    opened and copied whole into the hash *)
Definition ComputeFileSHA256 (filePath : string) (fs : OS.FS) : Result string :=
  match OS.Open filePath fs with
  | Err _ => Err (wrap "failed to open file" (OS.lookup_error filePath fs))
  | Ok file =>
      match OS.ReadAll file fs with
      | Err err => Err (wrap "failed to compute hash" err)
      | Ok data => Ok (Hash.EncodeToString (Hash.Sum256 (list_byte_of_string data)))
      end
  end.

(** [ComputeFileSHA512] computes the SHA512 hash of a file *)
Definition ComputeFileSHA512 (filePath : string) (fs : OS.FS) : Result string :=
  match OS.Open filePath fs with
  | Err _ => Err (wrap "failed to open file" (OS.lookup_error filePath fs))
  | Ok file =>
      match OS.ReadAll file fs with
      | Err err => Err (wrap "failed to compute hash" err)
      | Ok data => Ok (Hash.EncodeToString (Hash.Sum512 (list_byte_of_string data)))
      end
  end.

Lemma VerifyHash_own_digest data :
  Hash.VerifyHash data "sha256" (Hash.ComputeSHA256 data) = None /\
  Hash.VerifyHash data "sha512" (Hash.ComputeSHA512 data) = None.
Proof.
  unfold Hash.VerifyHash. cbn [String.eqb Ascii.eqb Bool.eqb]. cbv iota.
  now rewrite !String.eqb_refl.
Qed.

(** X2: the file digests succeed exactly on regular files, and give the
    digest [ComputeSHA256] (or [ComputeSHA512]) gives for the bytes the file
    holds, so that [VerifyHash] accepts those bytes under it; a missing path
    and a directory are errors. *)
Theorem ComputeFileSHA_agrees_with_ComputeSHA (filePath : string) (fs : OS.FS) :
  (forall digest,
      ComputeFileSHA256 filePath fs = Ok digest <->
      exists data, OS.Stat filePath fs = Some (OS.FileNode data) /\
                   digest = Hash.ComputeSHA256 (list_byte_of_string data)) /\
  (forall digest,
      ComputeFileSHA512 filePath fs = Ok digest <->
      exists data, OS.Stat filePath fs = Some (OS.FileNode data) /\
                   digest = Hash.ComputeSHA512 (list_byte_of_string data)) /\
  (forall data, OS.Stat filePath fs = Some (OS.FileNode data) ->
      exists d256 d512,
        ComputeFileSHA256 filePath fs = Ok d256 /\
        ComputeFileSHA512 filePath fs = Ok d512 /\
        Hash.VerifyHash (list_byte_of_string data) "sha256" d256 = None /\
        Hash.VerifyHash (list_byte_of_string data) "sha512" d512 = None).
Proof.
  unfold ComputeFileSHA256, ComputeFileSHA512, OS.Open, OS.ReadAll, OS.Stat.
  destruct (OS.resolve fs filePath) as [p|].
  - destruct (OS.lookup_node (OS.nodes fs) p) as [[|data]|] eqn:Hl;
      cbv beta iota; rewrite ?Hl; cbv beta iota.
    + split; [|split].
      * intros digest. split; [discriminate | intros (data & Hd & _); discriminate].
      * intros digest. split; [discriminate | intros (data & Hd & _); discriminate].
      * intros data Hd. discriminate.
    + split; [|split].
      * intros digest. split.
        -- intros [= <-]. eauto.
        -- intros (data' & [= <-] & ->). reflexivity.
      * intros digest. split.
        -- intros [= <-]. eauto.
        -- intros (data' & [= <-] & ->). reflexivity.
      * intros data' [= <-]. do 2 eexists.
        split; [reflexivity|]. split; [reflexivity|]. apply VerifyHash_own_digest.
    + split; [|split].
      * intros digest. split; [discriminate | intros (data & Hd & _); discriminate].
      * intros digest. split; [discriminate | intros (data & Hd & _); discriminate].
      * intros data Hd. discriminate.
  - split; [|split].
    + intros digest. split; [discriminate | intros (data & Hd & _); discriminate].
    + intros digest. split; [discriminate | intros (data & Hd & _); discriminate].
    + intros data Hd. discriminate.
Qed.

(** [EnsureDir] keeps every node and adds directories only, whatever its
    result *)
Lemma EnsureDir_Stat path fs fs' e :
  EnsureDir path fs = (fs', e) ->
  (forall q n, OS.Stat q fs = Some n -> OS.Stat q fs' = Some n) /\
  (forall q n, OS.Stat q fs' = Some n -> OS.Stat q fs = Some n \/ n = OS.DirNode).
Proof.
  intros H. pose proof (EnsureDir_cwd _ _ _ _ H) as Hcwd.
  unfold OS.Stat. unfold EnsureDir, OS.MkdirAll in H.
  destruct (OS.resolve fs path) as [p|].
  - destruct (OS.mkdirAll (rev p) (OS.nodes fs)) as [m e'] eqn:Hm.
    injection H as <- _. split; intros q n; rewrite OS.resolve_with_nodes;
      destruct (OS.resolve fs q) as [pq|]; try discriminate; cbn [OS.nodes OS.with_nodes].
    + now apply (OS.mkdirAll_preserves _ _ _ _ _ _ Hm).
    + now apply (OS.mkdirAll_adds_dirs _ _ _ _ _ _ Hm).
  - injection H as <- _. split; intros q n; auto.
Qed.

End Utils.

(** ** Package cache: the directory layout (cache.go) *)

Module Cache.

(** What the process reads from its surroundings: the environment
    variables ([os.Getenv] gives the empty string for an unset one),
    [runtime.GOOS], and the results of [os.UserCacheDir] and
    [os.UserHomeDir].  The last two follow from the first two in Go's
    library; they are kept apart here, which only widens the cases.
    [GOOS] selects the fallback directory only: paths are Unix paths
    throughout. *)
Record Env : Type := mkEnv {
  Getenv : string -> string;
  GOOS : string;
  UserCacheDir : Result string;
  UserHomeDir : Result string
}.

(** [getFallbackCacheDir] returns platform-specific fallback cache directories *)
Definition getFallbackCacheDir (env : Env) : Result string :=
  match UserHomeDir env with
  | Err e => Err e
  | Ok homeDir =>
      if String.eqb (GOOS env) "darwin" then
        Ok (Filepath.Join [homeDir; "Library"; "Caches"])
      else if String.eqb (GOOS env) "linux" then
        let xdgCache := Getenv env "XDG_CACHE_HOME" in
        if negb (String.eqb xdgCache "") then Ok xdgCache
        else Ok (Filepath.Join [homeDir; ".cache"])
      else if String.eqb (GOOS env) "windows" then
        let localAppData := Getenv env "LOCALAPPDATA" in
        if negb (String.eqb localAppData "") then Ok localAppData
        else Ok (Filepath.Join [homeDir; "AppData"; "Local"])
      else Ok (Filepath.Join [homeDir; ".cache"])
  end.

(** [GetCacheDir] returns the platform-specific cache directory for skills *)
Definition GetCacheDir (env : Env) : Result string :=
  let cacheDir := Getenv env "SKILLS_CACHE_DIR" in
  if negb (String.eqb cacheDir "") then Ok cacheDir
  else
    match UserCacheDir env with
    | Ok cacheDir => Ok (Filepath.Join [cacheDir; "sleuth-sync"])
    | Err _ =>
        match getFallbackCacheDir env with
        | Ok cacheDir => Ok (Filepath.Join [cacheDir; "sleuth-sync"])
        | Err e => Err (wrap "failed to determine cache directory" e)
        end
    end.

(** [GetArtifactCacheDir] returns the directory for caching artifacts *)
Definition GetArtifactCacheDir (env : Env) : Result string :=
  match GetCacheDir env with
  | Err e => Err e
  | Ok cacheDir => Ok (Filepath.Join [cacheDir; "artifacts"])
  end.

(** [GetGitReposCacheDir] returns the directory for caching git repositories *)
Definition GetGitReposCacheDir (env : Env) : Result string :=
  match GetCacheDir env with
  | Err e => Err e
  | Ok cacheDir => Ok (Filepath.Join [cacheDir; "git-repos"])
  end.

(** [GetLockFileCacheDir] returns the directory for caching lock files *)
Definition GetLockFileCacheDir (env : Env) : Result string :=
  match GetCacheDir env with
  | Err e => Err e
  | Ok cacheDir => Ok (Filepath.Join [cacheDir; "lockfiles"])
  end.

(** the loop of [EnsureCacheDirs] over the directory functions *)
Fixpoint ensure_each (env : Env) (dirs : list (Env -> Result string)) (fs : OS.FS)
  : OS.FS * option error :=
  match dirs with
  | [] => (fs, None)
  | dirFunc :: rest =>
      match dirFunc env with
      | Err e => (fs, Some e)
      | Ok dir =>
          match Utils.EnsureDir dir fs with
          | (fs', Some e) =>
              (fs', Some (wrap ("failed to create cache directory " +:+ dir) e))
          | (fs', None) => ensure_each env rest fs'
          end
      end
  end.

Definition cache_dirs : list (Env -> Result string) :=
  [GetCacheDir; GetArtifactCacheDir; GetGitReposCacheDir; GetLockFileCacheDir].

(** [EnsureCacheDirs] creates all necessary cache directories *)
Definition EnsureCacheDirs (env : Env) (fs : OS.FS) : OS.FS * option error :=
  ensure_each env cache_dirs fs.

(** [GetArtifactCachePath] returns the cache path for a specific artifact *)
Definition GetArtifactCachePath (env : Env) (name version : string) : Result string :=
  match GetArtifactCacheDir env with
  | Err e => Err e
  | Ok artifactCacheDir =>
      let safeName := Filepath.Base (Filepath.Clean name) in
      Ok (Filepath.Join [artifactCacheDir; safeName; version +:+ ".zip"])
  end.

(** [GetGitRepoCachePath] returns the cache path for a git repository *)
Definition GetGitRepoCachePath (env : Env) (repoURL : string) : Result string :=
  match GetGitReposCacheDir env with
  | Err e => Err e
  | Ok gitReposDir =>
      let urlHash := Hash.URLHash repoURL in
      Ok (Filepath.Join [gitReposDir; urlHash])
  end.

(** [ClearArtifactCache] removes cached artifacts for cleanup *)
Definition ClearArtifactCache (env : Env) (fs : OS.FS) : OS.FS * option error :=
  match GetArtifactCacheDir env with
  | Err e => (fs, Some e)
  | Ok artifactCacheDir => OS.RemoveAll artifactCacheDir fs
  end.

(** an environment with only [SKILLS_CACHE_DIR] set *)
Definition env_with_cache_dir (dir : string) : Env :=
  mkEnv (fun k => if String.eqb k "SKILLS_CACHE_DIR" then dir else "")
        "linux" (Err "$HOME is not defined") (Err "$HOME is not defined").

(** *** The artifact path *)

Lemma Join_pair_nonempty a b : b <> "" -> Filepath.Join [a; b] <> "".
Proof.
  intros Hb. simpl. destruct (String.eqb a "").
  - apply String.eqb_neq in Hb. rewrite Hb. apply Filepath.Clean_nonempty.
  - apply Filepath.Clean_nonempty.
Qed.

Lemma GetArtifactCacheDir_nonempty env d : GetArtifactCacheDir env = Ok d -> d <> "".
Proof.
  unfold GetArtifactCacheDir. destruct (GetCacheDir env); [|discriminate].
  intros [= <-]. apply (Join_pair_nonempty a "artifacts"). discriminate.
Qed.

(** under a directory, an empty element and a [.] element give the same path *)
Lemma Clean_dot_or_empty d rest :
  d <> "" ->
  Filepath.Clean (d +:+ "/" +:+ "." +:+ "/" +:+ rest)
  = Filepath.Clean (d +:+ "/" +:+ "" +:+ "/" +:+ rest).
Proof.
  intros Hd. unfold Filepath.Clean.
  rewrite !(Filepath.rooted_app d) by assumption.
  rewrite !Filepath.split_app_sep.
  change (Filepath.split ".") with ["."]. change (Filepath.split "") with [""].
  cbn [app].
  rewrite (Filepath.clean_elems_drop _ _ _ "."), (Filepath.clean_elems_drop _ _ _ "")
    by auto.
  reflexivity.
Qed.

(** C5, as the code has it: the cache path of an artifact is the artifacts
    cache directory joined with the last element of the cleaned name and
    with [{version}.zip]; for a name without a path separator that is the
    directory joined with [{name}/{version}.zip]. *)
Theorem GetArtifactCachePath_layout (env : Env) (name version d : string) :
  GetArtifactCacheDir env = Ok d ->
  GetArtifactCachePath env name version
  = Ok (Filepath.Join [d; Filepath.Base (Filepath.Clean name); version +:+ ".zip"]) /\
  (Filepath.no_sep name = true ->
   GetArtifactCachePath env name version
   = Ok (Filepath.Join [d; name +:+ "/" +:+ version +:+ ".zip"])).
Proof.
  intros Hd. pose proof (GetArtifactCacheDir_nonempty _ _ Hd) as Hne.
  unfold GetArtifactCachePath. rewrite Hd. split; [reflexivity|].
  intros Hname. f_equal.
  rewrite !Filepath.Join_cons_nonempty by assumption.
  rewrite (Filepath.Clean_no_sep name Hname).
  destruct (String.eqb name "") eqn:E1.
  - apply String.eqb_eq in E1. subst name. cbn [orb].
    change (Filepath.Base ".") with ".". cbn [Filepath.join].
    now rewrite Clean_dot_or_empty.
  - destruct (String.eqb name ".") eqn:E2; cbn [orb].
    + apply String.eqb_eq in E2. subst name. reflexivity.
    + apply String.eqb_neq in E1.
      now rewrite (Filepath.Base_no_sep name Hname E1).
Qed.

Lemma GetArtifactCachePath_layout_witness :
  GetArtifactCacheDir (env_with_cache_dir "/c") = Ok "/c/artifacts" /\
  GetArtifactCachePath (env_with_cache_dir "/c") "docs-write" "1.2.3"
  = Ok "/c/artifacts/docs-write/1.2.3.zip".
Proof.
  split; [reflexivity|].
  apply (GetArtifactCachePath_layout (env_with_cache_dir "/c") "docs-write" "1.2.3"
           "/c/artifacts"); reflexivity.
Defined.

(** C5 as stated fails: a name with a separator keeps only its last element *)
Lemma GetArtifactCachePath_drops_leading_elements :
  ~ (forall (env : Env) (name version d : string),
        GetArtifactCacheDir env = Ok d ->
        GetArtifactCachePath env name version
        = Ok (Filepath.Join [d; name +:+ "/" +:+ version +:+ ".zip"])).
Proof.
  intros H.
  specialize (H (env_with_cache_dir "/c") "a/b" "1.0" "/c/artifacts" eq_refl).
  vm_compute in H. discriminate.
Qed.

Example GetArtifactCachePath_nested_name :
  GetArtifactCachePath (env_with_cache_dir "/c") "a/b" "1.0" = Ok "/c/artifacts/b/1.0.zip".
Proof. reflexivity. Qed.

(** *** The git repository path *)

(** C6: the cache path of a repository is the git-repos directory joined with
    [URLHash] of its URL; the hash is a function of the URL alone, sixteen
    lower-case hexadecimal characters, the first sixteen of the SHA-256
    digest of the URL. *)
Theorem GetGitRepoCachePath_keyed_by_URLHash (env : Env) (repoURL d : string) :
  GetGitReposCacheDir env = Ok d ->
  GetGitRepoCachePath env repoURL = Ok (Filepath.Join [d; Hash.URLHash repoURL]) /\
  String.length (Hash.URLHash repoURL) = 16%nat /\
  Hash.string_forall Hash.is_lower_hex (Hash.URLHash repoURL) = true /\
  Hash.URLHash repoURL
  = String.substring 0 16 (Hash.ComputeSHA256 (list_byte_of_string repoURL)) /\
  (forall (env' : Env) (repoURL' : string),
      repoURL' = repoURL -> GetGitReposCacheDir env' = Ok d ->
      Hash.URLHash repoURL' = Hash.URLHash repoURL /\
      GetGitRepoCachePath env' repoURL' = GetGitRepoCachePath env repoURL).
Proof.
  intros Hd. unfold GetGitRepoCachePath. rewrite Hd.
  split; [reflexivity|].
  split; [apply Hash.length_URLHash|].
  split; [apply Hash.URLHash_lower_hex|].
  split; [apply Hash.URLHash_prefix_of_digest|].
  intros env' url' -> Hd'. now rewrite Hd'.
Qed.

Lemma GetGitRepoCachePath_keyed_by_URLHash_witness :
  GetGitReposCacheDir (env_with_cache_dir "/c") = Ok "/c/git-repos" /\
  GetGitRepoCachePath (env_with_cache_dir "/c") "https://github.com/company/agents.git"
  = Ok "/c/git-repos/f88d148eb19eaa5c".
Proof.
  split; [reflexivity|].
  destruct (GetGitRepoCachePath_keyed_by_URLHash (env_with_cache_dir "/c")
              "https://github.com/company/agents.git" "/c/git-repos" eq_refl)
    as [H _].
  rewrite H. vm_compute. reflexivity.
Defined.

(** *** Creating the cache directories *)

(** every directory function succeeds and names a directory of [fs] *)
Definition dirs_exist (env : Env) (dirs : list (Env -> Result string)) (fs : OS.FS) : Prop :=
  Forall (fun dirFunc => exists dir, dirFunc env = Ok dir /\ Utils.IsDirectory dir fs = true)
         dirs.

Lemma ensure_each_preserves env dirs fs fs' e q :
  ensure_each env dirs fs = (fs', e) ->
  Utils.IsDirectory q fs = true -> Utils.IsDirectory q fs' = true.
Proof.
  revert fs. induction dirs as [|f dirs IH]; intros fs H Hq.
  - injection H as <- _. assumption.
  - simpl in H. destruct (f env) as [dir|e0].
    + destruct (Utils.EnsureDir dir fs) as [fs1 [e1|]] eqn:He.
      * injection H as <- _. eapply Utils.EnsureDir_preserves; eassumption.
      * eapply IH; [eassumption|]. eapply Utils.EnsureDir_preserves; eassumption.
    + injection H as <- _. assumption.
Qed.

Lemma ensure_each_ok env dirs fs fs' :
  ensure_each env dirs fs = (fs', None) -> dirs_exist env dirs fs'.
Proof.
  revert fs. induction dirs as [|f dirs IH]; intros fs H.
  - constructor.
  - simpl in H. destruct (f env) as [dir|e0] eqn:Hf; [|discriminate].
    destruct (Utils.EnsureDir dir fs) as [fs1 [e1|]] eqn:He; [discriminate|].
    constructor.
    + exists dir. split; [assumption|].
      eapply ensure_each_preserves; [eassumption|].
      eapply Utils.EnsureDir_ok; eassumption.
    + eapply IH; eassumption.
Qed.

Lemma ensure_each_existing env dirs fs :
  dirs_exist env dirs fs -> ensure_each env dirs fs = (fs, None).
Proof.
  induction 1 as [|f dirs (dir & Hf & Hdir) _ IH]; [reflexivity|].
  simpl. rewrite Hf, (Utils.EnsureDir_existing _ _ Hdir). exact IH.
Qed.

(** C7: when [EnsureCacheDirs] succeeds, calling it again at once succeeds
    too and leaves the file system as it is; the root, artifacts, git-repos
    and lockfiles directories all exist. *)
Theorem EnsureCacheDirs_idempotent (env : Env) (fs fs1 : OS.FS) :
  EnsureCacheDirs env fs = (fs1, None) ->
  EnsureCacheDirs env fs1 = (fs1, None) /\ dirs_exist env cache_dirs fs1.
Proof.
  intros H. apply ensure_each_ok in H. split; [|assumption].
  now apply ensure_each_existing.
Qed.

Definition empty_fs : OS.FS := OS.mkFS [] ∅.

Lemma EnsureCacheDirs_idempotent_witness :
  let fs1 := fst (EnsureCacheDirs (env_with_cache_dir "/c") empty_fs) in
  EnsureCacheDirs (env_with_cache_dir "/c") empty_fs = (fs1, None) /\
  EnsureCacheDirs (env_with_cache_dir "/c") fs1 = (fs1, None).
Proof.
  intros fs1.
  assert (H : EnsureCacheDirs (env_with_cache_dir "/c") empty_fs = (fs1, None))
    by (vm_compute; reflexivity).
  split; [exact H|].
  exact (proj1 (EnsureCacheDirs_idempotent (env_with_cache_dir "/c") empty_fs fs1 H)).
Defined.

(** the first call does create the four directories *)
Example EnsureCacheDirs_creates :
  let fs1 := fst (EnsureCacheDirs (env_with_cache_dir "/c") empty_fs) in
  map (fun d => Utils.IsDirectory d empty_fs)
      ["/c"; "/c/artifacts"; "/c/git-repos"; "/c/lockfiles"]
  = [false; false; false; false] /\
  map (fun d => Utils.IsDirectory d fs1)
      ["/c"; "/c/artifacts"; "/c/git-repos"; "/c/lockfiles"; "/c/other"]
  = [true; true; true; true; false].
Proof. vm_compute. split; reflexivity. Qed.

(** a file in the way makes it fail *)
Example EnsureCacheDirs_blocked :
  snd (EnsureCacheDirs (env_with_cache_dir "/c")
         (OS.mkFS [] {[ ["c"] := OS.FileNode "" ]}))
  = Some "failed to create cache directory /c: not a directory".
Proof. vm_compute. reflexivity. Qed.

(** *** Where the cache directories lie *)

Lemma GetCacheDir_nonempty env d : GetCacheDir env = Ok d -> d <> "".
Proof.
  unfold GetCacheDir.
  destruct (String.eqb (Getenv env "SKILLS_CACHE_DIR") "") eqn:E; cbn [negb].
  - destruct (UserCacheDir env) as [c|].
    + intros [= <-]. apply (Join_pair_nonempty c "sleuth-sync"). discriminate.
    + destruct (getFallbackCacheDir env) as [c|]; [|discriminate].
      intros [= <-]. apply (Join_pair_nonempty c "sleuth-sync"). discriminate.
  - intros [= <-]. now apply String.eqb_neq.
Qed.

(** a proper name joined to the cache directory is a child of it *)
Lemma cache_child env fs d x :
  GetCacheDir env = Ok d -> Filepath.is_name x = true ->
  exists pd, OS.resolve fs d = Some pd /\
             OS.resolve fs (Filepath.Join [d; x]) = Some (pd ++ [x]).
Proof.
  intros Hd Hx. pose proof (GetCacheDir_nonempty _ _ Hd) as Hne.
  destruct (OS.resolve_is_Some fs d Hne) as (pd & Hpd).
  exists pd. split; [assumption|]. now apply OS.resolve_Join_child.
Qed.

(** X7: the artifacts, git-repos and lockfiles directories are three
    different directories directly under the cache directory, wherever
    that one lies. *)
Theorem cache_dirs_are_children (env : Env) (fs : OS.FS) (d : string) :
  GetCacheDir env = Ok d ->
  exists pd a g l,
    OS.resolve fs d = Some pd /\
    GetArtifactCacheDir env = Ok a /\ OS.resolve fs a = Some (pd ++ ["artifacts"]) /\
    GetGitReposCacheDir env = Ok g /\ OS.resolve fs g = Some (pd ++ ["git-repos"]) /\
    GetLockFileCacheDir env = Ok l /\ OS.resolve fs l = Some (pd ++ ["lockfiles"]) /\
    a <> g /\ a <> l /\ g <> l.
Proof.
  intros Hd.
  destruct (cache_child env fs d "artifacts" Hd eq_refl) as (pd & Hpd & Ha).
  destruct (cache_child env fs d "git-repos" Hd eq_refl) as (pd' & Hpd' & Hg).
  destruct (cache_child env fs d "lockfiles" Hd eq_refl) as (pd'' & Hpd'' & Hl).
  assert (pd' = pd) as -> by congruence. assert (pd'' = pd) as -> by congruence.
  exists pd, (Filepath.Join [d; "artifacts"]), (Filepath.Join [d; "git-repos"]),
    (Filepath.Join [d; "lockfiles"]).
  unfold GetArtifactCacheDir, GetGitReposCacheDir, GetLockFileCacheDir. rewrite Hd.
  repeat (split; [assumption || reflexivity|]).
  repeat split; intros E; rewrite E in *;
    match goal with
    | H1 : ?r = Some (pd ++ [?x]), H2 : ?r = Some (pd ++ [?y]) |- _ =>
        rewrite H1 in H2; injection H2 as H2; apply app_inv_head in H2; discriminate
    end.
Qed.

Lemma cache_dirs_are_children_witness :
  exists pd a g l,
    OS.resolve (OS.mkFS ["home"; "u"] ∅) "cache" = Some pd /\
    GetArtifactCacheDir (env_with_cache_dir "cache") = Ok a /\
    OS.resolve (OS.mkFS ["home"; "u"] ∅) a = Some (pd ++ ["artifacts"]) /\
    GetGitReposCacheDir (env_with_cache_dir "cache") = Ok g /\
    OS.resolve (OS.mkFS ["home"; "u"] ∅) g = Some (pd ++ ["git-repos"]) /\
    GetLockFileCacheDir (env_with_cache_dir "cache") = Ok l /\
    OS.resolve (OS.mkFS ["home"; "u"] ∅) l = Some (pd ++ ["lockfiles"]) /\
    a <> g /\ a <> l /\ g <> l.
Proof.
  apply (cache_dirs_are_children (env_with_cache_dir "cache") (OS.mkFS ["home"; "u"] ∅)
           "cache").
  reflexivity.
Defined.

(** *** Where the artifacts lie *)

Lemma app_inv_tail_string (s s' t : string) : s +:+ t = s' +:+ t -> s = s'.
Proof.
  revert s'. induction s as [|c s IH]; intros [|c' s'] H.
  - reflexivity.
  - exfalso. apply (f_equal String.length) in H.
    rewrite app_nil_l, length_app in H. simpl in H. lia.
  - exfalso. apply (f_equal String.length) in H.
    rewrite app_nil_l, length_app in H. simpl in H. lia.
  - rewrite !app_cons in H. injection H as -> H. f_equal. now apply IH.
Qed.

(** the file name of a version is a proper name when the version has no
    separator *)
Lemma zip_is_name version :
  Filepath.no_sep version = true -> Filepath.is_name (version +:+ ".zip") = true.
Proof.
  intros Hv. unfold Filepath.is_name.
  assert (Hlen : String.length (version +:+ ".zip") = (String.length version + 4)%nat)
    by apply length_app.
  assert (H1 : String.eqb (version +:+ ".zip") "" = false).
  { apply String.eqb_neq. intros E. rewrite E in Hlen. simpl in Hlen. lia. }
  assert (H2 : String.eqb (version +:+ ".zip") "." = false).
  { apply String.eqb_neq. intros E. rewrite E in Hlen. simpl in Hlen. lia. }
  assert (H3 : String.eqb (version +:+ ".zip") ".." = false).
  { apply String.eqb_neq. intros E. rewrite E in Hlen. simpl in Hlen. lia. }
  rewrite H1, H2, H3. cbn [negb andb].
  unfold Filepath.no_sep in *. rewrite Hash.string_forall_app, Hv. reflexivity.
Qed.

Lemma Base_Clean_name name :
  Filepath.is_name name = true -> Filepath.Base (Filepath.Clean name) = name.
Proof.
  intros Hn. destruct (Filepath.is_name_inv name Hn) as (H1 & H2 & _ & Hs).
  rewrite (Filepath.Clean_no_sep name Hs).
  apply String.eqb_neq in H1, H2. rewrite H1, H2. cbn [orb].
  apply Filepath.Base_no_sep; [assumption | now apply String.eqb_neq].
Qed.

(** the cache path of a properly named artifact, resolved *)
Lemma artifact_path_resolves env fs d pd name version :
  GetArtifactCacheDir env = Ok d -> OS.resolve fs d = Some pd ->
  Filepath.is_name name = true -> Filepath.no_sep version = true ->
  exists p, GetArtifactCachePath env name version = Ok p /\
            OS.resolve fs p = Some (pd ++ [name; version +:+ ".zip"]).
Proof.
  intros Hd Hpd Hn Hv. pose proof (GetArtifactCacheDir_nonempty _ _ Hd) as Hne.
  unfold GetArtifactCachePath. rewrite Hd, (Base_Clean_name name Hn).
  eexists. split; [reflexivity|].
  rewrite Filepath.Join_cons_nonempty by assumption.
  change (Filepath.join [d; name; version +:+ ".zip"])
    with (d +:+ "/" +:+ name +:+ "/" +:+ version +:+ ".zip").
  rewrite OS.resolve_Clean by (apply app_ne_r; discriminate).
  rewrite <- (app_assoc "/" name), <- (app_assoc d ("/" +:+ name)).
  rewrite (OS.resolve_child fs (d +:+ "/" +:+ name) (version +:+ ".zip") (pd ++ [name])).
  - now rewrite <- List.app_assoc.
  - now apply zip_is_name.
  - now apply OS.resolve_child.
Qed.

(** X8: an artifact with a proper name (one path element, not [.] or
    [..]) and a version without a separator is cached in the file
    [{version}.zip] of the directory [{name}] directly under the artifacts
    directory; and two such artifacts that differ in name or version never
    share a cache path. *)
Theorem GetArtifactCachePath_proper_names
  (env : Env) (fs : OS.FS) (d : string) (pd : list string) (name version : string) :
  GetArtifactCacheDir env = Ok d -> OS.resolve fs d = Some pd ->
  Filepath.is_name name = true -> Filepath.no_sep version = true ->
  (exists p, GetArtifactCachePath env name version = Ok p /\
             OS.resolve fs p = Some (pd ++ [name; version +:+ ".zip"])) /\
  (forall name' version',
      Filepath.is_name name' = true -> Filepath.no_sep version' = true ->
      GetArtifactCachePath env name' version' = GetArtifactCachePath env name version ->
      name' = name /\ version' = version).
Proof.
  intros Hd Hpd Hn Hv. split; [now apply (artifact_path_resolves env fs d)|].
  intros name' version' Hn' Hv' E.
  destruct (artifact_path_resolves env fs d pd name version Hd Hpd Hn Hv) as (p & Hp & Hr).
  destruct (artifact_path_resolves env fs d pd name' version' Hd Hpd Hn' Hv')
    as (p' & Hp' & Hr').
  rewrite Hp, Hp' in E. injection E as ->. rewrite Hr in Hr'.
  injection Hr' as Hr'. apply app_inv_head in Hr'. injection Hr' as -> Hz.
  split; [reflexivity|]. now apply app_inv_tail_string in Hz.
Qed.

Lemma GetArtifactCachePath_proper_names_witness :
  exists p, GetArtifactCachePath (env_with_cache_dir "/c") "docs-write" "1.2.3" = Ok p /\
            OS.resolve (OS.mkFS [] ∅) p = Some (["c"; "artifacts"] ++ ["docs-write"; "1.2.3.zip"]).
Proof.
  apply (GetArtifactCachePath_proper_names (env_with_cache_dir "/c") (OS.mkFS [] ∅)
           "/c/artifacts" ["c"; "artifacts"] "docs-write" "1.2.3");
    vm_compute; reflexivity.
Defined.

(** *** Clearing the artifacts *)

Lemma string_forall_impl (f g : ascii -> bool) s :
  (forall c, f c = true -> g c = true) ->
  Hash.string_forall f s = true -> Hash.string_forall g s = true.
Proof.
  intros Hfg. induction s as [|c s IH]; [reflexivity|]. simpl.
  intros [Hc Hs]%andb_true_iff. now rewrite (Hfg c Hc), IH.
Qed.

(** the hash of a URL is a proper name *)
Lemma URLHash_is_name url : Filepath.is_name (Hash.URLHash url) = true.
Proof.
  pose proof (Hash.length_URLHash url) as Hlen.
  pose proof (Hash.URLHash_lower_hex url) as Hhex.
  unfold Filepath.is_name.
  assert (H1 : String.eqb (Hash.URLHash url) "" = false).
  { apply String.eqb_neq. intros E. rewrite E in Hlen. discriminate. }
  assert (H2 : String.eqb (Hash.URLHash url) "." = false).
  { apply String.eqb_neq. intros E. rewrite E in Hlen. discriminate. }
  assert (H3 : String.eqb (Hash.URLHash url) ".." = false).
  { apply String.eqb_neq. intros E. rewrite E in Hlen. discriminate. }
  rewrite H1, H2, H3. cbn [negb andb].
  unfold Filepath.no_sep. apply (string_forall_impl Hash.is_lower_hex); [|exact Hhex].
  intros c Hc. apply negb_true_iff. unfold Filepath.is_sep. apply Ascii.eqb_neq.
  intros ->. discriminate.
Qed.

Lemma prefix_snoc_neq (pd q : list string) (x y : string) :
  x <> y -> ~ (pd ++ [x]) `prefix_of` (pd ++ y :: q).
Proof.
  intros Hxy [k Hk]. rewrite <- List.app_assoc in Hk. apply app_inv_head in Hk.
  simpl in Hk. congruence.
Qed.

(** X9: [ClearArtifactCache] cannot fail once the cache directory is
    known (failures of permission and of the device are not modelled).
    Afterwards nothing is left at or below the artifacts directory,
    every other node of the file system is as it was (the cached git
    repositories among them), and clearing again changes nothing. *)
Theorem ClearArtifactCache_clears (env : Env) (fs : OS.FS) (d : string) :
  GetCacheDir env = Ok d ->
  exists pd fs',
    OS.resolve fs d = Some pd /\
    ClearArtifactCache env fs = (fs', None) /\
    (forall q, (pd ++ ["artifacts"]) `prefix_of` q ->
               OS.lookup_node (OS.nodes fs') q = None) /\
    (forall q, ~ (pd ++ ["artifacts"]) `prefix_of` q ->
               OS.lookup_node (OS.nodes fs') q = OS.lookup_node (OS.nodes fs) q) /\
    (forall repoURL, exists g,
        GetGitRepoCachePath env repoURL = Ok g /\ OS.Stat g fs' = OS.Stat g fs) /\
    ClearArtifactCache env fs' = (fs', None).
Proof.
  intros Hd. pose proof (GetCacheDir_nonempty _ _ Hd) as Hne.
  destruct (cache_child env fs d "artifacts" Hd eq_refl) as (pd & Hpd & Ha).
  destruct (Filepath.Join_child_suffix d "artifacts" Hne eq_refl) as (pre & Hpre).
  assert (Hdot : OS.endsWithDot (Filepath.Join [d; "artifacts"]) = false)
    by (rewrite Hpre; now apply OS.endsWithDot_name).
  assert (Hja : Filepath.Join [d; "artifacts"] <> "")
    by (apply (Join_pair_nonempty d "artifacts"); discriminate).
  assert (Hnil : pd ++ ["artifacts"] <> []) by (now destruct pd).
  exists pd, (OS.with_nodes fs (OS.remove_below (pd ++ ["artifacts"]) (OS.nodes fs))).
  assert (Hclear : forall fs0, OS.cwd fs0 = OS.cwd fs ->
            ClearArtifactCache env fs0
            = (OS.with_nodes fs0 (OS.remove_below (pd ++ ["artifacts"]) (OS.nodes fs0)), None)).
  { intros fs0 Hcwd. unfold ClearArtifactCache, GetArtifactCacheDir. rewrite Hd.
    apply OS.RemoveAll_below; try assumption.
    unfold OS.resolve in *. now rewrite Hcwd. }
  split; [assumption|]. split; [now apply Hclear|].
  assert (Hin : forall q, (pd ++ ["artifacts"]) `prefix_of` q ->
                 OS.lookup_node (OS.remove_below (pd ++ ["artifacts"]) (OS.nodes fs)) q = None).
  { intros q Hq. rewrite OS.remove_below_lookup by assumption.
    now destruct (decide ((pd ++ ["artifacts"]) `prefix_of` q)). }
  assert (Hout : forall q, ~ (pd ++ ["artifacts"]) `prefix_of` q ->
                 OS.lookup_node (OS.remove_below (pd ++ ["artifacts"]) (OS.nodes fs)) q
                 = OS.lookup_node (OS.nodes fs) q).
  { intros q Hq. rewrite OS.remove_below_lookup by assumption.
    now destruct (decide ((pd ++ ["artifacts"]) `prefix_of` q)). }
  split; [exact Hin|]. split; [exact Hout|]. split.
  - intros repoURL. unfold GetGitRepoCachePath, GetGitReposCacheDir. rewrite Hd.
    eexists. split; [reflexivity|].
    destruct (cache_child env fs d "git-repos" Hd eq_refl) as (pd' & Hpd' & Hg).
    assert (pd' = pd) as -> by congruence.
    pose proof (OS.resolve_Join_child fs _ (Hash.URLHash repoURL) _
                  (URLHash_is_name repoURL) Hg) as Hpg.
    unfold OS.Stat. rewrite OS.resolve_with_nodes, Hpg. cbn [OS.nodes OS.with_nodes].
    apply Hout. rewrite <- List.app_assoc. apply prefix_snoc_neq. discriminate.
  - rewrite Hclear by reflexivity. f_equal. unfold OS.with_nodes. cbn [OS.cwd OS.nodes].
    f_equal. unfold OS.remove_below. apply map_eq. intros q.
    apply option_eq. intros n. rewrite !map_lookup_filter_Some. tauto.
Qed.

(** a cache with one artifact, one git repository and one session file *)
Definition cached_fs : OS.FS :=
  OS.mkFS [] {[ ["c"] := OS.DirNode;
                ["c"; "artifacts"] := OS.DirNode;
                ["c"; "artifacts"; "docs-write"] := OS.DirNode;
                ["c"; "artifacts"; "docs-write"; "1.2.3.zip"] := OS.FileNode "PK";
                ["c"; "git-repos"] := OS.DirNode;
                ["c"; "git-repos"; "f88d148eb19eaa5c"] := OS.DirNode;
                ["c"; "claude-code-sessions"] := OS.FileNode "" ]}.

Lemma ClearArtifactCache_clears_witness :
  exists pd fs',
    OS.resolve cached_fs "/c" = Some pd /\
    ClearArtifactCache (env_with_cache_dir "/c") cached_fs = (fs', None) /\
    (forall q, (pd ++ ["artifacts"]) `prefix_of` q ->
               OS.lookup_node (OS.nodes fs') q = None) /\
    (forall q, ~ (pd ++ ["artifacts"]) `prefix_of` q ->
               OS.lookup_node (OS.nodes fs') q = OS.lookup_node (OS.nodes cached_fs) q) /\
    (forall repoURL, exists g,
        GetGitRepoCachePath (env_with_cache_dir "/c") repoURL = Ok g /\
        OS.Stat g fs' = OS.Stat g cached_fs) /\
    ClearArtifactCache (env_with_cache_dir "/c") fs' = (fs', None).
Proof.
  apply (ClearArtifactCache_clears (env_with_cache_dir "/c") cached_fs "/c").
  reflexivity.
Defined.

Example ClearArtifactCache_example :
  let fs' := fst (ClearArtifactCache (env_with_cache_dir "/c") cached_fs) in
  map (fun p => OS.Stat p fs')
      ["/c"; "/c/artifacts"; "/c/artifacts/docs-write/1.2.3.zip";
       "/c/git-repos/f88d148eb19eaa5c"; "/c/claude-code-sessions"]
  = [Some OS.DirNode; None; None; Some OS.DirNode; Some (OS.FileNode "")].
Proof. vm_compute. reflexivity. Qed.

(** *** The cache directory and its making *)

(** X19: the cache directory.  A non-empty [SKILLS_CACHE_DIR] is used as
    it is; [GetCacheDir] fails exactly when that variable is unset or
    empty and neither the user's cache directory nor the home directory
    can be determined; and a directory it returns is never the empty
    path. *)
Theorem GetCacheDir_outcome (env : Env) :
  (Getenv env "SKILLS_CACHE_DIR" <> "" ->
   GetCacheDir env = Ok (Getenv env "SKILLS_CACHE_DIR")) /\
  (forall e,
      GetCacheDir env = Err e <->
      Getenv env "SKILLS_CACHE_DIR" = "" /\
      (exists e1, UserCacheDir env = Err e1) /\
      exists e2, UserHomeDir env = Err e2 /\
                 e = wrap "failed to determine cache directory" e2) /\
  (forall d, GetCacheDir env = Ok d -> d <> "").
Proof.
  split; [|split].
  - intros H. unfold GetCacheDir. apply String.eqb_neq in H. now rewrite H.
  - intros e. unfold GetCacheDir, getFallbackCacheDir.
    destruct (String.eqb (Getenv env "SKILLS_CACHE_DIR") "") eqn:E; cbn [negb].
    + apply String.eqb_eq in E.
      destruct (UserCacheDir env) as [c|e1].
      * split; [discriminate | now intros (_ & (e1 & [=]) & _)].
      * destruct (UserHomeDir env) as [home|e2].
        -- split; [|now intros (_ & _ & (e2 & [=] & _))].
           destruct (String.eqb (GOOS env) "darwin"); [discriminate|].
           destruct (String.eqb (GOOS env) "linux");
             [destruct (negb (String.eqb (Getenv env "XDG_CACHE_HOME") "")); discriminate|].
           destruct (String.eqb (GOOS env) "windows");
             [destruct (negb (String.eqb (Getenv env "LOCALAPPDATA") "")); discriminate|].
           discriminate.
        -- split.
           ++ intros [= <-]. repeat split; eauto.
           ++ intros (_ & _ & (e2' & [= <-] & ->)). reflexivity.
    + apply String.eqb_neq in E. split; [discriminate | now intros (E' & _)].
  - intros d. apply GetCacheDir_nonempty.
Qed.

(** X20: [EnsureCacheDirs] only adds directories, whatever its result:
    every file and directory that was there is there afterwards, a file
    with the contents it had, and what is new is a directory. *)
Theorem EnsureCacheDirs_only_adds_directories (env : Env) (fs fs' : OS.FS) (e : option error) :
  EnsureCacheDirs env fs = (fs', e) ->
  (forall q n, OS.Stat q fs = Some n -> OS.Stat q fs' = Some n) /\
  (forall q n, OS.Stat q fs' = Some n -> OS.Stat q fs = Some n \/ n = OS.DirNode).
Proof.
  unfold EnsureCacheDirs. generalize cache_dirs. intros dirs. revert fs.
  induction dirs as [|f dirs IH]; intros fs H.
  - injection H as <- _. auto.
  - simpl in H. destruct (f env) as [dir|e0]; [|injection H as <- _; auto].
    destruct (Utils.EnsureDir dir fs) as [fs1 e1] eqn:He.
    destruct (Utils.EnsureDir_Stat _ _ _ _ He) as [Hkeep Hadd].
    destruct e1 as [e1|]; [injection H as <- _; auto|].
    destruct (IH _ H) as [Hkeep' Hadd']. split.
    + intros q n Hq. apply Hkeep', Hkeep, Hq.
    + intros q n Hq. destruct (Hadd' q n Hq) as [Hq1 | ->]; [|now right].
      now apply Hadd.
Qed.

Lemma EnsureCacheDirs_only_adds_directories_witness :
  let fs' := fst (EnsureCacheDirs (env_with_cache_dir "/c/cache") cached_fs) in
  (forall q n, OS.Stat q cached_fs = Some n -> OS.Stat q fs' = Some n) /\
  (forall q n, OS.Stat q fs' = Some n -> OS.Stat q cached_fs = Some n \/ n = OS.DirNode).
Proof.
  intros fs'.
  apply (EnsureCacheDirs_only_adds_directories (env_with_cache_dir "/c/cache") cached_fs fs'
           None).
  vm_compute. reflexivity.
Defined.

End Cache.


(** ** bufio.Scanner with the default split function, [ScanLines] *)

Module Bufio.

Definition newline : ascii := "010"%char.
Definition carriage_return : ascii := "013"%char.

(** the longest line the scanner's buffer can hold is one byte short of
    [MaxScanTokenSize] *)
Definition MaxScanTokenSize : Z := 64 * 1024.

(** The lines of the data: the text between newlines, and a last line
    without newline when it is not empty. *)
Fixpoint raw_lines (data : string) : list string :=
  match data with
  | EmptyString => []
  | String c rest =>
      if Ascii.eqb c newline then EmptyString :: raw_lines rest
      else match raw_lines rest with
           | [] => [String c EmptyString]
           | l :: ls => String c l :: ls
           end
  end.

(** [dropCR] drops a terminal carriage return from the data *)
Fixpoint dropCR (data : string) : string :=
  match data with
  | EmptyString => EmptyString
  | String c EmptyString =>
      if Ascii.eqb c carriage_return then EmptyString else data
  | String c rest => String c (dropCR rest)
  end.

Definition fits (line : string) : bool :=
  Z.of_nat (String.length line) <? MaxScanTokenSize.

(** the lines [Scan] delivers before it stops: at the end of the data, or
    at a line too long for the buffer ([ErrTooLong]) *)
Fixpoint scannable (lines : list string) : list string :=
  match lines with
  | [] => []
  | l :: ls => if fits l then l :: scannable ls else []
  end.

(** the successive values of [scanner.Text()] *)
Definition tokens (data : string) : list string :=
  map dropCR (scannable (raw_lines data)).

Example tokens_table :
  map tokens ["";
              String "a" (String newline "");
              String "a" (String newline (String "b" ""));
              String "a" (String carriage_return (String newline (String newline "")))]
  = [[]; ["a"]; ["a"; "b"]; ["a"; ""]].
Proof. reflexivity. Qed.

(** *** Lines *)

Lemma raw_lines_nil data : raw_lines data = [] -> data = "".
Proof.
  destruct data as [|c rest]; [reflexivity|]. simpl.
  destruct (Ascii.eqb c newline); [discriminate|].
  destruct (raw_lines rest); discriminate.
Qed.

(** the data is empty or ends with a newline *)
Fixpoint terminated (data : string) : bool :=
  match data with
  | EmptyString => true
  | String c EmptyString => Ascii.eqb c newline
  | String _ rest => terminated rest
  end.

(** appending to terminated data adds lines and changes none *)
Lemma raw_lines_app data more :
  terminated data = true -> raw_lines (data +:+ more) = raw_lines data ++ raw_lines more.
Proof.
  induction data as [|c rest IH]; [reflexivity|].
  intros H. rewrite app_cons. cbn [raw_lines].
  destruct rest as [|c' rest'].
  - simpl in H. rewrite H. reflexivity.
  - specialize (IH H). rewrite IH.
    destruct (Ascii.eqb c newline); [reflexivity|].
    destruct (raw_lines (String c' rest')) as [|l ls] eqn:E; [|reflexivity].
    apply raw_lines_nil in E. discriminate.
Qed.

(** the text before the first newline *)
Fixpoint first_line (data : string) : string :=
  match data with
  | EmptyString => EmptyString
  | String c rest =>
      if Ascii.eqb c newline then EmptyString else String c (first_line rest)
  end.

Lemma raw_lines_head data :
  data <> "" -> exists ls, raw_lines data = first_line data :: ls.
Proof.
  induction data as [|c rest IH]; [congruence|]. intros _. simpl.
  destruct (Ascii.eqb c newline); [eauto|].
  destruct (raw_lines rest) as [|l ls] eqn:E.
  - apply raw_lines_nil in E. subst rest. eauto.
  - destruct IH as [ls' IH].
    + intros ->. discriminate.
    + injection IH as -> _. eauto.
Qed.

Lemma length_first_line_app x y :
  (String.length (first_line (x +:+ String newline y)) <= String.length x)%nat.
Proof.
  induction x as [|c x IH].
  - rewrite app_nil_l. simpl. lia.
  - rewrite app_cons. simpl. destruct (Ascii.eqb c newline); simpl; lia.
Qed.

Lemma scannable_app xs ys :
  forallb fits xs = true -> scannable (xs ++ ys) = xs ++ scannable ys.
Proof.
  induction xs as [|x xs IH]; [reflexivity|]. simpl.
  intros [Hx Hxs]%andb_true_iff. now rewrite Hx, IH.
Qed.

(** [scanner.Err()] after the loop: the scan stopped at a line too long for
    the buffer; the end of the data is no error *)
Definition Err_ (data : string) : option error :=
  if forallb fits (raw_lines data) then None
  else Some "bufio.Scanner: token too long".

(** a text without newline *)
Definition one_line (s : string) : bool :=
  Hash.string_forall (fun c => negb (Ascii.eqb c newline)) s.

(** each line followed by a newline *)
Fixpoint unlines (lines : list string) : string :=
  match lines with
  | [] => EmptyString
  | l :: ls => l +:+ String newline (unlines ls)
  end.

Lemma raw_lines_cons_line l rest :
  one_line l = true -> raw_lines (l +:+ String newline rest) = l :: raw_lines rest.
Proof.
  induction l as [|c l IH]; [reflexivity|].
  rewrite app_cons. unfold one_line. cbn [Hash.string_forall].
  intros [Hc Hl]%andb_true_iff. apply negb_true_iff in Hc.
  cbn [raw_lines]. rewrite Hc, (IH Hl). reflexivity.
Qed.

Lemma raw_lines_unlines lines :
  forallb one_line lines = true -> raw_lines (unlines lines) = lines.
Proof.
  induction lines as [|l ls IH]; [reflexivity|]. simpl.
  intros [Hl Hls]%andb_true_iff. now rewrite (raw_lines_cons_line l _ Hl), IH.
Qed.

Lemma terminated_app_newline l rest :
  terminated rest = true -> terminated (l +:+ String newline rest) = true.
Proof.
  intros H. induction l as [|c l IH].
  - rewrite app_nil_l. destruct rest; [reflexivity | exact H].
  - rewrite app_cons. destruct (l +:+ String newline rest) eqn:E; [|exact IH].
    destruct l; discriminate.
Qed.

Lemma terminated_unlines lines : terminated (unlines lines) = true.
Proof.
  induction lines as [|l ls IH]; [reflexivity|]. now apply terminated_app_newline.
Qed.

Lemma raw_lines_one_line data : forallb one_line (raw_lines data) = true.
Proof.
  induction data as [|c rest IH]; [reflexivity|]. simpl.
  destruct (Ascii.eqb c newline) eqn:Hc; [exact IH|].
  destruct (raw_lines rest) as [|l ls].
  - unfold one_line. simpl. now rewrite Hc.
  - simpl in *. apply andb_true_iff in IH as [Hl Hls]. rewrite Hls.
    unfold one_line in *. simpl. now rewrite Hc, Hl.
Qed.

Lemma length_dropCR l : (String.length (dropCR l) <= String.length l)%nat.
Proof.
  induction l as [|c l IH]; [simpl; lia|].
  destruct l as [|c' l'].
  - simpl. destruct (Ascii.eqb c carriage_return); simpl; lia.
  - change (dropCR (String c (String c' l'))) with (String c (dropCR (String c' l'))).
    simpl in *. lia.
Qed.

Lemma fits_dropCR l : fits l = true -> fits (dropCR l) = true.
Proof.
  unfold fits. intros H%Z.ltb_lt. apply Z.ltb_lt.
  pose proof (length_dropCR l). lia.
Qed.

Lemma one_line_dropCR l : one_line l = true -> one_line (dropCR l) = true.
Proof.
  induction l as [|c l IH]; [reflexivity|].
  destruct l as [|c' l'].
  - simpl. destruct (Ascii.eqb c carriage_return); [reflexivity | trivial].
  - change (dropCR (String c (String c' l'))) with (String c (dropCR (String c' l'))).
    unfold one_line in *. cbn [Hash.string_forall].
    intros [Hc Hl]%andb_true_iff. rewrite Hc. now apply IH.
Qed.

Lemma scannable_sublist lines : forall l, In l (scannable lines) -> In l lines /\ fits l = true.
Proof.
  induction lines as [|x xs IH]; [contradiction|]. simpl.
  destruct (fits x) eqn:Hx; [|contradiction].
  intros l [<- | Hl]; [auto|]. destruct (IH l Hl). auto.
Qed.

(** what [Scan] delivered is made of single lines within the limit *)
Lemma tokens_lines data :
  forallb one_line (tokens data) = true /\ forallb fits (tokens data) = true.
Proof.
  unfold tokens. pose proof (raw_lines_one_line data) as Hone.
  rewrite forallb_forall in Hone.
  split; apply forallb_forall; intros l [l0 [<- Hl0]]%in_map_iff;
    destruct (scannable_sublist _ _ Hl0) as [Hin Hfit].
  - apply one_line_dropCR. now apply Hone.
  - now apply fits_dropCR.
Qed.

(** complete lines within the limit are delivered as they are, but for a
    carriage return at their end *)
Lemma tokens_unlines lines :
  forallb one_line lines = true -> forallb fits lines = true ->
  tokens (unlines lines) = map dropCR lines.
Proof.
  intros Hone Hfit. unfold tokens. rewrite (raw_lines_unlines _ Hone).
  f_equal. rewrite <- (List.app_nil_r lines) at 1.
  rewrite (scannable_app _ _ Hfit). simpl. apply List.app_nil_r.
Qed.

End Bufio.

(** ** Package cache: the session file (sessions.go) *)

Module Sessions.

(** [SessionCache] provides fast conversation/session ID tracking; the file
    holds lines [session_id timestamp] *)
Record SessionCache : Type := mkSessionCache { filePath : string }.

(** [NewSessionCache] creates a session cache for the given client ID *)
Definition NewSessionCache (env : Cache.Env) (clientID : string) : Result SessionCache :=
  match Cache.GetCacheDir env with
  | Err e => Err (wrap "failed to get cache dir" e)
  | Ok cacheDir =>
      Ok (mkSessionCache (Filepath.Join [cacheDir; clientID +:+ "-sessions"]))
  end.

(** [strings.SplitN(line, " ", 2)[0]]: the text before the first space, the
    whole line when it has none *)
Fixpoint first_part (line : string) : string :=
  match line with
  | EmptyString => EmptyString
  | String c rest =>
      if Ascii.eqb c " " then EmptyString else String c (first_part rest)
  end.

(** the scanning loop of [HasSession] *)
Fixpoint scan_for (sessionID : string) (lines : list string) : bool :=
  match lines with
  | [] => false
  | line :: rest =>
      if String.eqb (first_part line) sessionID then true
      else scan_for sessionID rest
  end.

(** [HasSession] checks if a session ID has been seen before *)
Definition HasSession (s : SessionCache) (sessionID : string) (fs : OS.FS) : bool :=
  if String.eqb sessionID "" then false
  else
    match OS.Open (filePath s) fs with
    | Err _ => false
    | Ok file =>
        match OS.ReadAll file fs with
        | Err _ => false
        | Ok data => scan_for sessionID (Bufio.tokens data)
        end
    end.

(** the entry [RecordSession] writes; [now] is
    [time.Now().UTC().Format(time.RFC3339)] *)
Definition entry (sessionID now : string) : string :=
  sessionID +:+ " " +:+ now +:+ String Bufio.newline "".

(** [RecordSession] records a session ID with the current timestamp *)
Definition RecordSession (s : SessionCache) (sessionID now : string) (fs : OS.FS)
  : OS.FS * option error :=
  if String.eqb sessionID "" then (fs, None)
  else
    match Utils.EnsureDir (Filepath.Dir (filePath s)) fs with
    | (fs1, Some e) => (fs1, Some (wrap "failed to create cache directory" e))
    | (fs1, None) =>
        match OS.OpenFileAppend (filePath s) fs1 with
        | (fs2, Err e) => (fs2, Some (wrap "failed to open session file" e))
        | (fs2, Ok file) =>
            match OS.WriteString file (entry sessionID now) fs2 with
            | (fs3, Some e) => (fs3, Some (wrap "failed to write session entry" e))
            | (fs3, None) => (fs3, None)
            end
        end
    end.

(** *** What the session file must look like *)

(** a session ID without space and without newline *)
Definition plain (sessionID : string) : bool :=
  Hash.string_forall
    (fun c => negb (Ascii.eqb c " ") && negb (Ascii.eqb c Bufio.newline)) sessionID.

(** data made of complete lines, each within the scanner's limit *)
Definition well_formed (data : string) : bool :=
  Bufio.terminated data && forallb Bufio.fits (Bufio.raw_lines data).

(** the session file is missing, or holds well-formed data *)
Definition session_file_ok (s : SessionCache) (fs : OS.FS) : Prop :=
  forall data, OS.Stat (filePath s) fs = Some (OS.FileNode data) -> well_formed data = true.

Lemma first_part_plain sessionID rest :
  plain sessionID = true -> first_part (sessionID +:+ String " " rest) = sessionID.
Proof.
  induction sessionID as [|c x IH].
  - reflexivity.
  - rewrite app_cons. unfold plain. simpl.
    intros [[Hc _]%andb_true_iff Hx]%andb_true_iff.
    apply negb_true_iff in Hc. rewrite Hc. now rewrite (IH Hx).
Qed.

Lemma first_line_plain sessionID rest :
  plain sessionID = true ->
  Bufio.first_line (sessionID +:+ String " " rest)
  = sessionID +:+ String " " (Bufio.first_line rest).
Proof.
  induction sessionID as [|c x IH].
  - reflexivity.
  - rewrite !app_cons. unfold plain. simpl.
    intros [[_ Hc]%andb_true_iff Hx]%andb_true_iff.
    apply negb_true_iff in Hc. rewrite Hc. now rewrite (IH Hx).
Qed.

(** dropping a carriage return at the end of the line leaves the ID *)
Lemma first_part_dropCR sessionID rest :
  plain sessionID = true ->
  first_part (Bufio.dropCR (sessionID +:+ String " " rest)) = sessionID.
Proof.
  induction sessionID as [|c x IH].
  - intros _. rewrite app_nil_l. destruct rest; reflexivity.
  - rewrite app_cons. unfold plain. simpl Hash.string_forall.
    intros [[Hc _]%andb_true_iff Hx]%andb_true_iff. specialize (IH Hx).
    destruct (x +:+ String " " rest) as [|c' t] eqn:E.
    + destruct x; discriminate.
    + change (Bufio.dropCR (String c (String c' t)))
        with (String c (Bufio.dropCR (String c' t))).
      cbn [first_part]. apply negb_true_iff in Hc. rewrite Hc.
      now rewrite IH.
Qed.

Lemma scan_for_app sessionID xs line ys :
  first_part line = sessionID -> scan_for sessionID (xs ++ line :: ys) = true.
Proof.
  intros H. induction xs as [|x xs IH]; simpl.
  - subst sessionID. now rewrite String.eqb_refl.
  - destruct (String.eqb (first_part x) sessionID); [reflexivity | exact IH].
Qed.

(** scanning well-formed data followed by an entry for a plain ID finds it *)
Lemma scan_for_entry sessionID now data :
  plain sessionID = true ->
  Bufio.fits (sessionID +:+ " " +:+ now) = true ->
  well_formed data = true ->
  scan_for sessionID (Bufio.tokens (data +:+ entry sessionID now)) = true.
Proof.
  intros Hplain Hfits [Hterm Hlines]%andb_true_iff.
  unfold Bufio.tokens. rewrite (Bufio.raw_lines_app _ _ Hterm).
  rewrite (Bufio.scannable_app _ _ Hlines), map_app.
  unfold entry. rewrite app_cons, app_nil_l.
  destruct (Bufio.raw_lines_head (sessionID +:+ String " " (now +:+ String Bufio.newline "")))
    as [ls Hls].
  { destruct sessionID; discriminate. }
  rewrite Hls, (first_line_plain _ _ Hplain). cbn [Bufio.scannable].
  assert (Hfit : Bufio.fits
            (sessionID +:+ String " " (Bufio.first_line (now +:+ String Bufio.newline "")))
          = true).
  { unfold Bufio.fits in *. rewrite app_cons, app_nil_l in Hfits.
    apply Z.ltb_lt. apply Z.ltb_lt in Hfits.
    rewrite length_app in *. cbn [String.length] in *.
    pose proof (Bufio.length_first_line_app now ""). lia. }
  rewrite Hfit. cbn [map]. apply scan_for_app. now apply first_part_dropCR.
Qed.

(** *** What a successful [RecordSession] leaves behind *)

Lemma EnsureDir_keeps_files path fs fs1 e q :
  Utils.EnsureDir path fs = (fs1, e) ->
  forall data,
    OS.Stat q fs = Some (OS.FileNode data) <-> OS.Stat q fs1 = Some (OS.FileNode data).
Proof.
  intros H data. pose proof (Utils.EnsureDir_cwd _ _ _ _ H) as Hcwd.
  unfold OS.Stat. rewrite (Utils.resolve_cwd _ _ _ Hcwd).
  destruct (OS.resolve fs q) as [pq|]; [|tauto].
  unfold Utils.EnsureDir, OS.MkdirAll in H.
  destruct (OS.resolve fs path) as [p|]; [|injection H as <- _; tauto].
  destruct (OS.mkdirAll (rev p) (OS.nodes fs)) as [m e'] eqn:Hm.
  injection H as <- _. simpl. split; intros Hq.
  - eapply OS.mkdirAll_preserves; eassumption.
  - destruct (OS.mkdirAll_adds_dirs _ _ _ _ _ _ Hm Hq); [assumption | discriminate].
Qed.

(** the file then holds what it held, or nothing if it was not there,
    followed by the entry *)
Lemma RecordSession_appends s sessionID now fs fs' :
  sessionID <> "" ->
  RecordSession s sessionID now fs = (fs', None) ->
  exists old,
    OS.Stat (filePath s) fs' = Some (OS.FileNode (old +:+ entry sessionID now)) /\
    (OS.Stat (filePath s) fs = Some (OS.FileNode old) \/
     old = "" /\ forall data, OS.Stat (filePath s) fs <> Some (OS.FileNode data)).
Proof.
  intros Hne H. unfold RecordSession in H.
  apply String.eqb_neq in Hne. rewrite Hne in H.
  destruct (Utils.EnsureDir (Filepath.Dir (filePath s)) fs) as [fs1 [e1|]] eqn:He;
    [discriminate|].
  pose proof (EnsureDir_keeps_files _ _ _ _ (filePath s) He) as Hkeep.
  unfold OS.OpenFileAppend in H. unfold OS.Stat in Hkeep at 2. unfold OS.Stat at 1.
  destruct (OS.resolve fs1 (filePath s)) as [p|] eqn:Hres; [|discriminate].
  assert (Hp : forall m, OS.lookup_node m p = None -> m !! p = None).
  { intros m. destruct p; [discriminate | trivial]. }
  destruct (OS.lookup_node (OS.nodes fs1) p) as [[|old]|] eqn:Hl.
  - discriminate.
  - (* the file exists *)
    unfold OS.WriteString in H.
    assert (Hm : OS.nodes fs1 !! p = Some (OS.FileNode old)).
    { destruct p; [discriminate | exact Hl]. }
    rewrite Hm in H. injection H as <-.
    exists old. split.
    + assert (Hr : OS.resolve (OS.with_nodes fs1 (<[p:=OS.FileNode (old +:+ entry sessionID now)]> (OS.nodes fs1)))
                     (filePath s) = Some p) by exact Hres.
      rewrite Hr. simpl. destruct p; [discriminate|]. apply lookup_insert_eq.
    + left. apply Hkeep. reflexivity.
  - (* the file is created *)
    destruct (OS.lookup_node (OS.nodes fs1) (OS.parent p)) as [[|d]|]; try discriminate.
    unfold OS.WriteString in H. cbn [OS.nodes OS.with_nodes] in H.
    rewrite lookup_insert_eq in H. injection H as <-.
    exists "". split.
    + assert (Hr : OS.resolve
                     (OS.with_nodes (OS.with_nodes fs1 (<[p:=OS.FileNode ""]> (OS.nodes fs1)))
                        (<[p:=OS.FileNode ("" +:+ entry sessionID now)]>
                           (<[p:=OS.FileNode ""]> (OS.nodes fs1))))
                     (filePath s) = Some p) by exact Hres.
      rewrite Hr. simpl. destruct p; [discriminate|]. apply lookup_insert_eq.
    + right. split; [reflexivity|]. intros data Hd. apply Hkeep in Hd. discriminate.
Qed.

Lemma Stat_file_inv name fs data :
  OS.Stat name fs = Some (OS.FileNode data) ->
  exists p, OS.resolve fs name = Some p /\
            OS.lookup_node (OS.nodes fs) p = Some (OS.FileNode data).
Proof.
  unfold OS.Stat. destruct (OS.resolve fs name) as [p|]; [eauto | discriminate].
Qed.

(** C10, as the code has it: for a non-empty session ID without space or
    newline whose entry fits the scanner's buffer, recorded with success in
    a session file that was missing or held complete lines within that
    limit, [HasSession] then returns true; for the empty ID [RecordSession]
    returns nil and leaves the file system as it is, and [HasSession] is
    false. *)
Theorem RecordSession_then_HasSession
  (s : SessionCache) (sessionID now : string) (fs fs' : OS.FS) :
  (sessionID <> "" ->
   plain sessionID = true ->
   Bufio.fits (sessionID +:+ " " +:+ now) = true ->
   session_file_ok s fs ->
   RecordSession s sessionID now fs = (fs', None) ->
   HasSession s sessionID fs' = true) /\
  RecordSession s "" now fs = (fs, None) /\
  HasSession s "" fs = false.
Proof.
  split; [|split; reflexivity].
  intros Hne Hplain Hfits Hok Hrec.
  destruct (RecordSession_appends _ _ _ _ _ Hne Hrec) as (old & Hnew & Hold).
  assert (Hwf : well_formed old = true).
  { destruct Hold as [Hold | [-> _]]; [now apply Hok | reflexivity]. }
  destruct (Stat_file_inv _ _ _ Hnew) as (p & Hres & Hl).
  unfold HasSession. apply String.eqb_neq in Hne. rewrite Hne.
  unfold OS.Open, OS.ReadAll. rewrite Hres, Hl, Hl.
  now apply scan_for_entry.
Qed.

Definition example_cache : SessionCache := mkSessionCache "/c/test-client-sessions".
Definition example_time : string := "2025-12-12T10:30:00Z".

Lemma RecordSession_then_HasSession_witness :
  let fs' := fst (RecordSession example_cache "session-1" example_time Cache.empty_fs) in
  RecordSession example_cache "session-1" example_time Cache.empty_fs = (fs', None) /\
  HasSession example_cache "session-1" fs' = true.
Proof.
  intros fs'.
  assert (H : RecordSession example_cache "session-1" example_time Cache.empty_fs
              = (fs', None)) by (vm_compute; reflexivity).
  split; [exact H|].
  apply (proj1 (RecordSession_then_HasSession example_cache "session-1" example_time
                  Cache.empty_fs fs')).
  - discriminate.
  - reflexivity.
  - reflexivity.
  - intros data Hd. vm_compute in Hd. discriminate.
  - exact H.
Defined.

(** C10 as stated fails: an ID holding a space is recorded, and not found *)
Lemma RecordSession_space_in_id_not_found :
  ~ (forall (s : SessionCache) (sessionID now : string) (fs fs' : OS.FS),
        sessionID <> "" ->
        RecordSession s sessionID now fs = (fs', None) ->
        HasSession s sessionID fs' = true).
Proof.
  intros H.
  specialize (H example_cache "a b" example_time Cache.empty_fs
                (fst (RecordSession example_cache "a b" example_time Cache.empty_fs))).
  assert (Hfalse : HasSession example_cache "a b"
                     (fst (RecordSession example_cache "a b" example_time Cache.empty_fs))
                   = false) by (vm_compute; reflexivity).
  rewrite H in Hfalse; [discriminate | discriminate | vm_compute; reflexivity].
Qed.

(** what the file holds after that call, and what is found in it *)
Example RecordSession_space_in_id_file :
  let fs' := fst (RecordSession example_cache "a b" example_time Cache.empty_fs) in
  OS.Stat "/c/test-client-sessions" fs'
  = Some (OS.FileNode ("a b 2025-12-12T10:30:00Z" +:+ String Bufio.newline "")) /\
  HasSession example_cache "a" fs' = true.
Proof. vm_compute. split; reflexivity. Qed.

(** the conditions on the file are needed too: after a last line without
    newline the entry continues that line *)
Example RecordSession_after_unterminated_line :
  let fs := OS.mkFS [] {[ ["c"] := OS.DirNode;
                          ["c"; "test-client-sessions"] := OS.FileNode "x" ]} in
  let fs' := fst (RecordSession example_cache "session-1" example_time fs) in
  snd (RecordSession example_cache "session-1" example_time fs) = None /\
  HasSession example_cache "session-1" fs' = false /\
  HasSession example_cache "xsession-1" fs' = true.
Proof. vm_compute. repeat split; reflexivity. Qed.

(** the sessions of the repository's own test are found *)
Example RecordSession_three_sessions :
  let fs1 := fst (RecordSession example_cache "session-1" example_time Cache.empty_fs) in
  let fs2 := fst (RecordSession example_cache "session-2" example_time fs1) in
  let fs3 := fst (RecordSession example_cache "session-3" example_time fs2) in
  map (fun id => HasSession example_cache id fs3)
      ["session-1"; "session-2"; "session-3"; "session-4"]
  = [true; true; true; false].
Proof. vm_compute. reflexivity. Qed.

Fixpoint repeat_char (c : ascii) (n : nat) : string :=
  match n with
  | O => EmptyString
  | S n' => String c (repeat_char c n')
  end.

(** and after a line of 65536 characters the scanner gives up before it
    reaches the entry *)
Example RecordSession_after_long_line :
  let long_line := repeat_char "x" (Z.to_nat Bufio.MaxScanTokenSize) in
  let fs := OS.mkFS [] {[ ["c"] := OS.DirNode;
                          ["c"; "test-client-sessions"]
                            := OS.FileNode (long_line +:+ String Bufio.newline "") ]} in
  let fs' := fst (RecordSession example_cache "session-1" example_time fs) in
  snd (RecordSession example_cache "session-1" example_time fs) = None /\
  HasSession example_cache "session-1" fs' = false.
Proof. vm_compute. split; reflexivity. Qed.

(** *** Culling and clearing *)

(** [strings.SplitN(line, " ", 2)[1]]: the text after the first space; the
    line without a space gives one part only *)
Fixpoint second_part (line : string) : option string :=
  match line with
  | EmptyString => None
  | String c rest => if Ascii.eqb c " " then Some rest else second_part rest
  end.

(** [strings.Join] *)
Fixpoint strings_Join (elems : list string) (sep : string) : string :=
  match elems with
  | [] => EmptyString
  | [x] => x
  | x :: rest => x +:+ sep +:+ strings_Join rest sep
  end.

(** [-maxAge] on a [time.Duration], a 64-bit count of nanoseconds: the
    least one is its own negation *)
Definition neg_duration (d : Z) : Z := if d =? - 2 ^ 63 then d else - d.

(** [Clear] removes all session entries *)
Definition Clear (s : SessionCache) (fs : OS.FS) : OS.FS * option error :=
  match OS.Remove (filePath s) fs with
  | (fs', Some err) =>
      if negb (OS.IsNotExist err) then
        (fs', Some (wrap "failed to remove session file" err))
      else (fs', None)
  | (fs', None) => (fs', None)
  end.

(** [FilePath] returns the path to the session cache file *)
Definition FilePath (s : SessionCache) : string := filePath s.

Section Cull.

(** [time.Parse(time.RFC3339, _)] is the library's; the instant a timestamp
    names is counted in nanoseconds, and culling is stated for any such
    function.  [now] is the instant [time.Now()] gives. *)
Variable ParseRFC3339 : string -> option Z.

(** the test of the loop of [CullOldEntries]: the line has a second part,
    that part is a timestamp, and the timestamp is after the cutoff *)
Definition fresh (cutoff : Z) (line : string) : bool :=
  match second_part line with
  | None => false
  | Some ts =>
      match ParseRFC3339 ts with
      | None => false
      | Some timestamp => timestamp >? cutoff
      end
  end.

(** [CullOldEntries] removes entries older than the specified max age *)
Definition CullOldEntries (s : SessionCache) (maxAge now : Z) (fs : OS.FS)
  : OS.FS * option error :=
  match OS.Open (filePath s) fs with
  | Err _ =>
      let err := OS.lookup_error (filePath s) fs in
      if OS.IsNotExist err then (fs, None)
      else (fs, Some (wrap "failed to open session file" err))
  | Ok file =>
      let cutoff := now + neg_duration maxAge in
      match OS.ReadAll file fs with
      | Err err => (fs, Some (wrap "failed to scan session file" err))
      | Ok data =>
          let keepLines := List.filter (fresh cutoff) (Bufio.tokens data) in
          match Bufio.Err_ data with
          | Some err => (fs, Some (wrap "failed to scan session file" err))
          | None =>
              let content := strings_Join keepLines (String Bufio.newline "") in
              let content :=
                if (0 <? length keepLines)%nat then content +:+ String Bufio.newline ""
                else content in
              match OS.WriteFile (filePath s) content fs with
              | (fs', Some err) =>
                  (fs', Some (wrap "failed to write filtered sessions" err))
              | (fs', None) => (fs', None)
              end
          end
      end
  end.

End Cull.

(** *** What [HasSession] looks at *)

Lemma HasSession_Stat s sessionID fs :
  HasSession s sessionID fs
  = match OS.Stat (filePath s) fs with
    | Some (OS.FileNode data) =>
        negb (String.eqb sessionID "") && scan_for sessionID (Bufio.tokens data)
    | _ => false
    end.
Proof.
  unfold HasSession, OS.Open, OS.ReadAll, OS.Stat.
  destruct (String.eqb sessionID "").
  - destruct (OS.resolve fs (filePath s)) as [p|]; [|reflexivity].
    now destruct (OS.lookup_node (OS.nodes fs) p) as [[|data]|].
  - destruct (OS.resolve fs (filePath s)) as [p|]; [|reflexivity].
    destruct (OS.lookup_node (OS.nodes fs) p) as [[|data]|] eqn:Hl;
      cbv beta iota; rewrite ?Hl; reflexivity.
Qed.

Lemma scan_for_exists sessionID lines :
  scan_for sessionID lines = true <->
  exists line, In line lines /\ first_part line = sessionID.
Proof.
  induction lines as [|l ls IH]; simpl.
  - split; [discriminate | now intros (? & [] & _)].
  - destruct (String.eqb (first_part l) sessionID) eqn:E.
    + apply String.eqb_eq in E. split; [eauto | reflexivity].
    + apply String.eqb_neq in E. rewrite IH. split.
      * intros (line & Hin & Hf). eauto.
      * intros (line & [<- | Hin] & Hf); [congruence | eauto].
Qed.

(** a carriage return at the end of a line with a space is after the space *)
Lemma first_part_dropCR_space line ts :
  second_part line = Some ts -> first_part (Bufio.dropCR line) = first_part line.
Proof.
  revert ts. induction line as [|c line IH]; [discriminate|]. intros ts.
  destruct line as [|c' line'].
  - simpl. destruct (Ascii.eqb c " ") eqn:Hc; [|discriminate]. intros _.
    destruct (Ascii.eqb c Bufio.carriage_return) eqn:Hr.
    + apply Ascii.eqb_eq in Hc, Hr. subst c. discriminate.
    + cbn [first_part]. now rewrite Hc.
  - change (Bufio.dropCR (String c (String c' line')))
      with (String c (Bufio.dropCR (String c' line'))).
    cbn [first_part second_part]. destruct (Ascii.eqb c " "); [reflexivity|].
    intros H. f_equal. now apply (IH ts).
Qed.

Lemma strings_Join_unlines lines :
  (if (0 <? length lines)%nat
   then strings_Join lines (String Bufio.newline "") +:+ String Bufio.newline ""
   else strings_Join lines (String Bufio.newline ""))
  = Bufio.unlines lines.
Proof.
  destruct lines as [|l ls]; [reflexivity|].
  change (0 <? length (l :: ls))%nat with true. cbv iota.
  revert l. induction ls as [|l' ls IH]; intros l.
  - reflexivity.
  - change (strings_Join (l :: l' :: ls) (String Bufio.newline ""))
      with (l +:+ String Bufio.newline "" +:+ strings_Join (l' :: ls) (String Bufio.newline "")).
    rewrite !app_assoc, (IH l'). cbn [Bufio.unlines].
    now rewrite app_cons, app_nil_l.
Qed.

Lemma forallb_filter {A} (f g : A -> bool) l :
  forallb f l = true -> forallb f (List.filter g l) = true.
Proof.
  rewrite !forallb_forall. intros H x [Hx _]%filter_In. now apply H.
Qed.

Section CullFacts.

Variable ParseRFC3339 : string -> option Z.

(** what a cull of a regular file whose lines are within the limit writes *)
Lemma CullOldEntries_writes s maxAge now fs p data :
  OS.resolve fs (filePath s) = Some p ->
  OS.lookup_node (OS.nodes fs) p = Some (OS.FileNode data) ->
  forallb Bufio.fits (Bufio.raw_lines data) = true ->
  CullOldEntries ParseRFC3339 s maxAge now fs
  = (OS.with_nodes fs
       (<[p := OS.FileNode
                 (Bufio.unlines
                    (List.filter (fresh ParseRFC3339 (now + neg_duration maxAge))
                       (Bufio.tokens data)))]> (OS.nodes fs)),
     None).
Proof.
  intros Hr Hl Hfit. unfold CullOldEntries, OS.Open, OS.ReadAll, Bufio.Err_.
  rewrite Hr, Hl. cbv beta iota zeta. rewrite Hl, Hfit. cbv beta iota.
  rewrite strings_Join_unlines.
  now rewrite (OS.WriteFile_existing _ _ _ _ _ Hr Hl).
Qed.

(** what [HasSession] finds in a file of kept lines *)
Lemma HasSession_kept s sessionID fs p cutoff data :
  OS.resolve fs (filePath s) = Some p -> p <> [] ->
  HasSession s sessionID
    (OS.with_nodes fs
       (<[p := OS.FileNode
                 (Bufio.unlines (List.filter (fresh ParseRFC3339 cutoff) (Bufio.tokens data)))]>
          (OS.nodes fs))) = true <->
  sessionID <> "" /\
  exists line, In line (Bufio.tokens data) /\ fresh ParseRFC3339 cutoff line = true /\
               first_part line = sessionID.
Proof.
  intros Hr Hp. rewrite HasSession_Stat. unfold OS.Stat.
  rewrite OS.resolve_with_nodes, Hr. cbn [OS.nodes OS.with_nodes].
  rewrite OS.lookup_node_insert by assumption.
  destruct (decide (p = p)) as [_|]; [|congruence].
  destruct (Bufio.tokens_lines data) as [Hone Hfit].
  rewrite Bufio.tokens_unlines by now apply forallb_filter.
  rewrite andb_true_iff, negb_true_iff, scan_for_exists.
  split.
  - intros [Hne (line & [l0 [<- Hl0]]%in_map_iff & Hf)]. apply String.eqb_neq in Hne.
    split; [assumption|]. apply filter_In in Hl0 as [Hin Hfresh].
    exists l0. split; [assumption|]. split; [assumption|].
    unfold fresh in Hfresh. destruct (second_part l0) as [ts|] eqn:Hts; [|discriminate].
    now rewrite (first_part_dropCR_space l0 ts Hts) in Hf.
  - intros [Hne (line & Hin & Hfresh & Hf)]. split; [now apply String.eqb_neq|].
    exists (Bufio.dropCR line). split.
    + apply in_map. apply filter_In. auto.
    + unfold fresh in Hfresh. destruct (second_part line) as [ts|] eqn:Hts; [|discriminate].
      now rewrite (first_part_dropCR_space line ts Hts).
Qed.

(** X10: culling a session file whose lines are within the scanner's limit
    succeeds, and afterwards [HasSession] finds exactly the session IDs of
    the lines that had a timestamp after the cutoff [now - maxAge]; so a
    cull only forgets: what it leaves was found before. *)
Theorem CullOldEntries_keeps_the_fresh
  (s : SessionCache) (maxAge now : Z) (fs : OS.FS) (data : string) :
  OS.Stat (filePath s) fs = Some (OS.FileNode data) ->
  forallb Bufio.fits (Bufio.raw_lines data) = true ->
  exists fs',
    CullOldEntries ParseRFC3339 s maxAge now fs = (fs', None) /\
    (forall sessionID,
        HasSession s sessionID fs' = true <->
        sessionID <> "" /\
        exists line, In line (Bufio.tokens data) /\
                     fresh ParseRFC3339 (now + neg_duration maxAge) line = true /\
                     first_part line = sessionID) /\
    (forall sessionID,
        HasSession s sessionID fs' = true -> HasSession s sessionID fs = true).
Proof.
  intros Hstat Hfit. destruct (Stat_file_inv _ _ _ Hstat) as (p & Hr & Hl).
  pose proof (OS.file_not_root _ _ _ Hl) as Hp.
  eexists. split; [now apply (CullOldEntries_writes s maxAge now fs p data)|].
  split.
  - intros sessionID. now apply HasSession_kept.
  - intros sessionID [Hne (line & Hin & _ & Hf)]%HasSession_kept; [|assumption..].
    rewrite HasSession_Stat, Hstat. apply andb_true_iff. split.
    + apply negb_true_iff. now apply String.eqb_neq.
    + apply scan_for_exists. eauto.
Qed.

(** X11: a cull that fails leaves the file system as it was.  A session
    file with a line too long for the scanner is such a case, whatever the
    age of its entries; and when there is no session file (and the failure
    to open it is "not exist") the cull returns nil and changes nothing. *)
Theorem CullOldEntries_failures (s : SessionCache) (maxAge now : Z) (fs : OS.FS) :
  (forall fs' err,
      CullOldEntries ParseRFC3339 s maxAge now fs = (fs', Some err) -> fs' = fs) /\
  (forall data,
      OS.Stat (filePath s) fs = Some (OS.FileNode data) ->
      forallb Bufio.fits (Bufio.raw_lines data) = false ->
      CullOldEntries ParseRFC3339 s maxAge now fs
      = (fs, Some "failed to scan session file: bufio.Scanner: token too long")) /\
  (OS.Stat (filePath s) fs = None ->
   OS.IsNotExist (OS.lookup_error (filePath s) fs) = true ->
   CullOldEntries ParseRFC3339 s maxAge now fs = (fs, None)).
Proof.
  unfold CullOldEntries, OS.Open, OS.ReadAll, OS.Stat, Bufio.Err_.
  destruct (OS.resolve fs (filePath s)) as [p|] eqn:Hr.
  - destruct (OS.lookup_node (OS.nodes fs) p) as [[|data]|] eqn:Hl;
      cbv beta iota zeta; rewrite ?Hl; cbv beta iota.
    + split; [|split]; [now intros fs' err [= <- _] | discriminate | discriminate].
    + split; [|split]; [| |discriminate].
      * intros fs' err. destruct (forallb Bufio.fits (Bufio.raw_lines data)).
        -- rewrite strings_Join_unlines.
           rewrite (OS.WriteFile_existing _ _ _ _ _ Hr Hl). discriminate.
        -- now intros [= <- _].
      * intros data' [= <-] ->. reflexivity.
    + split; [|split]; [|discriminate|].
      * intros fs' err.
        destruct (OS.IsNotExist (OS.lookup_error (filePath s) fs)); [discriminate|].
        now intros [= <- _].
      * intros _ ->. reflexivity.
  - split; [|split]; [|discriminate|].
    + intros fs' err.
      destruct (OS.IsNotExist (OS.lookup_error (filePath s) fs)); [discriminate|].
      now intros [= <- _].
    + intros _ ->. reflexivity.
Qed.

End CullFacts.

(** X12: [Clear] returns nil on a session file that is a regular file, and
    whenever it returns nil nothing is left at the path of the session
    file, so that [HasSession] is false for every ID; no other path is
    touched. *)
Theorem Clear_forgets_all (s : SessionCache) (fs : OS.FS) :
  (forall data, OS.Stat (filePath s) fs = Some (OS.FileNode data) ->
                exists fs', Clear s fs = (fs', None)) /\
  (forall fs', Clear s fs = (fs', None) ->
     OS.Stat (filePath s) fs' = None /\
     (forall sessionID, HasSession s sessionID fs' = false) /\
     (forall q, OS.resolve fs (filePath s) <> Some q ->
                OS.lookup_node (OS.nodes fs') q = OS.lookup_node (OS.nodes fs) q)).
Proof.
  split.
  - intros data Hstat. destruct (Stat_file_inv _ _ _ Hstat) as (p & Hr & Hl).
    unfold Clear, OS.Remove. rewrite Hr, Hl. eauto.
  - intros fs' H.
    assert (Hgone : OS.Stat (filePath s) fs' = None /\
                    forall q, OS.resolve fs (filePath s) <> Some q ->
                      OS.lookup_node (OS.nodes fs') q = OS.lookup_node (OS.nodes fs) q).
    { unfold Clear, OS.Remove in H. unfold OS.Stat.
      destruct (OS.resolve fs (filePath s)) as [p|] eqn:Hr.
      - destruct (OS.lookup_node (OS.nodes fs) p) as [[|data]|] eqn:Hl.
        + destruct p as [|x p]; [discriminate|].
          destruct (OS.has_children (OS.nodes fs) (x :: p)); [discriminate|].
          injection H as <-. rewrite OS.resolve_with_nodes, Hr. cbn [OS.nodes OS.with_nodes].
          split.
          * rewrite OS.lookup_node_delete by discriminate.
            now destruct (decide (x :: p = x :: p)).
          * intros q Hq. rewrite OS.lookup_node_delete by discriminate.
            destruct (decide (q = x :: p)); [congruence | reflexivity].
        + pose proof (OS.file_not_root _ _ _ Hl) as Hp.
          injection H as <-. rewrite OS.resolve_with_nodes, Hr. cbn [OS.nodes OS.with_nodes].
          split.
          * rewrite OS.lookup_node_delete by assumption.
            now destruct (decide (p = p)).
          * intros q Hq. rewrite OS.lookup_node_delete by assumption.
            destruct (decide (q = p)); [congruence | reflexivity].
        + destruct (OS.IsNotExist (OS.lookup_error (filePath s) fs)); [|discriminate].
          cbn [negb] in H. injection H as <-. rewrite Hr, Hl. auto.
      - change (negb (OS.IsNotExist "no such file or directory")) with false in H.
        cbv iota in H. injection H as <-. rewrite Hr. auto. }
    destruct Hgone as [Hgone Hframe]. split; [assumption|]. split; [|assumption].
    intros sessionID. now rewrite HasSession_Stat, Hgone.
Qed.

(** *** What [RecordSession] changes *)

Lemma EnsureDir_keeps_files_at path fs fs1 e q data :
  Utils.EnsureDir path fs = (fs1, e) ->
  OS.lookup_node (OS.nodes fs) q = Some (OS.FileNode data) <->
  OS.lookup_node (OS.nodes fs1) q = Some (OS.FileNode data).
Proof.
  unfold Utils.EnsureDir, OS.MkdirAll. intros H.
  destruct (OS.resolve fs path) as [p|]; [|injection H as <- _; tauto].
  destruct (OS.mkdirAll (rev p) (OS.nodes fs)) as [m e'] eqn:Hm.
  injection H as <- _. simpl. split; intros Hq.
  - eapply OS.mkdirAll_preserves; eassumption.
  - destruct (OS.mkdirAll_adds_dirs _ _ _ _ _ _ Hm Hq); [assumption | discriminate].
Qed.

(** whatever its result, [RecordSession] leaves the current directory and
    every regular file but the session file as they were *)
Lemma RecordSession_frame s sessionID now fs fs' e :
  RecordSession s sessionID now fs = (fs', e) ->
  OS.cwd fs' = OS.cwd fs /\
  forall q data,
    OS.resolve fs (filePath s) <> Some q ->
    OS.lookup_node (OS.nodes fs) q = Some (OS.FileNode data) <->
    OS.lookup_node (OS.nodes fs') q = Some (OS.FileNode data).
Proof.
  unfold RecordSession. destruct (String.eqb sessionID "").
  { intros [= <- _]. split; [reflexivity | tauto]. }
  destruct (Utils.EnsureDir (Filepath.Dir (filePath s)) fs) as [fs1 e1] eqn:He.
  pose proof (Utils.EnsureDir_cwd _ _ _ _ He) as Hcwd.
  pose proof (fun q data => EnsureDir_keeps_files_at _ _ _ _ q data He) as Hkeep.
  rewrite <- (Utils.resolve_cwd fs fs1 (filePath s) Hcwd).
  destruct e1 as [e1|]; [intros [= <- _]; split; [assumption | intros; apply Hkeep]|].
  unfold OS.OpenFileAppend.
  destruct (OS.resolve fs1 (filePath s)) as [p|] eqn:Hres;
    [|intros [= <- _]; split; [assumption | intros; apply Hkeep]].
  destruct (OS.lookup_node (OS.nodes fs1) p) as [[|old]|] eqn:Hl.
  - intros [= <- _]. split; [assumption | intros; apply Hkeep].
  - pose proof (OS.file_not_root _ _ _ Hl) as Hp.
    unfold OS.WriteString.
    assert (Hm : OS.nodes fs1 !! p = Some (OS.FileNode old))
      by (destruct p; [congruence | exact Hl]).
    rewrite Hm. intros [= <- _]. split; [assumption|].
    intros q data Hq. rewrite Hkeep. cbn [OS.nodes OS.with_nodes].
    rewrite OS.lookup_node_insert by assumption.
    destruct (decide (q = p)); [congruence | tauto].
  - assert (Hp : p <> []) by (intros ->; discriminate).
    destruct (OS.lookup_node (OS.nodes fs1) (OS.parent p)) as [[|d]|];
      try (intros [= <- _]; split; [assumption | intros; apply Hkeep]).
    unfold OS.WriteString. cbn [OS.nodes OS.with_nodes]. rewrite lookup_insert_eq.
    intros [= <- _]. split; [assumption|].
    intros q data Hq. rewrite Hkeep. cbn [OS.nodes OS.with_nodes].
    rewrite !OS.lookup_node_insert by assumption.
    destruct (decide (q = p)); [congruence | tauto].
Qed.

(** a [RecordSession] that fails leaves the session file as it was *)
Lemma RecordSession_error_keeps s sessionID now fs fs' err data :
  RecordSession s sessionID now fs = (fs', Some err) ->
  OS.Stat (filePath s) fs = Some (OS.FileNode data) <->
  OS.Stat (filePath s) fs' = Some (OS.FileNode data).
Proof.
  unfold RecordSession. destruct (String.eqb sessionID ""); [discriminate|].
  destruct (Utils.EnsureDir (Filepath.Dir (filePath s)) fs) as [fs1 e1] eqn:He.
  pose proof (EnsureDir_keeps_files _ _ _ _ (filePath s) He data) as Hkeep.
  destruct e1 as [e1|]; [now intros [= <- _]|].
  unfold OS.OpenFileAppend.
  destruct (OS.resolve fs1 (filePath s)) as [p|] eqn:Hres; [|now intros [= <- _]].
  destruct (OS.lookup_node (OS.nodes fs1) p) as [[|old]|] eqn:Hl.
  - now intros [= <- _].
  - unfold OS.WriteString.
    assert (Hm : OS.nodes fs1 !! p = Some (OS.FileNode old))
      by (destruct p; [discriminate | exact Hl]).
    rewrite Hm. discriminate.
  - destruct (OS.lookup_node (OS.nodes fs1) (OS.parent p)) as [[|d]|];
      try (now intros [= <- _]).
    unfold OS.WriteString. cbn [OS.nodes OS.with_nodes]. rewrite lookup_insert_eq.
    discriminate.
Qed.

Lemma HasSession_same_file s sessionID fs fs' :
  (forall data, OS.Stat (filePath s) fs = Some (OS.FileNode data) <->
                OS.Stat (filePath s) fs' = Some (OS.FileNode data)) ->
  HasSession s sessionID fs' = HasSession s sessionID fs.
Proof.
  intros H. rewrite !HasSession_Stat.
  destruct (OS.Stat (filePath s) fs) as [[|data]|];
    destruct (OS.Stat (filePath s) fs') as [[|data']|]; try reflexivity.
  - pose proof (proj2 (H data') eq_refl). discriminate.
  - pose proof (proj1 (H data) eq_refl). discriminate.
  - pose proof (proj1 (H data) eq_refl) as E. now injection E as ->.
  - pose proof (proj1 (H data) eq_refl). discriminate.
  - pose proof (proj2 (H data') eq_refl). discriminate.
Qed.

(** the session file of a client is a child of the cache directory *)
Lemma NewSessionCache_child env fs clientID s :
  NewSessionCache env clientID = Ok s -> Filepath.no_sep clientID = true ->
  exists d pd, Cache.GetCacheDir env = Ok d /\ OS.resolve fs d = Some pd /\
               OS.resolve fs (filePath s) = Some (pd ++ [clientID +:+ "-sessions"]).
Proof.
  unfold NewSessionCache. destruct (Cache.GetCacheDir env) as [d|] eqn:Hd; [|discriminate].
  intros [= <-] Hc. cbn [filePath].
  assert (Hname : Filepath.is_name (clientID +:+ "-sessions") = true).
  { unfold Filepath.is_name.
    assert (Hlen : String.length (clientID +:+ "-sessions")
                   = (String.length clientID + 9)%nat) by apply length_app.
    assert (H1 : String.eqb (clientID +:+ "-sessions") "" = false).
    { apply String.eqb_neq. intros E. rewrite E in Hlen. simpl in Hlen. lia. }
    assert (H2 : String.eqb (clientID +:+ "-sessions") "." = false).
    { apply String.eqb_neq. intros E. rewrite E in Hlen. simpl in Hlen. lia. }
    assert (H3 : String.eqb (clientID +:+ "-sessions") ".." = false).
    { apply String.eqb_neq. intros E. rewrite E in Hlen. simpl in Hlen. lia. }
    rewrite H1, H2, H3. cbn [negb andb].
    unfold Filepath.no_sep in *. rewrite Hash.string_forall_app, Hc. reflexivity. }
  destruct (Cache.cache_child env fs d _ Hd Hname) as (pd & Hpd & Hr).
  eauto.
Qed.

(** X13: clients do not see each other's sessions.  Two different client
    IDs (without path separator) get different session files, and recording
    a session for the one, whatever the result, changes no answer of
    [HasSession] for the other. *)
Theorem clients_are_independent
  (env : Cache.Env) (client1 client2 : string) (s1 s2 : SessionCache) :
  NewSessionCache env client1 = Ok s1 ->
  NewSessionCache env client2 = Ok s2 ->
  Filepath.no_sep client1 = true -> Filepath.no_sep client2 = true ->
  client1 <> client2 ->
  FilePath s1 <> FilePath s2 /\
  forall sessionID now fs fs' e,
    RecordSession s1 sessionID now fs = (fs', e) ->
    forall sessionID', HasSession s2 sessionID' fs' = HasSession s2 sessionID' fs.
Proof.
  intros H1 H2 Hc1 Hc2 Hne.
  assert (Hdiff : forall fs, OS.resolve fs (filePath s1) <> OS.resolve fs (filePath s2)).
  { intros fs.
    destruct (NewSessionCache_child env fs _ _ H1 Hc1) as (d & pd & Hd & Hpd & Hr1).
    destruct (NewSessionCache_child env fs _ _ H2 Hc2) as (d' & pd' & Hd' & Hpd' & Hr2).
    assert (d' = d) as -> by congruence. assert (pd' = pd) as -> by congruence.
    rewrite Hr1, Hr2. intros [= E%app_inv_head]. injection E as E.
    now apply Cache.app_inv_tail_string in E. }
  split.
  - unfold FilePath. intros E. apply (Hdiff Cache.empty_fs). now rewrite E.
  - intros sessionID now fs fs' e Hrec sessionID'.
    destruct (RecordSession_frame _ _ _ _ _ _ Hrec) as [Hcwd Hframe].
    apply HasSession_same_file. intros data. unfold OS.Stat.
    rewrite (Utils.resolve_cwd fs fs' (filePath s2) Hcwd).
    destruct (OS.resolve fs (filePath s2)) as [q|] eqn:Hq; [|tauto].
    apply Hframe. specialize (Hdiff fs). congruence.
Qed.

Lemma clients_are_independent_witness :
  FilePath (mkSessionCache "/c/client-1-sessions")
  <> FilePath (mkSessionCache "/c/client-2-sessions") /\
  forall sessionID now fs fs' e,
    RecordSession (mkSessionCache "/c/client-1-sessions") sessionID now fs = (fs', e) ->
    forall sessionID',
      HasSession (mkSessionCache "/c/client-2-sessions") sessionID' fs'
      = HasSession (mkSessionCache "/c/client-2-sessions") sessionID' fs.
Proof.
  apply (clients_are_independent (Cache.env_with_cache_dir "/c") "client-1" "client-2");
    try reflexivity.
  discriminate.
Defined.

(** *** The lines of the file after [RecordSession] *)

Lemma terminated_app a b : b <> "" -> Bufio.terminated (a +:+ b) = Bufio.terminated b.
Proof.
  intros Hb. induction a as [|c a IH]; [reflexivity|].
  rewrite app_cons. destruct (a +:+ b) as [|c' t] eqn:E.
  - destruct a; [now rewrite app_nil_l in E | discriminate].
  - exact IH.
Qed.

Lemma terminated_entry sessionID now : Bufio.terminated (entry sessionID now) = true.
Proof.
  unfold entry.
  rewrite (terminated_app sessionID) by (rewrite app_cons, app_nil_l; discriminate).
  rewrite (terminated_app " ") by (destruct now; discriminate).
  rewrite (terminated_app now) by discriminate.
  reflexivity.
Qed.

(** a line of complete lines is shorter than the whole *)
Lemma raw_lines_shorter data :
  Bufio.terminated data = true ->
  forall l, In l (Bufio.raw_lines data) -> (S (String.length l) <= String.length data)%nat.
Proof.
  induction data as [|c rest IH]; [contradiction|].
  intros Hterm l. cbn [Bufio.raw_lines].
  destruct rest as [|c' rest'].
  - simpl in Hterm. rewrite Hterm. simpl. intros [<- | []]. simpl. lia.
  - change (Bufio.terminated (String c (String c' rest')))
      with (Bufio.terminated (String c' rest')) in Hterm.
    specialize (IH Hterm).
    destruct (Ascii.eqb c Bufio.newline).
    + intros [<- | Hl]; [simpl; lia|]. specialize (IH l Hl). simpl in *. lia.
    + destruct (Bufio.raw_lines (String c' rest')) as [|l0 ls] eqn:E.
      * apply Bufio.raw_lines_nil in E. discriminate.
      * intros [<- | Hl].
        -- specialize (IH l0 (or_introl eq_refl)). simpl in *. lia.
        -- specialize (IH l (or_intror Hl)). simpl in *. lia.
Qed.

Lemma length_entry sessionID now :
  String.length (entry sessionID now)
  = S (String.length (sessionID +:+ " " +:+ now)).
Proof.
  unfold entry. rewrite !length_app. simpl. lia.
Qed.

(** the file stays well formed when an entry that fits is appended *)
Lemma well_formed_app_entry old sessionID now :
  well_formed old = true ->
  Bufio.fits (sessionID +:+ " " +:+ now) = true ->
  well_formed (old +:+ entry sessionID now) = true.
Proof.
  intros [Hterm Hfit]%andb_true_iff Hentry. unfold well_formed.
  apply andb_true_iff. split.
  - rewrite terminated_app; [apply terminated_entry|].
    unfold entry. destruct sessionID; discriminate.
  - rewrite (Bufio.raw_lines_app _ _ Hterm), forallb_app, Hfit. cbn [andb].
    apply forallb_forall. intros l Hl.
    pose proof (raw_lines_shorter _ (terminated_entry sessionID now) l Hl) as Hlen.
    rewrite length_entry in Hlen.
    unfold Bufio.fits in *. apply Z.ltb_lt. apply Z.ltb_lt in Hentry. lia.
Qed.

Lemma tokens_app old more :
  well_formed old = true ->
  Bufio.tokens (old +:+ more) = Bufio.tokens old ++ Bufio.tokens more.
Proof.
  intros [Hterm Hfit]%andb_true_iff. unfold Bufio.tokens.
  rewrite (Bufio.raw_lines_app _ _ Hterm), (Bufio.scannable_app _ _ Hfit), map_app.
  f_equal. f_equal. rewrite <- (List.app_nil_r (Bufio.raw_lines old)) at 2.
  now rewrite (Bufio.scannable_app _ _ Hfit), List.app_nil_r.
Qed.

(** X14: recording a session forgets none.  When the session file is
    missing or holds complete lines within the scanner's limit, every
    session ID that [HasSession] found before a successful [RecordSession]
    is found after it. *)
Theorem RecordSession_keeps_sessions
  (s : SessionCache) (sessionID now : string) (fs fs' : OS.FS) :
  session_file_ok s fs ->
  RecordSession s sessionID now fs = (fs', None) ->
  forall earlier, HasSession s earlier fs = true -> HasSession s earlier fs' = true.
Proof.
  intros Hok Hrec earlier Hhas.
  destruct (String.eqb sessionID "") eqn:E.
  - unfold RecordSession in Hrec. rewrite E in Hrec. now injection Hrec as <-.
  - apply String.eqb_neq in E.
    destruct (RecordSession_appends _ _ _ _ _ E Hrec) as (old & Hnew & Hold).
    rewrite HasSession_Stat in *. rewrite Hnew.
    destruct (OS.Stat (filePath s) fs) as [[|data]|] eqn:Hstat; try discriminate.
    destruct Hold as [[= <-] | [_ Hnone]]; [|now destruct (Hnone data)].
    apply andb_true_iff in Hhas as [Hne Hscan]. rewrite Hne. cbn [andb].
    rewrite (tokens_app data _ (Hok data Hstat)).
    apply scan_for_exists in Hscan as (line & Hin & Hf).
    apply scan_for_exists. exists line. split; [|assumption].
    apply in_or_app. now left.
Qed.

Lemma RecordSession_keeps_sessions_witness :
  let fs1 := fst (RecordSession example_cache "session-1" example_time Cache.empty_fs) in
  let fs2 := fst (RecordSession example_cache "session-2" example_time fs1) in
  HasSession example_cache "session-1" fs1 = true /\
  HasSession example_cache "session-1" fs2 = true.
Proof.
  intros fs1 fs2.
  assert (H1 : HasSession example_cache "session-1" fs1 = true) by (vm_compute; reflexivity).
  split; [exact H1|].
  apply (RecordSession_keeps_sessions example_cache "session-2" example_time fs1 fs2).
  - intros data Hd. vm_compute in Hd. injection Hd as <-. vm_compute. reflexivity.
  - vm_compute. reflexivity.
  - exact H1.
Defined.

Section MoreCullFacts.

Variable ParseRFC3339 : string -> option Z.

Lemma CullOldEntries_cases s maxAge now fs fs' e :
  CullOldEntries ParseRFC3339 s maxAge now fs = (fs', e) ->
  fs' = fs \/
  e = None /\
  exists p data,
    OS.resolve fs (filePath s) = Some p /\
    OS.lookup_node (OS.nodes fs) p = Some (OS.FileNode data) /\
    fs' = OS.with_nodes fs
            (<[p := OS.FileNode
                      (Bufio.unlines
                         (List.filter (fresh ParseRFC3339 (now + neg_duration maxAge))
                            (Bufio.tokens data)))]> (OS.nodes fs)).
Proof.
  destruct (OS.Stat (filePath s) fs) as [[|data]|] eqn:Hstat.
  - unfold CullOldEntries, OS.Open, OS.ReadAll. unfold OS.Stat in Hstat.
    destruct (OS.resolve fs (filePath s)) as [p|]; [|discriminate].
    rewrite Hstat. cbv beta iota zeta. rewrite Hstat. intros [= <- _]. now left.
  - destruct (Stat_file_inv _ _ _ Hstat) as (p & Hr & Hl).
    destruct (forallb Bufio.fits (Bufio.raw_lines data)) eqn:Hfit.
    + rewrite (CullOldEntries_writes ParseRFC3339 s maxAge now fs p data Hr Hl Hfit).
      intros [= <- <-]. right. split; [reflexivity|]. eauto.
    + unfold CullOldEntries, OS.Open, OS.ReadAll, Bufio.Err_.
      rewrite Hr, Hl. cbv beta iota zeta. rewrite Hl, Hfit. intros [= <- _]. now left.
  - unfold CullOldEntries, OS.Open. unfold OS.Stat in Hstat.
    destruct (OS.resolve fs (filePath s)) as [p|].
    + rewrite Hstat.
      destruct (OS.IsNotExist (OS.lookup_error (filePath s) fs)); intros [= <- _]; now left.
    + destruct (OS.IsNotExist (OS.lookup_error (filePath s) fs)); intros [= <- _]; now left.
Qed.

Lemma Clear_cases s fs fs' e :
  Clear s fs = (fs', e) -> fs' = fs \/ OS.Stat (filePath s) fs' = None.
Proof.
  unfold Clear, OS.Remove, OS.Stat.
  destruct (OS.resolve fs (filePath s)) as [p|] eqn:Hr.
  - destruct (OS.lookup_node (OS.nodes fs) p) as [[|data]|] eqn:Hl.
    + destruct p as [|x p]; [intros [= <- _]; now left|].
      destruct (OS.has_children (OS.nodes fs) (x :: p)); [intros [= <- _]; now left|].
      intros [= <- _]. right. rewrite OS.resolve_with_nodes, Hr. cbn [OS.nodes OS.with_nodes].
      rewrite OS.lookup_node_delete by discriminate. now destruct (decide (x :: p = x :: p)).
    + pose proof (OS.file_not_root _ _ _ Hl) as Hp.
      intros [= <- _]. right. rewrite OS.resolve_with_nodes, Hr. cbn [OS.nodes OS.with_nodes].
      rewrite OS.lookup_node_delete by assumption. now destruct (decide (p = p)).
    + destruct (negb (OS.IsNotExist (OS.lookup_error (filePath s) fs)));
        intros [= <- _]; now left.
  - destruct (negb (OS.IsNotExist "no such file or directory")); intros [= <- _]; now left.
Qed.

(** X15: that the session file is missing or holds complete lines within
    the scanner's limit is kept by every operation on it, whatever the
    result: by [RecordSession] of an entry within the limit, by
    [CullOldEntries] and by [Clear]. *)
Theorem session_file_ok_preserved (s : SessionCache) (fs : OS.FS) :
  session_file_ok s fs ->
  (forall sessionID now fs' e,
      Bufio.fits (sessionID +:+ " " +:+ now) = true ->
      RecordSession s sessionID now fs = (fs', e) -> session_file_ok s fs') /\
  (forall maxAge now fs' e,
      CullOldEntries ParseRFC3339 s maxAge now fs = (fs', e) -> session_file_ok s fs') /\
  (forall fs' e, Clear s fs = (fs', e) -> session_file_ok s fs').
Proof.
  intros Hok. split; [|split].
  - intros sessionID now fs' [err|] Hfit Hrec data Hdata.
    + apply Hok. now apply (RecordSession_error_keeps _ _ _ _ _ _ data Hrec).
    + destruct (String.eqb sessionID "") eqn:E.
      * unfold RecordSession in Hrec. rewrite E in Hrec. injection Hrec as <-.
        now apply Hok.
      * apply String.eqb_neq in E.
        destruct (RecordSession_appends _ _ _ _ _ E Hrec) as (old & Hnew & Hold).
        rewrite Hnew in Hdata. injection Hdata as <-.
        apply well_formed_app_entry; [|assumption].
        destruct Hold as [Hold | [-> _]]; [now apply Hok | reflexivity].
  - intros maxAge now fs' e Hcull data Hdata.
    destruct (CullOldEntries_cases _ _ _ _ _ _ Hcull)
      as [-> | (_ & p & data0 & Hr & Hl & ->)]; [now apply Hok|].
    pose proof (OS.file_not_root _ _ _ Hl) as Hp.
    unfold OS.Stat in Hdata. rewrite OS.resolve_with_nodes, Hr in Hdata.
    cbn [OS.nodes OS.with_nodes] in Hdata.
    rewrite OS.lookup_node_insert in Hdata by assumption.
    destruct (decide (p = p)); [|congruence]. injection Hdata as <-.
    destruct (Bufio.tokens_lines data0) as [Hone Hfit].
    unfold well_formed. rewrite Bufio.terminated_unlines. cbn [andb].
    rewrite Bufio.raw_lines_unlines by now apply forallb_filter.
    now apply forallb_filter.
  - intros fs' e Hclear data Hdata.
    destruct (Clear_cases _ _ _ _ Hclear) as [-> | Hgone]; [now apply Hok | congruence].
Qed.

(** *** Recording, then culling *)

Lemma plain_one_line sessionID : plain sessionID = true -> Bufio.one_line sessionID = true.
Proof.
  apply Cache.string_forall_impl. intros c [_ H]%andb_true_iff. exact H.
Qed.

(** the entry is delivered as one line *)
Lemma tokens_entry sessionID now :
  plain sessionID = true -> Bufio.one_line now = true ->
  Bufio.fits (sessionID +:+ " " +:+ now) = true ->
  Bufio.tokens (entry sessionID now) = [Bufio.dropCR (sessionID +:+ " " +:+ now)].
Proof.
  intros Hplain Hnow Hfit. unfold Bufio.tokens, entry.
  replace (sessionID +:+ " " +:+ now +:+ String Bufio.newline "")
    with ((sessionID +:+ " " +:+ now) +:+ String Bufio.newline "")
    by (now rewrite (app_assoc sessionID), (app_assoc " ")).
  rewrite Bufio.raw_lines_cons_line.
  - cbn [Bufio.raw_lines Bufio.scannable]. now rewrite Hfit.
  - pose proof (plain_one_line _ Hplain) as Hid.
    unfold Bufio.one_line in *.
    rewrite (Hash.string_forall_app _ sessionID), (Hash.string_forall_app _ " ").
    rewrite Hid, Hnow. reflexivity.
Qed.

Lemma second_part_dropCR sessionID rest :
  plain sessionID = true ->
  second_part (Bufio.dropCR (sessionID +:+ String " " rest)) = Some (Bufio.dropCR rest).
Proof.
  induction sessionID as [|c x IH].
  - intros _. rewrite app_nil_l. destruct rest; reflexivity.
  - rewrite app_cons. unfold plain. simpl Hash.string_forall.
    intros [[Hc _]%andb_true_iff Hx]%andb_true_iff. specialize (IH Hx).
    destruct (x +:+ String " " rest) as [|c' t] eqn:E.
    + destruct x; discriminate.
    + change (Bufio.dropCR (String c (String c' t)))
        with (String c (Bufio.dropCR (String c' t))).
      cbn [second_part]. apply negb_true_iff in Hc. now rewrite Hc.
Qed.

(** X16: a session that was just recorded survives a cull.  For a
    non-empty session ID without space or newline, recorded with success in
    a well-formed session file with a timestamp that [time.Parse] reads as
    an instant after the cutoff, a cull then succeeds and [HasSession]
    still finds the ID. *)
Theorem recorded_session_survives_cull
  (s : SessionCache) (sessionID timestamp : string) (instant maxAge now : Z)
  (fs fs1 : OS.FS) :
  sessionID <> "" ->
  plain sessionID = true ->
  Bufio.one_line timestamp = true ->
  Bufio.fits (sessionID +:+ " " +:+ timestamp) = true ->
  session_file_ok s fs ->
  RecordSession s sessionID timestamp fs = (fs1, None) ->
  ParseRFC3339 (Bufio.dropCR timestamp) = Some instant ->
  instant > now + neg_duration maxAge ->
  exists fs2,
    CullOldEntries ParseRFC3339 s maxAge now fs1 = (fs2, None) /\
    HasSession s sessionID fs2 = true.
Proof.
  intros Hne Hplain Hts Hfit Hok Hrec Hparse Hafter.
  destruct (RecordSession_appends _ _ _ _ _ Hne Hrec) as (old & Hnew & Hold).
  assert (Hwf : well_formed old = true).
  { destruct Hold as [Hold | [-> _]]; [now apply Hok | reflexivity]. }
  pose proof (well_formed_app_entry old sessionID timestamp Hwf Hfit) as Hwf'.
  apply andb_true_iff in Hwf' as [_ Hfits].
  destruct (Stat_file_inv _ _ _ Hnew) as (p & Hr & Hl).
  pose proof (OS.file_not_root _ _ _ Hl) as Hp.
  eexists. split; [now apply (CullOldEntries_writes ParseRFC3339 s maxAge now fs1 p _ Hr Hl)|].
  apply (HasSession_kept ParseRFC3339); [assumption..|].
  split; [assumption|].
  exists (Bufio.dropCR (sessionID +:+ " " +:+ timestamp)). split; [|split].
  - rewrite (tokens_app old _ Hwf), (tokens_entry _ _ Hplain Hts Hfit).
    apply in_or_app. right. now left.
  - unfold fresh. rewrite app_cons, app_nil_l.
    rewrite (second_part_dropCR _ _ Hplain), Hparse. now apply Z.gtb_gt.
  - rewrite app_cons, app_nil_l. now apply first_part_dropCR.
Qed.

End MoreCullFacts.

(** *** A reader of the timestamps [RecordSession] writes, for the examples *)

Fixpoint number (s : string) (acc : Z) : option Z :=
  match s with
  | EmptyString => Some acc
  | String c rest =>
      let n := Z.of_N (N_of_ascii c) in
      if (48 <=? n) && (n <=? 57) then number rest (10 * acc + (n - 48)) else None
  end.

(** the days from 1970-01-01 to a day of the Gregorian calendar *)
Definition days_from_civil (y m d : Z) : Z :=
  let y' := if m <=? 2 then y - 1 else y in
  let era := y' / 400 in
  let yoe := y' - era * 400 in
  let mp := (m + 9) mod 12 in
  let doy := (153 * mp + 2) / 5 + d - 1 in
  let doe := yoe * 365 + yoe / 4 - yoe / 100 + doy in
  era * 146097 + doe - 719468.

Definition char_at (s : string) (i : nat) (c : ascii) : bool :=
  match String.get i s with
  | Some c' => Ascii.eqb c c'
  | None => false
  end.

(** the instant, in nanoseconds since 1970, of a timestamp of the form
    [2006-01-02T15:04:05Z] *)
Definition parse_utc (ts : string) : option Z :=
  if (String.length ts =? 20)%nat && char_at ts 4 "-" && char_at ts 7 "-"
     && char_at ts 10 "T" && char_at ts 13 ":" && char_at ts 16 ":" && char_at ts 19 "Z"
  then
    match number (String.substring 0 4 ts) 0, number (String.substring 5 2 ts) 0,
          number (String.substring 8 2 ts) 0, number (String.substring 11 2 ts) 0,
          number (String.substring 14 2 ts) 0, number (String.substring 17 2 ts) 0 with
    | Some y, Some mo, Some d, Some h, Some mi, Some sec =>
        if (1 <=? mo) && (mo <=? 12) && (1 <=? d) && (d <=? 31)
           && (h <? 24) && (mi <? 60) && (sec <? 60)
        then Some ((((days_from_civil y mo d * 24 + h) * 60 + mi) * 60 + sec) * 1000000000)
        else None
    | _, _, _, _, _, _ => None
    end
  else None.

Example parse_utc_table :
  map parse_utc ["1970-01-01T00:00:00Z"; "2025-12-12T10:30:00Z"; "2025-12-02T10:30:00Z";
                 "2025-12-12 10:30:00Z"; "yesterday"; ""]
  = [Some 0; Some 1765535400000000000; Some 1764671400000000000; None; None; None].
Proof. vm_compute. reflexivity. Qed.

(** the session file of the repository's test of culling: one entry ten
    days old and one of this moment *)
Definition culled_fs : OS.FS :=
  OS.mkFS [] {[ ["c"] := OS.DirNode;
                ["c"; "test-client-sessions"]
                  := OS.FileNode ("old-session 2025-12-02T10:30:00Z" +:+ String Bufio.newline ""
                                  +:+ "new-session 2025-12-12T10:30:00Z"
                                  +:+ String Bufio.newline "") ]}.

Definition five_days : Z := 5 * 24 * 3600 * 1000000000.
Definition example_now : Z := 1765535400000000000.

Example CullOldEntries_test :
  let '(fs', result) := CullOldEntries parse_utc example_cache five_days example_now culled_fs in
  result = None /\
  map (fun id => HasSession example_cache id fs') ["old-session"; "new-session"]
  = [false; true] /\
  OS.Stat "/c/test-client-sessions" fs'
  = Some (OS.FileNode ("new-session 2025-12-12T10:30:00Z" +:+ String Bufio.newline "")).
Proof. vm_compute. repeat split; reflexivity. Qed.

Lemma CullOldEntries_keeps_the_fresh_witness :
  exists fs',
    CullOldEntries parse_utc example_cache five_days example_now culled_fs = (fs', None) /\
    HasSession example_cache "new-session" fs' = true /\
    HasSession example_cache "old-session" fs' = false.
Proof.
  destruct (CullOldEntries_keeps_the_fresh parse_utc example_cache five_days example_now
              culled_fs
              ("old-session 2025-12-02T10:30:00Z" +:+ String Bufio.newline ""
               +:+ "new-session 2025-12-12T10:30:00Z" +:+ String Bufio.newline ""))
    as (fs' & Hcull & Hhas & _).
  - vm_compute. reflexivity.
  - vm_compute. reflexivity.
  - exists fs'. split; [exact Hcull|]. split.
    + apply Hhas. split; [discriminate|].
      exists "new-session 2025-12-12T10:30:00Z". vm_compute. auto.
    + destruct (HasSession example_cache "old-session" fs') eqn:E; [|reflexivity].
      apply Hhas in E as [_ (line & Hin & Hfresh & Hfirst)].
      vm_compute in Hin. destruct Hin as [<- | [<- | []]].
      * vm_compute in Hfresh. discriminate.
      * vm_compute in Hfirst. discriminate.
Defined.

Lemma session_file_ok_preserved_witness :
  session_file_ok example_cache
    (fst (RecordSession example_cache "session-1" example_time Cache.empty_fs)).
Proof.
  assert (Hok : session_file_ok example_cache Cache.empty_fs)
    by (intros data Hd; vm_compute in Hd; discriminate).
  apply (proj1 (session_file_ok_preserved parse_utc example_cache Cache.empty_fs Hok)
           "session-1" example_time _ None).
  - vm_compute. reflexivity.
  - vm_compute. reflexivity.
Defined.

Lemma recorded_session_survives_cull_witness :
  let fs1 := fst (RecordSession example_cache "session-1" "2025-12-12T10:30:00Z"
                    Cache.empty_fs) in
  exists fs2,
    CullOldEntries parse_utc example_cache five_days example_now fs1 = (fs2, None) /\
    HasSession example_cache "session-1" fs2 = true.
Proof.
  intros fs1.
  apply (recorded_session_survives_cull parse_utc example_cache "session-1"
           "2025-12-12T10:30:00Z" 1765535400000000000 five_days example_now
           Cache.empty_fs fs1).
  - discriminate.
  - vm_compute. reflexivity.
  - vm_compute. reflexivity.
  - vm_compute. reflexivity.
  - intros data Hd. vm_compute in Hd. discriminate.
  - vm_compute. reflexivity.
  - vm_compute. reflexivity.
  - vm_compute. reflexivity.
Defined.

Example Clear_test :
  let fs1 := fst (RecordSession example_cache "session-1" example_time Cache.empty_fs) in
  let '(fs2, result) := Clear example_cache fs1 in
  result = None /\ HasSession example_cache "session-1" fs2 = false /\
  Clear example_cache fs2 = (fs2, None).
Proof. vm_compute. repeat split; reflexivity. Qed.

End Sessions.


(** ** Package handlers: the agent handler *)

Module Handlers.

(** the fields of [metadata.Metadata] the agent handler reads *)
Record ArtifactInfo : Type := mkArtifactInfo {
  Name : string;
  Type_ : string
}.

Record AgentConfig : Type := mkAgentConfig { PromptFile : string }.

Record Metadata : Type := mkMetadata {
  Artifact : ArtifactInfo;
  Agent : option AgentConfig
}.

(** [AgentHandler] handles agent artifact installation *)
Record AgentHandler : Type := NewAgentHandler { metadata : Metadata }.

(** [GetInstallPath] returns the installation path relative to targetBase *)
Definition GetInstallPath (h : AgentHandler) : string :=
  Filepath.Join ["agents"; Name (Artifact (metadata h))].

(** [Remove] uninstalls the agent artifact *)
Definition Remove (h : AgentHandler) (targetBase : string) (fs : OS.FS)
  : OS.FS * option error :=
  let installPath := Filepath.Join [targetBase; GetInstallPath h] in
  if negb (Utils.IsDirectory installPath fs) then
    (* Already removed or never installed *)
    (fs, None)
  else
    match OS.RemoveAll installPath fs with
    | (fs', Some err) => (fs', Some (wrap "failed to remove agent" err))
    | (fs', None) => (fs', None)
    end.

Section Zip.

(** The zip and metadata helpers are not among the sources ([utils.ListZipFiles],
    [utils.ReadZipFile], [utils.ExtractZip], [metadata.Parse],
    [Metadata.ValidateWithFiles], [containsFile]); the handler is stated for
    any such functions.  The first five read the bytes in memory only; the
    extraction acts on the file system. *)
Variable ListZipFiles : list byte -> Result (list string).
Variable ReadZipFile : list byte -> string -> Result (list byte).
Variable Parse : list byte -> Result Metadata.
Variable ValidateWithFiles : Metadata -> list string -> option error.
Variable containsFile : list string -> string -> bool.
Variable ExtractZip : list byte -> string -> OS.FS -> OS.FS * option error.

(** [Validate] checks if the zip structure is valid for an agent artifact *)
Definition Validate (h : AgentHandler) (zipData : list byte) : option error :=
  match ListZipFiles zipData with
  | Err err => Some (wrap "failed to list zip files" err)
  | Ok files =>
      if negb (containsFile files "metadata.toml") then
        Some "metadata.toml not found in zip"
      else
        match ReadZipFile zipData "metadata.toml" with
        | Err err => Some (wrap "failed to read metadata.toml" err)
        | Ok metadataBytes =>
            match Parse metadataBytes with
            | Err err => Some (wrap "failed to parse metadata" err)
            | Ok meta =>
                match ValidateWithFiles meta files with
                | Some err => Some (wrap "metadata validation failed" err)
                | None =>
                    if negb (String.eqb (Type_ (Artifact meta)) "agent") then
                      Some ("artifact type mismatch: expected agent, got "
                              +:+ Type_ (Artifact meta))
                    else
                      match Agent meta with
                      | None => Some "[agent] section missing in metadata"
                      | Some agent =>
                          if negb (containsFile files (PromptFile agent)) then
                            Some ("prompt file not found in zip: " +:+ PromptFile agent)
                          else None
                      end
                end
            end
        end
  end.

(** [Install] extracts and installs the agent artifact *)
Definition Install (h : AgentHandler) (zipData : list byte) (targetBase : string)
  (fs : OS.FS) : OS.FS * option error :=
  (* Validate zip structure *)
  match Validate h zipData with
  | Some err => (fs, Some (wrap "validation failed" err))
  | None =>
      (* Determine installation path *)
      let installPath := Filepath.Join [targetBase; GetInstallPath h] in
      (* Remove existing installation if present *)
      let removed :=
        if Utils.IsDirectory installPath fs then
          match OS.RemoveAll installPath fs with
          | (fs1, Some err) =>
              (fs1, Some (wrap "failed to remove existing installation" err))
          | (fs1, None) => (fs1, None)
          end
        else (fs, None) in
      match removed with
      | (fs1, Some err) => (fs1, Some err)
      | (fs1, None) =>
          (* Create installation directory *)
          match Utils.EnsureDir installPath fs1 with
          | (fs2, Some err) =>
              (fs2, Some (wrap "failed to create installation directory" err))
          | (fs2, None) =>
              (* Extract zip to installation directory *)
              match ExtractZip zipData installPath fs2 with
              | (fs3, Some err) => (fs3, Some (wrap "failed to extract zip" err))
              | (fs3, None) => (fs3, None)
              end
          end
      end
  end.

(** C4: [Install] validates the payload before it touches the file system:
    when [Validate] fails, [Install] returns the validation error, wrapped,
    and the file system (the target base directory with it) is as it was;
    an [Install] that changed the file system had a valid payload. *)
Theorem Install_validates_first
  (h : AgentHandler) (zipData : list byte) (targetBase : string) (fs : OS.FS) :
  (forall err, Validate h zipData = Some err ->
               Install h zipData targetBase fs = (fs, Some (wrap "validation failed" err))) /\
  (forall fs' result, Install h zipData targetBase fs = (fs', result) ->
                      fs' <> fs -> Validate h zipData = None).
Proof.
  split.
  - intros err Hv. unfold Install. now rewrite Hv.
  - intros fs' result Hi Hne. unfold Install in Hi.
    destruct (Validate h zipData) as [err|]; [|reflexivity].
    injection Hi as <- _. congruence.
Qed.

End Zip.

(** *** A concrete handler and archive format for the examples: an archive is
    read as the text of its only file, [metadata.toml] *)

Definition example_handler : AgentHandler :=
  NewAgentHandler (mkMetadata (mkArtifactInfo "reviewer" "agent")
                              (Some (mkAgentConfig "AGENT.md"))).

Definition no_zip_list (zipData : list byte) : Result (list string) :=
  Err "zip: not a valid zip file".
Definition no_zip_read (zipData : list byte) (name : string) : Result (list byte) :=
  Err "zip: not a valid zip file".
Definition no_parse (data : list byte) : Result Metadata :=
  Err "toml: empty document".
Definition no_validate (meta : Metadata) (files : list string) : option error := None.
Definition contains_name (files : list string) (name : string) : bool :=
  existsb (String.eqb name) files.
Definition extract_marker (zipData : list byte) (dest : string) (fs : OS.FS)
  : OS.FS * option error :=
  match OS.resolve fs dest with
  | Some p =>
      (OS.with_nodes fs (<[p ++ ["AGENT.md"] := OS.FileNode (string_of_list_byte zipData)]>
                           (OS.nodes fs)), None)
  | None => (fs, Some "no such file or directory")
  end.

Lemma Install_validates_first_witness :
  Validate no_zip_list no_zip_read no_parse no_validate contains_name
    example_handler [] = Some "failed to list zip files: zip: not a valid zip file" /\
  Install no_zip_list no_zip_read no_parse no_validate contains_name extract_marker
    example_handler [] "/home/u/.claude" Cache.empty_fs
  = (Cache.empty_fs,
     Some "validation failed: failed to list zip files: zip: not a valid zip file").
Proof.
  split; [reflexivity|].
  apply (proj1 (Install_validates_first no_zip_list no_zip_read no_parse no_validate
                  contains_name extract_marker example_handler []
                  "/home/u/.claude" Cache.empty_fs)).
  reflexivity.
Defined.

(** *** Removing *)

Lemma remove_below_gone p m : p <> [] -> OS.lookup_node (OS.remove_below p m) p = None.
Proof.
  intros Hp. destruct p as [|x p]; [congruence|]. simpl.
  unfold OS.remove_below. apply map_lookup_filter_None. right.
  intros n _ Hn. apply Hn. reflexivity.
Qed.

(** after a successful [RemoveAll] of a directory nothing is left at the path *)
Lemma RemoveAll_ok_gone name fs fs' :
  OS.RemoveAll name fs = (fs', None) ->
  Utils.IsDirectory name fs = true ->
  OS.Stat name fs' = None.
Proof.
  unfold OS.RemoveAll, Utils.IsDirectory, OS.Stat.
  destruct (String.eqb name "") eqn:E.
  - apply String.eqb_eq in E. subst name. discriminate.
  - destruct (OS.endsWithDot name); [discriminate|].
    destruct (OS.resolve fs name) as [p|] eqn:Hres; [|discriminate].
    destruct p as [|x p]; [discriminate|].
    intros [= <-] _.
    assert (Hr : OS.resolve (OS.with_nodes fs (OS.remove_below (x :: p) (OS.nodes fs))) name
                 = Some (x :: p)) by exact Hres.
    rewrite Hr. now apply remove_below_gone.
Qed.

(** C8: [Remove] returns nil, and changes nothing, when the install path
    does not exist; and after a [Remove] that succeeded a second [Remove]
    succeeds and leaves the file system as it is. *)
Theorem Remove_idempotent (h : AgentHandler) (targetBase : string) (fs : OS.FS) :
  (OS.Stat (Filepath.Join [targetBase; GetInstallPath h]) fs = None ->
   Remove h targetBase fs = (fs, None)) /\
  (forall fs1, Remove h targetBase fs = (fs1, None) ->
               Remove h targetBase fs1 = (fs1, None)).
Proof.
  split.
  - intros Hs. unfold Remove, Utils.IsDirectory. now rewrite Hs.
  - intros fs1 H. unfold Remove in *.
    destruct (Utils.IsDirectory (Filepath.Join [targetBase; GetInstallPath h]) fs) eqn:Hd.
    + cbn [negb] in H.
      destruct (OS.RemoveAll (Filepath.Join [targetBase; GetInstallPath h]) fs)
        as [fs' [e|]] eqn:Hr; [discriminate|].
      injection H as <-.
      unfold Utils.IsDirectory at 1. now rewrite (RemoveAll_ok_gone _ _ _ Hr Hd).
    + cbn [negb] in H. injection H as <-. now rewrite Hd.
Qed.

Definition installed_fs : OS.FS :=
  OS.mkFS [] {[ ["home"] := OS.DirNode;
                ["home"; "agents"] := OS.DirNode;
                ["home"; "agents"; "reviewer"] := OS.DirNode;
                ["home"; "agents"; "reviewer"; "AGENT.md"] := OS.FileNode "You review code.";
                ["home"; "agents"; "other"] := OS.DirNode ]}.

Lemma Remove_idempotent_witness :
  let fs1 := fst (Remove example_handler "/home" installed_fs) in
  Remove example_handler "/home" installed_fs = (fs1, None) /\
  Remove example_handler "/home" fs1 = (fs1, None).
Proof.
  intros fs1.
  assert (H : Remove example_handler "/home" installed_fs = (fs1, None))
    by (vm_compute; reflexivity).
  split; [exact H|].
  exact (proj2 (Remove_idempotent example_handler "/home" installed_fs) fs1 H).
Defined.

(** the first [Remove] takes the agent's directory and what it holds, and
    nothing else *)
Example Remove_removes :
  let fs1 := fst (Remove example_handler "/home" installed_fs) in
  map (fun p => OS.Stat p installed_fs)
      ["/home/agents/reviewer"; "/home/agents/reviewer/AGENT.md"; "/home/agents/other"]
  = [Some OS.DirNode; Some (OS.FileNode "You review code."); Some OS.DirNode] /\
  map (fun p => OS.Stat p fs1)
      ["/home/agents/reviewer"; "/home/agents/reviewer/AGENT.md"; "/home/agents/other"]
  = [None; None; Some OS.DirNode].
Proof. vm_compute. split; reflexivity. Qed.

(** with helpers that accept the archive, [Install] replaces what was
    installed by the extracted files *)
Definition list_agent (zipData : list byte) : Result (list string) :=
  Ok ["metadata.toml"; "AGENT.md"].
Definition read_agent (zipData : list byte) (name : string) : Result (list byte) :=
  Ok zipData.
Definition parse_agent (data : list byte) : Result Metadata :=
  Ok (metadata example_handler).

Example Install_replaces :
  let '(fs', result) :=
    Install list_agent read_agent parse_agent no_validate contains_name extract_marker
      example_handler (list_byte_of_string "You review Go.") "/home" installed_fs in
  result = None /\
  map (fun p => OS.Stat p fs')
      ["/home/agents/reviewer"; "/home/agents/reviewer/AGENT.md"; "/home/agents/other"]
  = [Some OS.DirNode; Some (OS.FileNode "You review Go."); Some OS.DirNode].
Proof. vm_compute. split; reflexivity. Qed.

(** and a payload of another type is refused with the tree untouched *)
Example Install_wrong_type :
  Install list_agent read_agent
    (fun _ => Ok (mkMetadata (mkArtifactInfo "reviewer" "skill") None))
    no_validate contains_name extract_marker
    example_handler [] "/home" installed_fs
  = (installed_fs,
     Some "validation failed: artifact type mismatch: expected agent, got skill").
Proof. reflexivity. Qed.

(** *** Where an agent is installed *)

Lemma GetInstallPath_name h :
  Filepath.is_name (Name (Artifact (metadata h))) = true ->
  GetInstallPath h = "agents" +:+ "/" +:+ Name (Artifact (metadata h)).
Proof.
  intros Hn. unfold GetInstallPath.
  rewrite Filepath.Join_cons_nonempty by discriminate.
  change (Filepath.join ["agents"; Name (Artifact (metadata h))])
    with ("agents" +:+ "/" +:+ Name (Artifact (metadata h))).
  rewrite Filepath.Clean_spec, (Filepath.rooted_app "agents") by discriminate.
  rewrite (Filepath.elements_child "agents" _ ltac:(discriminate) Hn).
  reflexivity.
Qed.

(** the install path of a properly named agent is [agents/{name}] under the
    target base, and [RemoveAll] accepts it *)
Lemma installPath_resolves h targetBase fs pt :
  Filepath.is_name (Name (Artifact (metadata h))) = true ->
  OS.resolve fs targetBase = Some pt ->
  OS.resolve fs (Filepath.Join [targetBase; GetInstallPath h])
  = Some (pt ++ ["agents"; Name (Artifact (metadata h))]) /\
  Filepath.Join [targetBase; GetInstallPath h] <> "" /\
  OS.endsWithDot (Filepath.Join [targetBase; GetInstallPath h]) = false.
Proof.
  intros Hn Hr. rewrite (GetInstallPath_name h Hn).
  set (name := Name (Artifact (metadata h))) in *.
  assert (Hne : targetBase <> "") by (intros ->; discriminate).
  rewrite Filepath.Join_cons_nonempty by assumption.
  change (Filepath.join [targetBase; "agents" +:+ "/" +:+ name])
    with (targetBase +:+ "/" +:+ "agents" +:+ "/" +:+ name).
  assert (Hassoc : targetBase +:+ "/" +:+ "agents" +:+ "/" +:+ name
                   = (targetBase +:+ "/" +:+ "agents") +:+ "/" +:+ name)
    by (now rewrite (app_assoc targetBase), (app_assoc "/")).
  split; [|split].
  - rewrite OS.resolve_Clean by (apply app_ne_r; discriminate).
    rewrite Hassoc.
    rewrite (OS.resolve_child fs (targetBase +:+ "/" +:+ "agents") name (pt ++ ["agents"])).
    + now rewrite <- List.app_assoc.
    + assumption.
    + now apply OS.resolve_child.
  - apply Filepath.Clean_nonempty.
  - rewrite Hassoc.
    change (Filepath.Clean ((targetBase +:+ "/" +:+ "agents") +:+ "/" +:+ name))
      with (Filepath.Clean (Filepath.join [targetBase +:+ "/" +:+ "agents"; name])).
    rewrite <- Filepath.Join_cons_nonempty by (apply app_ne_r; discriminate).
    destruct (Filepath.Join_child_suffix (targetBase +:+ "/" +:+ "agents") name)
      as (pre & ->); [apply app_ne_r; discriminate | assumption |].
    now apply OS.endsWithDot_name.
Qed.

(** X17: removing a properly named agent cannot fail (failures of
    permission and of the device are not modelled) and takes that agent
    only.  Afterwards no directory is left at [{targetBase}/agents/{name}];
    if there was one, nothing is left at or below that path; and every
    node that is not at or below it (the other agents among them) is as it
    was. *)
Theorem Remove_takes_only_the_agent
  (h : AgentHandler) (targetBase : string) (fs : OS.FS) (pt : list string) :
  Filepath.is_name (Name (Artifact (metadata h))) = true ->
  OS.resolve fs targetBase = Some pt ->
  exists fs',
    Remove h targetBase fs = (fs', None) /\
    Utils.IsDirectory (Filepath.Join [targetBase; GetInstallPath h]) fs' = false /\
    (Utils.IsDirectory (Filepath.Join [targetBase; GetInstallPath h]) fs = true ->
     forall q, (pt ++ ["agents"; Name (Artifact (metadata h))]) `prefix_of` q ->
               OS.lookup_node (OS.nodes fs') q = None) /\
    (forall q, ~ (pt ++ ["agents"; Name (Artifact (metadata h))]) `prefix_of` q ->
               OS.lookup_node (OS.nodes fs') q = OS.lookup_node (OS.nodes fs) q).
Proof.
  intros Hn Hr. destruct (installPath_resolves h targetBase fs pt Hn Hr) as (Hp & Hne & Hdot).
  set (p := pt ++ ["agents"; Name (Artifact (metadata h))]) in *.
  assert (Hnil : p <> []) by (subst p; now destruct pt).
  unfold Remove.
  destruct (Utils.IsDirectory (Filepath.Join [targetBase; GetInstallPath h]) fs) eqn:Hd;
    cbn [negb].
  - rewrite (OS.RemoveAll_below _ _ _ Hne Hdot Hp Hnil).
    eexists. split; [reflexivity|]. split; [|split].
    + unfold Utils.IsDirectory, OS.Stat. rewrite OS.resolve_with_nodes, Hp.
      cbn [OS.nodes OS.with_nodes]. rewrite OS.remove_below_lookup by assumption.
      now destruct (decide (p `prefix_of` p)) as [|[]].
    + intros _ q Hq. cbn [OS.nodes OS.with_nodes].
      rewrite OS.remove_below_lookup by assumption.
      now destruct (decide (p `prefix_of` q)).
    + intros q Hq. cbn [OS.nodes OS.with_nodes].
      rewrite OS.remove_below_lookup by assumption.
      now destruct (decide (p `prefix_of` q)).
  - exists fs. split; [reflexivity|]. split; [assumption|]. split; [discriminate | reflexivity].
Qed.

Lemma Remove_takes_only_the_agent_witness :
  exists fs',
    Remove example_handler "/home" installed_fs = (fs', None) /\
    Utils.IsDirectory (Filepath.Join ["/home"; GetInstallPath example_handler]) fs' = false /\
    (Utils.IsDirectory (Filepath.Join ["/home"; GetInstallPath example_handler]) installed_fs
     = true ->
     forall q, (["home"] ++ ["agents"; "reviewer"]) `prefix_of` q ->
               OS.lookup_node (OS.nodes fs') q = None) /\
    (forall q, ~ (["home"] ++ ["agents"; "reviewer"]) `prefix_of` q ->
               OS.lookup_node (OS.nodes fs') q = OS.lookup_node (OS.nodes installed_fs) q).
Proof.
  apply (Remove_takes_only_the_agent example_handler "/home" installed_fs ["home"]);
    reflexivity.
Defined.

(** the name must be a proper one: for the name [..] the install path is
    the directory [agents]'s parent, the target base itself, and [Remove]
    takes all of it *)
Example Remove_dot_dot_name :
  let h := NewAgentHandler (mkMetadata (mkArtifactInfo ".." "agent") None) in
  Filepath.Join ["/home"; GetInstallPath h] = "/home" /\
  map (fun p => OS.Stat p (fst (Remove h "/home" installed_fs)))
      ["/home"; "/home/agents/reviewer"; "/home/agents/other"]
  = [None; None; None].
Proof. vm_compute. split; reflexivity. Qed.

Section InstallFacts.

Variable ListZipFiles : list byte -> Result (list string).
Variable ReadZipFile : list byte -> string -> Result (list byte).
Variable Parse : list byte -> Result Metadata.
Variable ValidateWithFiles : Metadata -> list string -> option error.
Variable containsFile : list string -> string -> bool.
Variable ExtractZip : list byte -> string -> OS.FS -> OS.FS * option error.

(** X18: an archive is extracted into an empty directory.  For a valid
    payload and a properly named agent, in a file system where nodes lie
    below the install path only if that path is a directory, [Install]
    either fails before the extraction, or calls [ExtractZip] on a file
    system where the install path is a directory; in both cases nothing
    lies below the install path then, so no file of an earlier
    installation is left. *)
Theorem Install_extracts_into_empty_directory
  (h : AgentHandler) (zipData : list byte) (targetBase : string) (fs : OS.FS)
  (pt : list string) :
  let installPath := Filepath.Join [targetBase; GetInstallPath h] in
  let p := pt ++ ["agents"; Name (Artifact (metadata h))] in
  Validate ListZipFiles ReadZipFile Parse ValidateWithFiles containsFile h zipData = None ->
  Filepath.is_name (Name (Artifact (metadata h))) = true ->
  OS.resolve fs targetBase = Some pt ->
  (forall q, p `prefix_of` q -> q <> p -> OS.lookup_node (OS.nodes fs) q <> None ->
             Utils.IsDirectory installPath fs = true) ->
  exists fs2,
    (forall q, p `prefix_of` q -> q <> p -> OS.lookup_node (OS.nodes fs2) q = None) /\
    ((exists err,
         Install ListZipFiles ReadZipFile Parse ValidateWithFiles containsFile ExtractZip
           h zipData targetBase fs = (fs2, Some err)) \/
     (Utils.IsDirectory installPath fs2 = true /\
      Install ListZipFiles ReadZipFile Parse ValidateWithFiles containsFile ExtractZip
        h zipData targetBase fs
      = match ExtractZip zipData installPath fs2 with
        | (fs3, Some err) => (fs3, Some (wrap "failed to extract zip" err))
        | (fs3, None) => (fs3, None)
        end)).
Proof.
  intros installPath p Hvalid Hn Hr Hbelow.
  destruct (installPath_resolves h targetBase fs pt Hn Hr) as (Hp & Hne & Hdot).
  fold installPath in Hp, Hne, Hdot. fold p in Hp.
  assert (Hnil : p <> []) by (subst p; now destruct pt).
  unfold Install. rewrite Hvalid. fold installPath.
  (* the file system after the removal of what was installed *)
  assert (Hfs1 : exists fs1,
             (if Utils.IsDirectory installPath fs
              then match OS.RemoveAll installPath fs with
                   | (fs1, Some err) =>
                       (fs1, Some (wrap "failed to remove existing installation" err))
                   | (fs1, None) => (fs1, None)
                   end
              else (fs, None)) = (fs1, None) /\
             OS.cwd fs1 = OS.cwd fs /\
             forall q, p `prefix_of` q -> q <> p -> OS.lookup_node (OS.nodes fs1) q = None).
  { destruct (Utils.IsDirectory installPath fs) eqn:Hd.
    - rewrite (OS.RemoveAll_below _ _ _ Hne Hdot Hp Hnil).
      eexists. split; [reflexivity|]. split; [reflexivity|].
      intros q Hq _. cbn [OS.nodes OS.with_nodes].
      rewrite OS.remove_below_lookup by assumption.
      now destruct (decide (p `prefix_of` q)).
    - exists fs. split; [reflexivity|]. split; [reflexivity|].
      intros q Hq Hqp. destruct (OS.lookup_node (OS.nodes fs) q) eqn:E; [|reflexivity].
      assert (Hd' : false = true) by (apply (Hbelow q Hq Hqp); congruence).
      discriminate Hd'. }
  destruct Hfs1 as (fs1 & -> & Hcwd & Hempty).
  assert (Hp1 : OS.resolve fs1 installPath = Some p)
    by now rewrite (Utils.resolve_cwd _ _ _ Hcwd).
  destruct (Utils.EnsureDir installPath fs1) as [fs2 e2] eqn:He.
  exists fs2. split.
  - intros q Hq Hqp. unfold Utils.EnsureDir in He.
    rewrite (OS.MkdirAll_below _ _ _ _ _ _ He Hp1 Hq Hqp). now apply Hempty.
  - destruct e2 as [err|].
    + left. eauto.
    + right. split; [|reflexivity]. now apply (Utils.EnsureDir_ok _ _ _ He).
Qed.

End InstallFacts.

Lemma Install_extracts_into_empty_directory_witness :
  exists fs2,
    (forall q, (["home"] ++ ["agents"; "reviewer"]) `prefix_of` q ->
               q <> ["home"] ++ ["agents"; "reviewer"] ->
               OS.lookup_node (OS.nodes fs2) q = None) /\
    ((exists err,
         Install list_agent read_agent parse_agent no_validate contains_name extract_marker
           example_handler (list_byte_of_string "You review Go.") "/home" installed_fs
         = (fs2, Some err)) \/
     (Utils.IsDirectory (Filepath.Join ["/home"; GetInstallPath example_handler]) fs2 = true /\
      Install list_agent read_agent parse_agent no_validate contains_name extract_marker
        example_handler (list_byte_of_string "You review Go.") "/home" installed_fs
      = match extract_marker (list_byte_of_string "You review Go.")
                (Filepath.Join ["/home"; GetInstallPath example_handler]) fs2 with
        | (fs3, Some err) => (fs3, Some (wrap "failed to extract zip" err))
        | (fs3, None) => (fs3, None)
        end)).
Proof.
  apply (Install_extracts_into_empty_directory
           list_agent read_agent parse_agent no_validate contains_name extract_marker
           example_handler (list_byte_of_string "You review Go.") "/home" installed_fs
           ["home"]).
  - vm_compute. reflexivity.
  - reflexivity.
  - reflexivity.
  - intros q _ _ _. vm_compute. reflexivity.
Defined.

End Handlers.

(** ** Package github: tree URLs *)

Module Github.

(** [TreeURL] represents a parsed GitHub tree URL pointing to a directory *)
Record TreeURL : Type := mkTreeURL {
  Owner : string;
  Repo : string;
  Ref : string;
  Path : string
}.

(** [strings.TrimSuffix(url, "/")]: one trailing slash is removed *)
Fixpoint TrimSuffixSlash (s : string) : string :=
  match s with
  | EmptyString => EmptyString
  | String c EmptyString => if Filepath.is_sep c then EmptyString else s
  | String c rest => String c (TrimSuffixSlash rest)
  end.

(** the rest of [s] after the literal [lit], if [s] starts with it *)
Fixpoint literal (lit s : string) : option string :=
  match lit, s with
  | EmptyString, _ => Some s
  | String a lit', String b s' => if Ascii.eqb a b then literal lit' s' else None
  | String _ _, EmptyString => None
  end.

(** the longest prefix of [s] without a slash, and what follows it: what
    [[^/]+] takes when a slash or the end of the text must follow *)
Fixpoint segment (s : string) : string * string :=
  match s with
  | EmptyString => (EmptyString, EmptyString)
  | String c rest =>
      if Filepath.is_sep c then (EmptyString, s)
      else let '(seg, after) := segment rest in (String c seg, after)
  end.

(** [.] matches any character but a newline *)
Definition no_newline (s : string) : bool :=
  Hash.string_forall (fun c => negb (Ascii.eqb c Bufio.newline)) s.

(** [treeURLPattern.FindStringSubmatch], for the pattern
    [^https?://github\.com/([^/]+)/([^/]+)/tree/([^/]+)(?:/(REST))?$]
    where [REST] is any run of characters other than newline (dot, star).
    Each [[^/]+] is followed by a slash or by the end of the text, so it
    takes a whole, non-empty segment; the last group is absent (empty in
    the result) when the text ends after the ref. *)
Definition match_treeURLPattern (url : string) : option TreeURL :=
  let after_host :=
    match literal "https://github.com/" url with
    | Some rest => Some rest
    | None => literal "http://github.com/" url
    end in
  match after_host with
  | None => None
  | Some r0 =>
      let '(owner, r1) := segment r0 in
      if String.eqb owner "" then None else
      match literal "/" r1 with
      | None => None
      | Some r2 =>
          let '(repo, r3) := segment r2 in
          if String.eqb repo "" then None else
          match literal "/tree/" r3 with
          | None => None
          | Some r4 =>
              let '(ref, r5) := segment r4 in
              if String.eqb ref "" then None else
              match r5 with
              | EmptyString => Some (mkTreeURL owner repo ref EmptyString)
              | String _ path =>
                  if no_newline path then Some (mkTreeURL owner repo ref path)
                  else None
              end
          end
      end
  end.

(** [ParseTreeURL] parses a GitHub tree URL into its components; [None] is
    the nil result *)
Definition ParseTreeURL (url : string) : option TreeURL :=
  match_treeURLPattern (TrimSuffixSlash url).

(** [String] returns the original GitHub tree URL *)
Definition String_ (t : TreeURL) : string :=
  let url := "https://github.com/" +:+ Owner t +:+ "/" +:+ Repo t +:+ "/tree/" +:+ Ref t in
  if negb (String.eqb (Path t) "") then url +:+ "/" +:+ Path t else url.

(** [SkillName] returns a suggested name for the skill based on the path *)
Definition SkillName (t : TreeURL) : string :=
  if String.eqb (Path t) "" then Repo t
  else List.last (Filepath.split (Path t)) EmptyString.

Example ParseTreeURL_table :
  map ParseTreeURL
      ["https://github.com/metabase/metabase/tree/master/.claude/skills/docs-write";
       "https://github.com/metabase/metabase/tree/master/.claude/skills/docs-write/";
       "http://github.com/o/r/tree/main";
       "https://github.com/o/r/tree/main/";
       "https://github.com/o/r/tree/main//";
       "https://github.com/o/r/tree/main/a//";
       "https://github.com/o/r/blob/main/a";
       "https://github.com/o/r/tree/";
       "https://github.com/o//tree/main";
       "https://gitlab.com/o/r/tree/main"]
  = [Some (mkTreeURL "metabase" "metabase" "master" ".claude/skills/docs-write");
     Some (mkTreeURL "metabase" "metabase" "master" ".claude/skills/docs-write");
     Some (mkTreeURL "o" "r" "main" "");
     Some (mkTreeURL "o" "r" "main" "");
     Some (mkTreeURL "o" "r" "main" "");
     Some (mkTreeURL "o" "r" "main" "a/");
     None; None; None; None].
Proof. reflexivity. Qed.

Example String_table :
  map String_ [mkTreeURL "metabase" "metabase" "master" ".claude/skills/docs-write";
               mkTreeURL "o" "r" "main" ""]
  = ["https://github.com/metabase/metabase/tree/master/.claude/skills/docs-write";
     "https://github.com/o/r/tree/main"].
Proof. reflexivity. Qed.

(** *** Printing, then parsing *)

Lemma literal_app lit s : literal lit (lit +:+ s) = Some s.
Proof.
  induction lit as [|c lit IH]; [now destruct s|].
  rewrite app_cons. simpl. now rewrite Ascii.eqb_refl.
Qed.

Lemma segment_no_sep s seg after :
  segment s = (seg, after) -> Filepath.no_sep seg = true.
Proof.
  revert seg after. induction s as [|c s IH]; intros seg after.
  - now intros [= <- _].
  - simpl. destruct (Filepath.is_sep c) eqn:Hc; [now intros [= <- _]|].
    destruct (segment s) as [seg' after']. intros [= <- _].
    unfold Filepath.no_sep. simpl. rewrite Hc. simpl. now apply (IH seg' after').
Qed.

(** a segment followed by a slash is taken whole, and so is one followed by
    nothing *)
Lemma segment_app a b :
  Filepath.no_sep a = true -> Filepath.rooted b = true -> segment (a +:+ b) = (a, b).
Proof.
  intros Ha Hb. induction a as [|c a IH].
  - rewrite app_nil_l. destruct b as [|c b]; [discriminate|].
    simpl in *. now rewrite Hb.
  - rewrite app_cons. unfold Filepath.no_sep in Ha. simpl in Ha.
    apply andb_true_iff in Ha as [Hc Ha]. apply negb_true_iff in Hc.
    simpl. rewrite Hc. now rewrite (IH Ha).
Qed.

Lemma segment_whole a : Filepath.no_sep a = true -> segment a = (a, "").
Proof.
  induction a as [|c a IH]; [reflexivity|].
  unfold Filepath.no_sep. simpl. intros [Hc Ha]%andb_true_iff.
  apply negb_true_iff in Hc. rewrite Hc. now rewrite (IH Ha).
Qed.

(** the text ends with a slash *)
Fixpoint ends_with_slash (s : string) : bool :=
  match s with
  | EmptyString => false
  | String c EmptyString => Filepath.is_sep c
  | String _ rest => ends_with_slash rest
  end.

Lemma TrimSuffixSlash_id s : ends_with_slash s = false -> TrimSuffixSlash s = s.
Proof.
  induction s as [|c s IH]; [reflexivity|].
  destruct s as [|c' s'].
  - simpl. now intros ->.
  - intros H. change (TrimSuffixSlash (String c (String c' s')))
      with (String c (TrimSuffixSlash (String c' s'))).
    now rewrite IH.
Qed.

Lemma ends_with_slash_app a b :
  b <> "" -> ends_with_slash (a +:+ b) = ends_with_slash b.
Proof.
  intros Hb. induction a as [|c a IH]; [reflexivity|].
  rewrite app_cons. destruct (a +:+ b) as [|c' t] eqn:E.
  - destruct a; [now rewrite app_nil_l in E | discriminate].
  - exact IH.
Qed.

Lemma ends_with_slash_no_sep s : Filepath.no_sep s = true -> ends_with_slash s = false.
Proof.
  induction s as [|c s IH]; [reflexivity|].
  unfold Filepath.no_sep. simpl. intros [Hc Hs]%andb_true_iff.
  apply negb_true_iff in Hc. destruct s; [exact Hc | now apply IH].
Qed.

(** a segment as the pattern captures it: not empty, without slash *)
Definition is_segment (s : string) : Prop := s <> "" /\ Filepath.no_sep s = true.

(** what the pattern captured *)
Lemma match_treeURLPattern_fields url t :
  match_treeURLPattern url = Some t ->
  is_segment (Owner t) /\ is_segment (Repo t) /\ is_segment (Ref t) /\
  no_newline (Path t) = true.
Proof.
  unfold match_treeURLPattern, is_segment.
  destruct (match literal "https://github.com/" url with
            | Some rest => Some rest
            | None => literal "http://github.com/" url
            end) as [r0|]; [|discriminate].
  destruct (segment r0) as [owner r1] eqn:E1.
  destruct (String.eqb owner "") eqn:N1; [discriminate|].
  destruct (literal "/" r1) as [r2|]; [|discriminate].
  destruct (segment r2) as [repo r3] eqn:E2.
  destruct (String.eqb repo "") eqn:N2; [discriminate|].
  destruct (literal "/tree/" r3) as [r4|]; [|discriminate].
  destruct (segment r4) as [ref r5] eqn:E3.
  destruct (String.eqb ref "") eqn:N3; [discriminate|].
  apply String.eqb_neq in N1, N2, N3.
  apply segment_no_sep in E1, E2, E3.
  destruct r5 as [|c path].
  - intros [= <-]. simpl. auto.
  - destruct (no_newline path) eqn:Hp; [|discriminate].
    intros [= <-]. simpl. auto.
Qed.

(** the printed URL is matched, with the same fields *)
Lemma match_String t :
  is_segment (Owner t) -> is_segment (Repo t) -> is_segment (Ref t) ->
  no_newline (Path t) = true ->
  match_treeURLPattern (String_ t) = Some t.
Proof.
  intros [No So] [Nr Sr] [Nf Sf] Hp. destruct t as [owner repo ref path].
  simpl in *. unfold String_, match_treeURLPattern. simpl Owner. simpl Repo.
  simpl Ref. simpl Path.
  apply String.eqb_neq in No, Nr, Nf.
  destruct (String.eqb path "") eqn:Ep; cbn [negb].
  - apply String.eqb_eq in Ep. subst path.
    rewrite literal_app.
    rewrite (segment_app owner) by (assumption || reflexivity). rewrite No.
    rewrite literal_app.
    rewrite (segment_app repo) by (assumption || reflexivity). rewrite Nr.
    rewrite literal_app.
    rewrite (segment_whole ref) by assumption. rewrite Nf.
    reflexivity.
  - rewrite !app_assoc.
    rewrite literal_app.
    rewrite (segment_app owner) by (assumption || reflexivity). rewrite No.
    rewrite literal_app.
    rewrite (segment_app repo) by (assumption || reflexivity). rewrite Nr.
    rewrite literal_app.
    rewrite (segment_app ref) by (assumption || reflexivity). rewrite Nf.
    rewrite app_cons, app_nil_l. now rewrite Hp.
Qed.

Lemma String_no_trailing_slash t :
  is_segment (Ref t) -> ends_with_slash (Path t) = false ->
  ends_with_slash (String_ t) = false.
Proof.
  intros [Nf Sf] Hp. unfold String_.
  destruct (String.eqb (Path t) "") eqn:Ep; cbn [negb].
  - rewrite !ends_with_slash_app;
      try (repeat (assumption || discriminate || apply app_ne_r)).
    now apply ends_with_slash_no_sep.
  - apply String.eqb_neq in Ep.
    rewrite ends_with_slash_app.
    + rewrite ends_with_slash_app; assumption.
    + discriminate.
Qed.

(** C9: a [TreeURL] that [ParseTreeURL] produced, and whose [Path] does not
    end with a slash, is parsed back from its [String] with the same
    [Owner], [Repo], [Ref] and [Path]. *)
Theorem ParseTreeURL_String_roundtrip (url : string) (t : TreeURL) :
  ParseTreeURL url = Some t ->
  ends_with_slash (Path t) = false ->
  ParseTreeURL (String_ t) = Some t.
Proof.
  intros Hparse Hpath.
  destruct (match_treeURLPattern_fields _ _ Hparse) as (Ho & Hr & Hf & Hp).
  unfold ParseTreeURL.
  rewrite TrimSuffixSlash_id by now apply String_no_trailing_slash.
  now apply match_String.
Qed.

Lemma ParseTreeURL_String_roundtrip_witness :
  let t := mkTreeURL "metabase" "metabase" "master" ".claude/skills/docs-write" in
  ParseTreeURL "http://github.com/metabase/metabase/tree/master/.claude/skills/docs-write/"
  = Some t /\
  ParseTreeURL (String_ t) = Some t.
Proof.
  intros t. split; [reflexivity|].
  apply (ParseTreeURL_String_roundtrip
           "http://github.com/metabase/metabase/tree/master/.claude/skills/docs-write/" t);
    reflexivity.
Defined.

(** the condition on [Path] is needed: a path that ends with a slash loses it *)
Example ParseTreeURL_String_trailing_slash :
  ParseTreeURL "https://github.com/o/r/tree/main/a//" = Some (mkTreeURL "o" "r" "main" "a/") /\
  ParseTreeURL (String_ (mkTreeURL "o" "r" "main" "a/")) = Some (mkTreeURL "o" "r" "main" "a").
Proof. split; reflexivity. Qed.

(** *** The other URL functions *)

(** [blobURLPattern.MatchString], for the pattern
    [^https?://github\.com/([^/]+)/([^/]+)/blob/([^/]+)/(REST)$] where [REST]
    is one character or more, none of them a newline (dot, plus) *)
Definition match_blobURLPattern (url : string) : bool :=
  let after_host :=
    match literal "https://github.com/" url with
    | Some rest => Some rest
    | None => literal "http://github.com/" url
    end in
  match after_host with
  | None => false
  | Some r0 =>
      let '(owner, r1) := segment r0 in
      if String.eqb owner "" then false else
      match literal "/" r1 with
      | None => false
      | Some r2 =>
          let '(repo, r3) := segment r2 in
          if String.eqb repo "" then false else
          match literal "/blob/" r3 with
          | None => false
          | Some r4 =>
              let '(ref, r5) := segment r4 in
              if String.eqb ref "" then false else
              match r5 with
              | EmptyString => false
              | String _ path => negb (String.eqb path "") && no_newline path
              end
          end
      end
  end.

(** [IsTreeURL] checks if a URL is a GitHub tree URL (directory) *)
Definition IsTreeURL (url : string) : bool :=
  match match_treeURLPattern (TrimSuffixSlash url) with
  | Some _ => true
  | None => false
  end.

(** [IsBlobURL] checks if a URL is a GitHub blob URL (single file) *)
Definition IsBlobURL (url : string) : bool := match_blobURLPattern url.

(** [IsGitHubURL] checks if a URL is any kind of GitHub URL we can handle *)
Definition IsGitHubURL (url : string) : bool := IsTreeURL url || IsBlobURL url.

(** [ContentsAPIURL] returns the GitHub API URL for listing directory contents *)
Definition ContentsAPIURL (t : TreeURL) : string :=
  let url := "https://api.github.com/repos/" +:+ Owner t +:+ "/" +:+ Repo t +:+ "/contents" in
  let url := if negb (String.eqb (Path t) "") then url +:+ "/" +:+ Path t else url in
  url +:+ "?ref=" +:+ Ref t.

(** [RawURL] returns the raw.githubusercontent.com URL for a file within
    this tree *)
Definition RawURL (t : TreeURL) (filename : string) : string :=
  let path :=
    if negb (String.eqb (Path t) "") then Path t +:+ "/" +:+ filename else filename in
  "https://raw.githubusercontent.com/" +:+ Owner t +:+ "/" +:+ Repo t +:+ "/"
    +:+ Ref t +:+ "/" +:+ path.

Example IsGitHubURL_table :
  map (fun url => (IsTreeURL url, IsBlobURL url, IsGitHubURL url))
      ["https://github.com/metabase/metabase/tree/master/.claude/skills/docs-write";
       "https://github.com/o/r/tree/main/";
       "https://github.com/o/r/blob/main/README.md";
       "http://github.com/o/r/blob/main/docs/";
       "https://github.com/o/r/blob/main/";
       "https://github.com/o/r/blob/main";
       "https://github.com/o/r";
       "https://gitlab.com/o/r/tree/main"]
  = [(true, false, true); (true, false, true); (false, true, true); (false, true, true);
     (false, false, false); (false, false, false); (false, false, false);
     (false, false, false)].
Proof. reflexivity. Qed.

Example ContentsAPIURL_RawURL_table :
  let t := mkTreeURL "metabase" "metabase" "master" ".claude/skills/docs-write" in
  ContentsAPIURL t
  = "https://api.github.com/repos/metabase/metabase/contents/.claude/skills/docs-write?ref=master" /\
  RawURL t "SKILL.md"
  = "https://raw.githubusercontent.com/metabase/metabase/master/.claude/skills/docs-write/SKILL.md" /\
  ContentsAPIURL (mkTreeURL "o" "r" "main" "") = "https://api.github.com/repos/o/r/contents?ref=main" /\
  RawURL (mkTreeURL "o" "r" "main" "") "SKILL.md"
  = "https://raw.githubusercontent.com/o/r/main/SKILL.md".
Proof. repeat split; reflexivity. Qed.

(** *** Parsing, then printing *)

Lemma literal_inv lit s r : literal lit s = Some r -> s = lit +:+ r.
Proof.
  revert s. induction lit as [|a lit IH]; intros s.
  - simpl. now intros [= ->].
  - destruct s as [|b s]; [discriminate|]. simpl.
    destruct (Ascii.eqb a b) eqn:E; [|discriminate].
    apply Ascii.eqb_eq in E. subst b. intros H. rewrite app_cons. f_equal. now apply IH.
Qed.

Lemma literal_cons a lit b s :
  literal (String a lit) (String b s) = if Ascii.eqb a b then literal lit s else None.
Proof. reflexivity. Qed.

Lemma segment_inv s seg after :
  segment s = (seg, after) ->
  s = seg +:+ after /\ (after = "" \/ Filepath.rooted after = true).
Proof.
  revert seg after. induction s as [|c s IH]; intros seg after.
  - intros [= <- <-]. auto.
  - simpl. destruct (Filepath.is_sep c) eqn:Hc.
    + intros [= <- <-]. split; [reflexivity|]. right. exact Hc.
    + destruct (segment s) as [seg' after']. intros [= <- <-].
      destruct (IH _ _ eq_refl) as [-> H]. split; [now rewrite app_cons | exact H].
Qed.

Lemma rooted_inv s : Filepath.rooted s = true -> exists s', s = "/" +:+ s'.
Proof.
  destruct s as [|c s]; [discriminate|]. simpl. unfold Filepath.is_sep.
  intros ->%Ascii.eqb_eq. now exists s.
Qed.

(** the text the tree pattern matched, put together again from the groups *)
Lemma match_treeURLPattern_inv url t :
  match_treeURLPattern url = Some t ->
  exists scheme tail,
    (scheme = "https://github.com/" \/ scheme = "http://github.com/") /\
    url = scheme +:+ Owner t +:+ "/" +:+ Repo t +:+ "/tree/" +:+ Ref t +:+ tail /\
    (tail = "" /\ Path t = "" \/ tail = "/" +:+ Path t).
Proof.
  unfold match_treeURLPattern.
  assert (Hs : forall r0,
             match literal "https://github.com/" url with
             | Some rest => Some rest
             | None => literal "http://github.com/" url
             end = Some r0 ->
             exists scheme,
               (scheme = "https://github.com/" \/ scheme = "http://github.com/") /\
               url = scheme +:+ r0).
  { intros r0. destruct (literal "https://github.com/" url) as [r|] eqn:E.
    - intros [= ->]. apply literal_inv in E. eauto.
    - intros E'. apply literal_inv in E'. eauto. }
  destruct (match literal "https://github.com/" url with
            | Some rest => Some rest
            | None => literal "http://github.com/" url
            end) as [r0|]; [|discriminate].
  destruct (Hs r0 eq_refl) as (scheme & Hscheme & ->). clear Hs.
  destruct (segment r0) as [owner r1] eqn:E1.
  destruct (String.eqb owner ""); [discriminate|].
  destruct (literal "/" r1) as [r2|] eqn:L1; [|discriminate].
  destruct (segment r2) as [repo r3] eqn:E2.
  destruct (String.eqb repo ""); [discriminate|].
  destruct (literal "/tree/" r3) as [r4|] eqn:L2; [|discriminate].
  destruct (segment r4) as [ref r5] eqn:E3.
  destruct (String.eqb ref ""); [discriminate|].
  apply segment_inv in E1 as [-> _], E2 as [-> _], E3 as [-> Hr5].
  apply literal_inv in L1 as ->, L2 as ->.
  intros H. exists scheme.
  destruct r5 as [|c path].
  - injection H as <-. exists "". simpl. auto.
  - destruct (no_newline path); [|discriminate]. injection H as <-.
    destruct Hr5 as [|Hr5]; [discriminate|].
    apply rooted_inv in Hr5 as (s' & Hs'). rewrite app_cons, app_nil_l in Hs'.
    injection Hs' as -> <-. exists ("/" +:+ path). simpl. auto.
Qed.

Lemma ends_with_slash_app_true a b :
  ends_with_slash b = true -> ends_with_slash (a +:+ b) = true.
Proof.
  intros H. rewrite (ends_with_slash_app a b); [exact H|]. now intros ->.
Qed.

Lemma TrimSuffixSlash_cases s :
  s = TrimSuffixSlash s \/ s = TrimSuffixSlash s +:+ "/".
Proof.
  induction s as [|c s IH]; [now left|].
  destruct s as [|c' s'].
  - simpl. destruct (Filepath.is_sep c) eqn:Hc; [|now left].
    right. unfold Filepath.is_sep in Hc. apply Ascii.eqb_eq in Hc. now subst c.
  - change (TrimSuffixSlash (String c (String c' s')))
      with (String c (TrimSuffixSlash (String c' s'))).
    rewrite app_cons. destruct IH as [IH|IH]; [left | right]; now f_equal.
Qed.

Lemma TrimSuffixSlash_app_slash s : TrimSuffixSlash (s +:+ "/") = s.
Proof.
  induction s as [|c s IH]; [reflexivity|].
  rewrite app_cons. destruct (s +:+ "/") as [|c' t] eqn:E.
  - destruct s; discriminate.
  - change (TrimSuffixSlash (String c (String c' t)))
      with (String c (TrimSuffixSlash (String c' t))).
    now rewrite IH.
Qed.

(** X3: [String] gives back the URL that was parsed, in its canonical
    form: with the scheme [https] and without the trailing slash that
    [ParseTreeURL] dropped.  (When the path is empty, a slash still left
    after the ref is dropped as well, hence the condition.) *)
Theorem ParseTreeURL_then_String (url : string) (t : TreeURL) :
  ParseTreeURL url = Some t ->
  Path t <> "" \/ ends_with_slash (TrimSuffixSlash url) = false ->
  exists rest,
    (TrimSuffixSlash url = "https://github.com/" +:+ rest \/
     TrimSuffixSlash url = "http://github.com/" +:+ rest) /\
    String_ t = "https://github.com/" +:+ rest.
Proof.
  unfold ParseTreeURL. intros H Hc.
  destruct (match_treeURLPattern_inv _ _ H) as (scheme & tail & Hscheme & Hu & Htail).
  exists (Owner t +:+ "/" +:+ Repo t +:+ "/tree/" +:+ Ref t +:+ tail).
  split.
  - rewrite Hu. destruct Hscheme as [-> | ->]; auto.
  - unfold String_. destruct Htail as [[-> Hp] | ->].
    + rewrite Hp. cbn [String.eqb negb]. now rewrite app_nil_r.
    + destruct (String.eqb (Path t) "") eqn:Ep; cbn [negb].
      * apply String.eqb_eq in Ep. exfalso. destruct Hc as [Hc | Hc]; [now apply Hc|].
        rewrite Hu, Ep in Hc. change ("/" +:+ "") with "/" in Hc.
        assert (E : ends_with_slash
                      (scheme +:+ Owner t +:+ "/" +:+ Repo t +:+ "/tree/" +:+ Ref t +:+ "/")
                    = true)
          by (do 6 apply ends_with_slash_app_true; reflexivity).
        congruence.
      * now rewrite !app_assoc.
Qed.

Lemma ParseTreeURL_then_String_witness :
  let url := "http://github.com/metabase/metabase/tree/master/.claude/skills/" in
  let t := mkTreeURL "metabase" "metabase" "master" ".claude/skills" in
  ParseTreeURL url = Some t /\
  exists rest,
    (TrimSuffixSlash url = "https://github.com/" +:+ rest \/
     TrimSuffixSlash url = "http://github.com/" +:+ rest) /\
    String_ t = "https://github.com/" +:+ rest.
Proof.
  intros url t.
  assert (H : ParseTreeURL url = Some t) by (vm_compute; reflexivity).
  split; [exact H|].
  apply (ParseTreeURL_then_String url t H). left. discriminate.
Defined.

(** the condition is needed: a slash left after the ref is lost *)
Example ParseTreeURL_then_String_root :
  ParseTreeURL "https://github.com/o/r/tree/main//" = Some (mkTreeURL "o" "r" "main" "") /\
  String_ (mkTreeURL "o" "r" "main" "") = "https://github.com/o/r/tree/main".
Proof. split; reflexivity. Qed.

(** X4: one trailing slash makes no difference to [ParseTreeURL]: a URL
    that does not end with a slash is parsed like the same URL followed by
    one. *)
Theorem ParseTreeURL_trailing_slash (url : string) :
  ends_with_slash url = false ->
  ParseTreeURL (url +:+ "/") = ParseTreeURL url /\
  IsTreeURL (url +:+ "/") = IsTreeURL url.
Proof.
  intros H. unfold IsTreeURL, ParseTreeURL.
  now rewrite TrimSuffixSlash_app_slash, (TrimSuffixSlash_id url H).
Qed.

Lemma ParseTreeURL_trailing_slash_witness :
  ParseTreeURL "https://github.com/o/r/tree/main/a/" = ParseTreeURL "https://github.com/o/r/tree/main/a".
Proof.
  apply (ParseTreeURL_trailing_slash "https://github.com/o/r/tree/main/a").
  vm_compute. reflexivity.
Defined.

(** *** Telling the kinds of URL apart *)

Lemma literal_https_http s : literal "https://github.com/" ("http://github.com/" +:+ s) = None.
Proof. reflexivity. Qed.

Lemma literal_blob_tree s : literal "/blob/" ("/tree/" +:+ s) = None.
Proof. reflexivity. Qed.

(** the blob pattern refuses a text whose third segment is [tree] *)
Lemma match_blobURLPattern_tree scheme owner repo rest :
  scheme = "https://github.com/" \/ scheme = "http://github.com/" ->
  is_segment owner -> is_segment repo ->
  match_blobURLPattern (scheme +:+ owner +:+ "/" +:+ repo +:+ "/tree/" +:+ rest) = false.
Proof.
  intros Hscheme [No So] [Nr Sr]. apply String.eqb_neq in No, Nr.
  unfold match_blobURLPattern.
  assert (Hhost : match literal "https://github.com/"
                          (scheme +:+ owner +:+ "/" +:+ repo +:+ "/tree/" +:+ rest) with
                  | Some r => Some r
                  | None => literal "http://github.com/"
                              (scheme +:+ owner +:+ "/" +:+ repo +:+ "/tree/" +:+ rest)
                  end = Some (owner +:+ "/" +:+ repo +:+ "/tree/" +:+ rest)).
  { destruct Hscheme as [-> | ->].
    - now rewrite literal_app.
    - now rewrite literal_https_http, literal_app. }
  rewrite Hhost.
  rewrite (segment_app owner) by (assumption || reflexivity). rewrite No.
  rewrite literal_app.
  rewrite (segment_app repo) by (assumption || reflexivity). rewrite Nr.
  now rewrite literal_blob_tree.
Qed.

(** X5: no URL is both a tree URL and a blob URL, so that the two cases
    of [IsGitHubURL] never overlap. *)
Theorem IsTreeURL_not_IsBlobURL (url : string) :
  IsTreeURL url = true -> IsBlobURL url = false.
Proof.
  unfold IsTreeURL, IsBlobURL.
  destruct (match_treeURLPattern (TrimSuffixSlash url)) as [t|] eqn:H; [|discriminate].
  intros _.
  destruct (match_treeURLPattern_inv _ _ H) as (scheme & tail & Hscheme & Hu & _).
  destruct (match_treeURLPattern_fields _ _ H) as (Ho & Hr & _).
  destruct (TrimSuffixSlash_cases url) as [E | E]; rewrite E, Hu.
  - now apply match_blobURLPattern_tree.
  - rewrite (app_assoc scheme), (app_assoc (Owner t)), (app_assoc "/"),
      (app_assoc (Repo t)), (app_assoc "/tree/").
    now apply match_blobURLPattern_tree.
Qed.

Lemma IsTreeURL_not_IsBlobURL_witness :
  IsTreeURL "https://github.com/o/r/tree/main/blob/x" = true /\
  IsBlobURL "https://github.com/o/r/tree/main/blob/x" = false.
Proof.
  assert (H : IsTreeURL "https://github.com/o/r/tree/main/blob/x" = true)
    by (vm_compute; reflexivity).
  split; [exact H|]. exact (IsTreeURL_not_IsBlobURL _ H).
Defined.

(** *** The suggested name *)

Lemma last_cons_ne {A} (x : A) (l : list A) d : l <> [] -> List.last (x :: l) d = List.last l d.
Proof. destruct l; [congruence | reflexivity]. Qed.

(** the last field is empty exactly when the text is empty or ends with a
    slash *)
Lemma last_split_empty s :
  List.last (Filepath.split s) "" = "" <-> s = "" \/ ends_with_slash s = true.
Proof.
  induction s as [|c s IH]; [simpl; tauto|].
  pose proof (Filepath.split_not_nil s) as Hne.
  pose proof (Filepath.join_split s) as Hj.
  cbn [Filepath.split]. destruct (Filepath.is_sep c) eqn:Hc.
  - rewrite last_cons_ne by assumption. rewrite IH.
    destruct s as [|c' s'].
    + simpl. rewrite Hc. tauto.
    + change (ends_with_slash (String c (String c' s')))
        with (ends_with_slash (String c' s')).
      split; [intros [?|?]; [discriminate | now right] | intros [?|?]; [discriminate | now right]].
  - destruct (Filepath.split s) as [|x r] eqn:Es; [congruence|].
    destruct r as [|y r].
    + simpl in Hj. subst x. cbn [List.last].
      split; [discriminate|]. intros [?|He]; [discriminate|].
      destruct s as [|c' s']; [simpl in He; congruence|].
      change (ends_with_slash (String c (String c' s')))
        with (ends_with_slash (String c' s')) in He.
      cbn [List.last] in IH.
      assert (Hs : String c' s' = "") by (apply IH; now right). discriminate.
    + change (List.last (String c x :: y :: r) "") with (List.last (x :: y :: r) "").
      rewrite IH. destruct s as [|c' s']; [discriminate|].
      change (ends_with_slash (String c (String c' s')))
        with (ends_with_slash (String c' s')).
      split; [intros [?|?]; [discriminate | now right] | intros [?|?]; [discriminate | now right]].
Qed.

Lemma last_Forall {A} (P : A -> Prop) (l : list A) d :
  l <> [] -> Forall P l -> P (List.last l d).
Proof.
  induction l as [|x l IH]; [congruence|]. intros _ H.
  inversion H as [|? ? Hx Hl]; subst.
  destruct l as [|y l]; [exact Hx|]. apply IH; [discriminate | exact Hl].
Qed.

(** X6: the name suggested for a parsed URL is a single path element: it
    holds no slash.  It is empty exactly when the path ends with a slash
    (as the path [a/] of [.../tree/main/a//] does). *)
Theorem SkillName_of_parsed (url : string) (t : TreeURL) :
  ParseTreeURL url = Some t ->
  Filepath.no_sep (SkillName t) = true /\
  (SkillName t = "" <-> ends_with_slash (Path t) = true).
Proof.
  intros H. destruct (match_treeURLPattern_fields _ _ H) as (_ & [Nr Sr] & _).
  unfold SkillName. destruct (String.eqb (Path t) "") eqn:Ep.
  - apply String.eqb_eq in Ep. rewrite Ep. split; [exact Sr|].
    simpl. split; [congruence | discriminate].
  - apply String.eqb_neq in Ep. split.
    + apply (last_Forall (fun e => Filepath.no_sep e = true)).
      * apply Filepath.split_not_nil.
      * apply Filepath.split_all_no_sep.
    + rewrite last_split_empty. tauto.
Qed.

Lemma SkillName_of_parsed_witness :
  let t := mkTreeURL "metabase" "metabase" "master" ".claude/skills/docs-write" in
  ParseTreeURL "https://github.com/metabase/metabase/tree/master/.claude/skills/docs-write"
  = Some t /\
  SkillName t = "docs-write" /\
  Filepath.no_sep (SkillName t) = true.
Proof.
  intros t.
  assert (H : ParseTreeURL
                "https://github.com/metabase/metabase/tree/master/.claude/skills/docs-write"
              = Some t) by (vm_compute; reflexivity).
  split; [exact H|]. split; [vm_compute; reflexivity|].
  exact (proj1 (SkillName_of_parsed _ t H)).
Defined.

Example SkillName_table :
  map (fun url => option_map SkillName (ParseTreeURL url))
      ["https://github.com/metabase/metabase/tree/master/.claude/skills/docs-write";
       "https://github.com/o/r/tree/main";
       "https://github.com/o/r/tree/main/a//"]
  = [Some "docs-write"; Some "r"; Some ""].
Proof. vm_compute. reflexivity. Qed.

End Github.

(** ** Package commands: the install command *)

Module Commands.

(** what a command acts on: the file system and the two output streams,
    as the lines written *)
Record World : Type := mkWorld {
  fs : OS.FS;
  stdout : list string;
  stderr : list string
}.

(** the fields of [cobra.Command] the package sets *)
Record Command : Type := mkCommand {
  Use : string;
  Short : string;
  Long : string
}.

Definition Println (line : string) (w : World) : World :=
  mkWorld (fs w) (stdout w ++ [line]) (stderr w).

Definition Eprintln (line : string) (w : World) : World :=
  mkWorld (fs w) (stdout w) (stderr w ++ [line]).

(** [runInstall] executes the install command *)
Definition runInstall (cmd : Command) (args : list string) (w : World)
  : World * option error :=
  (Println "Install command - To be implemented" w, Some "not yet implemented").

(** [NewInstallCommand] creates the install command; its [RunE] is
    [runInstall] *)
Definition NewInstallCommand : Command :=
  mkCommand "install"
            "Read lock file, fetch artifacts, and install locally"
            "Read the sleuth.lock file, fetch artifacts from the configured repository, and install them to ~/.claude/ directory.".

(** [cmd.Help()] prints the description of the command *)
Definition Help (cmd : Command) (w : World) : World * option error :=
  (Println (Long cmd) w, None).

(** [RunDefaultCommand] runs the default command (install if lock file exists) *)
Definition RunDefaultCommand (cmd : Command) (args : list string) (w : World)
  : World * option error :=
  match OS.Stat "sleuth.lock" (fs w) with
  | Some _ =>
      (* Lock file exists, run install *)
      runInstall cmd args w
  | None =>
      (* No lock file, show help *)
      let w1 := Eprintln "No sleuth.lock file found in current directory." w in
      let w2 := Eprintln "" w1 in
      let w3 := Eprintln "To get started:" w2 in
      let w4 := Eprintln "  1. Run 'skills init' to configure a repository" w3 in
      let w5 := Eprintln "  2. Run 'skills install' to install artifacts from the lock file" w4 in
      let w6 := Eprintln "" w5 in
      Help cmd w6
  end.

(** a project directory holding a lock file without artifacts *)
Definition minimal_lock : string :=
  "lock-version = '1.0'" +:+ String Bufio.newline "" +:+
  "version = 'local-dev'" +:+ String Bufio.newline "" +:+
  "created-by = 'manual'" +:+ String Bufio.newline "".

Definition project_world : World :=
  mkWorld (OS.mkFS ["work"] {[ ["work"] := OS.DirNode;
                               ["work"; "sleuth.lock"] := OS.FileNode minimal_lock ]})
          [] [].

(** C3, what the code does: every run of [runInstall] ends with the error
    "not yet implemented", whatever the lock file; the file system is not
    read or changed, and the only thing done is printing a line.  No phase
    of the orchestrator runs. *)
Theorem runInstall_not_implemented (cmd : Command) (args : list string) (w : World) :
  snd (runInstall cmd args w) = Some "not yet implemented" /\
  fs (fst (runInstall cmd args w)) = fs w /\
  stdout (fst (runInstall cmd args w)) = stdout w ++ ["Install command - To be implemented"].
Proof. repeat split. Qed.

(** with a well-formed lock file in the working directory the default
    command fails in the same way *)
Example RunDefaultCommand_with_lock_file :
  OS.Stat "sleuth.lock" (fs project_world) = Some (OS.FileNode minimal_lock) /\
  RunDefaultCommand NewInstallCommand [] project_world
  = (mkWorld (fs project_world) ["Install command - To be implemented"] [],
     Some "not yet implemented").
Proof. vm_compute. split; reflexivity. Qed.

(** X21: the default command never changes the file system, and it fails
    exactly when [sleuth.lock] exists in the current directory: it then
    runs [runInstall], whose result is the error "not yet implemented";
    without a lock file it writes its six lines of advice to the standard
    error and returns what [Help] returns. *)
Theorem RunDefaultCommand_outcome (cmd : Command) (args : list string) (w : World) :
  fs (fst (RunDefaultCommand cmd args w)) = fs w /\
  (snd (RunDefaultCommand cmd args w) = Some "not yet implemented" <->
   OS.Stat "sleuth.lock" (fs w) <> None) /\
  (snd (RunDefaultCommand cmd args w) = None <-> OS.Stat "sleuth.lock" (fs w) = None) /\
  (OS.Stat "sleuth.lock" (fs w) = None ->
   stderr (fst (RunDefaultCommand cmd args w))
   = stderr w ++ ["No sleuth.lock file found in current directory."; "";
                  "To get started:";
                  "  1. Run 'skills init' to configure a repository";
                  "  2. Run 'skills install' to install artifacts from the lock file"; ""]).
Proof.
  unfold RunDefaultCommand.
  destruct (OS.Stat "sleuth.lock" (fs w)) as [n|]; cbn.
  - repeat split; try discriminate; congruence.
  - repeat split; try discriminate; try congruence.
    intros _. now rewrite <- !List.app_assoc.
Qed.

Example RunDefaultCommand_without_lock_file :
  RunDefaultCommand NewInstallCommand [] (mkWorld Cache.empty_fs [] [])
  = (mkWorld Cache.empty_fs
       [Long NewInstallCommand]
       ["No sleuth.lock file found in current directory."; "";
        "To get started:";
        "  1. Run 'skills init' to configure a repository";
        "  2. Run 'skills install' to install artifacts from the lock file"; ""],
     None).
Proof. vm_compute. reflexivity. Qed.

End Commands.

(** ** The lock model

    The lock file code (internal/lockfile) is not among the sources; this
    module follows the specification's sections 3, 4.1 and 6. *)

Module Lockfile.

(** Modelled from the spec: the "structured, human-readable" manifest
    format, as the tree of tables, arrays, strings and integers that its
    text stands for (the text layer belongs to the TOML library). *)
#[warnings="-register-all"]
Inductive value : Type :=
| VString (s : string)
| VInt (n : Z)
| VArray (items : list value)
| VTable (fields : list (string * value)).

(** Modelled from the spec: the artifact type enumeration
    skill/agent/command/hook/mcp/mcp-remote. *)
Inductive ArtifactType : Type :=
| Skill | Agent | Command | Hook | Mcp | McpRemote.

(** Modelled from the spec: Source, a tagged union with exactly one variant
    populated. *)
Inductive Source : Type :=
| HttpSource (url : string) (hashes : gmap string string)
             (size : option Z) (uploadedAt : option string)
| GitSource (url ref : string) (subdirectory : option string)
| PathSource (path : string).

(** Modelled from the spec: Scope, one of Global, Repo(url),
    Path(repoUrl, relativePath). *)
Inductive Scope : Type :=
| Global
| RepoScope (url : string)
| PathScope (repoUrl relativePath : string).

(** Modelled from the spec: DependencyRef, a name and an optional version. *)
Record DependencyRef : Type := mkDependencyRef {
  dep_name : string;
  dep_version : option string
}.

(** Modelled from the spec: Artifact. *)
Record Artifact : Type := mkArtifact {
  name : string;
  version : string;
  type : ArtifactType;
  clients : option (gset string);
  source : Source;
  scope : option Scope;
  dependencies : list DependencyRef
}.

(** Modelled from the spec: LockFile, with the format version, the instance
    version, the creator tag and the ordered list of artifacts. *)
Record LockFile : Type := mkLockFile {
  lock_version : string;
  instance_version : string;
  created_by : string;
  artifacts : list Artifact
}.

(** Modelled from the spec: the two kinds of failure of the Lock Model. *)
Inductive LockError : Type :=
| ParseError (msg : string)
| ValidationError (msg : string).

Inductive Parsed (A : Type) : Type :=
| Parsed_ok (a : A)
| Failed (e : LockError).
Arguments Parsed_ok {A} a.
Arguments Failed {A} e.

Definition bind {A B : Type} (m : Parsed A) (k : A -> Parsed B) : Parsed B :=
  match m with
  | Parsed_ok a => k a
  | Failed e => Failed e
  end.

Notation "x <- m ;; k" := (bind m (fun x => k))
  (at level 100, m at next level, right associativity).

(** *** Serialization *)

Definition opt_field {A : Type} (key : string) (inj : A -> value) (o : option A)
  : list (string * value) :=
  match o with
  | Some a => [(key, inj a)]
  | None => []
  end.

Definition type_name (t : ArtifactType) : string :=
  match t with
  | Skill => "skill"
  | Agent => "agent"
  | Command => "command"
  | Hook => "hook"
  | Mcp => "mcp"
  | McpRemote => "mcp-remote"
  end.

Definition serialize_hashes (hashes : gmap string string) : value :=
  VTable (map (fun kv : string * string => (kv.1, VString kv.2)) (map_to_list hashes)).

(** the source table of an artifact: one of three, named after the variant *)
Definition serialize_source (s : Source) : string * value :=
  match s with
  | HttpSource url hashes size uploadedAt =>
      ("source-http",
       VTable ([("url", VString url); ("hashes", serialize_hashes hashes)]
               ++ opt_field "size" VInt size
               ++ opt_field "uploaded-at" VString uploadedAt))
  | GitSource url ref subdirectory =>
      ("source-git",
       VTable ([("url", VString url); ("ref", VString ref)]
               ++ opt_field "subdirectory" VString subdirectory))
  | PathSource path =>
      ("source-path", VTable [("path", VString path)])
  end.

Definition serialize_scope (s : option Scope) : list (string * value) :=
  match s with
  | None => []
  | Some Global => [("scope", VString "global")]
  | Some (RepoScope url) => [("repo", VString url)]
  | Some (PathScope repoUrl relativePath) =>
      [("repo", VString repoUrl); ("path", VString relativePath)]
  end.

Definition serialize_dependency (d : DependencyRef) : value :=
  VTable (("name", VString (dep_name d)) :: opt_field "version" VString (dep_version d)).

Definition serialize_dependencies (ds : list DependencyRef) : list (string * value) :=
  match ds with
  | [] => []
  | _ => [("dependencies", VArray (map serialize_dependency ds))]
  end.

Definition serialize_clients (c : gset string) : value :=
  VArray (map VString (elements c)).

Definition serialize_artifact (a : Artifact) : value :=
  VTable ([("name", VString (name a));
           ("version", VString (version a));
           ("type", VString (type_name (type a)))]
          ++ opt_field "clients" serialize_clients (clients a)
          ++ [serialize_source (source a)]
          ++ serialize_scope (scope a)
          ++ serialize_dependencies (dependencies a)).

(** Modelled from the spec: serialization of a LockFile into the
    structured format, with the top-level fields [lock-version], [version],
    [created-by] and the repeated artifact entries. *)
Definition serialize (x : LockFile) : value :=
  VTable [("lock-version", VString (lock_version x));
          ("version", VString (instance_version x));
          ("created-by", VString (created_by x));
          ("artifacts", VArray (map serialize_artifact (artifacts x)))].

(** *** Parsing *)

Fixpoint field (key : string) (fields : list (string * value)) : option value :=
  match fields with
  | [] => None
  | (k, v) :: rest => if String.eqb k key then Some v else field key rest
  end.

(** a field that must be there, as a string; what its absence is depends
    on the table *)
Definition required_string (missing : LockError) (key : string)
  (fields : list (string * value)) : Parsed string :=
  match field key fields with
  | Some (VString s) => Parsed_ok s
  | Some _ => Failed (ParseError (key +:+ " is not a string"))
  | None => Failed missing
  end.

Definition optional_string (key : string) (fields : list (string * value))
  : Parsed (option string) :=
  match field key fields with
  | Some (VString s) => Parsed_ok (Some s)
  | Some _ => Failed (ParseError (key +:+ " is not a string"))
  | None => Parsed_ok None
  end.

Definition optional_int (key : string) (fields : list (string * value))
  : Parsed (option Z) :=
  match field key fields with
  | Some (VInt n) => Parsed_ok (Some n)
  | Some _ => Failed (ParseError (key +:+ " is not an integer"))
  | None => Parsed_ok None
  end.

Fixpoint parse_each {A B : Type} (f : A -> Parsed B) (l : list A) : Parsed (list B) :=
  match l with
  | [] => Parsed_ok []
  | a :: rest =>
      b <- f a ;;
      bs <- parse_each f rest ;;
      Parsed_ok (b :: bs)
  end.

Definition parse_string (v : value) : Parsed string :=
  match v with
  | VString s => Parsed_ok s
  | _ => Failed (ParseError "not a string")
  end.

Definition parse_type (s : string) : Parsed ArtifactType :=
  if String.eqb s "skill" then Parsed_ok Skill
  else if String.eqb s "agent" then Parsed_ok Agent
  else if String.eqb s "command" then Parsed_ok Command
  else if String.eqb s "hook" then Parsed_ok Hook
  else if String.eqb s "mcp" then Parsed_ok Mcp
  else if String.eqb s "mcp-remote" then Parsed_ok McpRemote
  else Failed (ValidationError ("unknown artifact type " +:+ s)).

Definition is_hex_digit (c : ascii) : bool :=
  let n := N_of_ascii c in
  ((48 <=? n) && (n <=? 57) || (97 <=? n) && (n <=? 102) || (65 <=? n) && (n <=? 70))%N.

(** a full commit SHA: forty hexadecimal characters *)
Definition is_full_sha (ref : string) : bool :=
  Nat.eqb (String.length ref) 40 && Hash.string_forall is_hex_digit ref.

Definition missing_source_field : LockError :=
  ValidationError "missing required source field".

Definition parse_hash (kv : string * value) : Parsed (string * string) :=
  match kv.2 with
  | VString digest => Parsed_ok (kv.1, digest)
  | _ => Failed (ParseError "hash digest is not a string")
  end.

Definition parse_http (t : list (string * value)) : Parsed Source :=
  url <- required_string missing_source_field "url" t ;;
  hashes <-
     match field "hashes" t with
     | Some (VTable hs) =>
         pairs <- parse_each parse_hash hs ;;
         Parsed_ok (list_to_map pairs : gmap string string)
     | Some _ => Failed (ParseError "hashes is not a table")
     | None => Failed missing_source_field
     end ;;
  if decide (hashes = ∅) then Failed missing_source_field
  else
    size <- optional_int "size" t ;;
    uploadedAt <- optional_string "uploaded-at" t ;;
    Parsed_ok (HttpSource url hashes size uploadedAt).

Definition parse_git (t : list (string * value)) : Parsed Source :=
  url <- required_string missing_source_field "url" t ;;
  ref <- required_string missing_source_field "ref" t ;;
  if negb (is_full_sha ref) then
    Failed (ValidationError "git ref is not a full commit SHA")
  else
    subdirectory <- optional_string "subdirectory" t ;;
    Parsed_ok (GitSource url ref subdirectory).

Definition parse_path (t : list (string * value)) : Parsed Source :=
  path <- required_string missing_source_field "path" t ;;
  Parsed_ok (PathSource path).

(** exactly one of the three source tables must be there *)
Definition parse_source (a : list (string * value)) : Parsed Source :=
  match field "source-http" a, field "source-git" a, field "source-path" a with
  | Some (VTable t), None, None => parse_http t
  | None, Some (VTable t), None => parse_git t
  | None, None, Some (VTable t) => parse_path t
  | None, None, None => Failed missing_source_field
  | Some (VTable _), Some _, _ | Some (VTable _), _, Some _
  | _, Some (VTable _), Some _ =>
      Failed (ValidationError "multiple populated source variants")
  | _, _, _ => Failed (ParseError "source is not a table")
  end.

Definition parse_scope (a : list (string * value)) : Parsed (option Scope) :=
  scope <- optional_string "scope" a ;;
  repo <- optional_string "repo" a ;;
  path <- optional_string "path" a ;;
  match scope, repo, path with
  | None, None, None => Parsed_ok None
  | Some s, None, None =>
      if String.eqb s "global" then Parsed_ok (Some Global)
      else Failed (ValidationError ("unknown scope " +:+ s))
  | None, Some url, None => Parsed_ok (Some (RepoScope url))
  | None, Some url, Some p => Parsed_ok (Some (PathScope url p))
  | _, None, Some _ => Failed (ValidationError "path scope without a repo scope")
  | Some _, Some _, _ => Failed (ValidationError "scope given twice")
  end.

Definition parse_dependency (v : value) : Parsed DependencyRef :=
  match v with
  | VTable t =>
      n <- required_string (ParseError "dependency without name") "name" t ;;
      ver <- optional_string "version" t ;;
      Parsed_ok (mkDependencyRef n ver)
  | _ => Failed (ParseError "dependency is not a table")
  end.

Definition parse_dependencies (a : list (string * value)) : Parsed (list DependencyRef) :=
  match field "dependencies" a with
  | Some (VArray items) => parse_each parse_dependency items
  | Some _ => Failed (ParseError "dependencies is not an array")
  | None => Parsed_ok []
  end.

Definition parse_clients (a : list (string * value)) : Parsed (option (gset string)) :=
  match field "clients" a with
  | Some (VArray items) =>
      names <- parse_each parse_string items ;;
      Parsed_ok (Some (list_to_set names))
  | Some _ => Failed (ParseError "clients is not an array")
  | None => Parsed_ok None
  end.

Definition parse_artifact (v : value) : Parsed Artifact :=
  match v with
  | VTable a =>
      n <- required_string (ParseError "artifact without name") "name" a ;;
      ver <- required_string (ParseError "artifact without version") "version" a ;;
      tname <- required_string (ParseError "artifact without type") "type" a ;;
      t <- parse_type tname ;;
      c <- parse_clients a ;;
      src <- parse_source a ;;
      sc <- parse_scope a ;;
      deps <- parse_dependencies a ;;
      Parsed_ok (mkArtifact n ver t c src sc deps)
  | _ => Failed (ParseError "artifact is not a table")
  end.

(** the major number of a format version: the text before the first dot *)
Fixpoint major (v : string) : string :=
  match v with
  | EmptyString => EmptyString
  | String c rest => if Ascii.eqb c "." then EmptyString else String c (major rest)
  end.

(** Modelled from the spec: parsing of the structured format into a
    LockFile; ParseError on malformed structure, ValidationError on an
    unknown major format version, a path scope without a repo scope, missing
    required source fields, multiple populated source variants, a git ref
    that is not a commit SHA. *)
Definition parse (v : value) : Parsed LockFile :=
  match v with
  | VTable top =>
      lv <- required_string (ParseError "missing lock-version") "lock-version" top ;;
      iv <- required_string (ParseError "missing version") "version" top ;;
      cb <- required_string (ParseError "missing created-by") "created-by" top ;;
      if negb (String.eqb (major lv) "1") then
        Failed (ValidationError ("unknown lock-version " +:+ lv))
      else
        arts <-
           match field "artifacts" top with
           | Some (VArray items) => parse_each parse_artifact items
           | Some _ => Failed (ParseError "artifacts is not an array")
           | None => Parsed_ok []
           end ;;
        Parsed_ok (mkLockFile lv iv cb arts)
  | _ => Failed (ParseError "the document is not a table")
  end.

(** *** Valid lock files *)

Definition valid_source (s : Source) : Prop :=
  match s with
  | HttpSource _ hashes _ _ => hashes <> ∅
  | GitSource _ ref _ => is_full_sha ref = true
  | PathSource _ => True
  end.

(** Modelled from the spec: a valid LockFile value, one that breaks none of
    the semantic rules of section 4.1: a known major format version,
    hashes on every HTTP source, a full commit SHA on every git source. *)
Definition valid (x : LockFile) : Prop :=
  major (lock_version x) = "1" /\
  Forall (fun a => valid_source (source a)) (artifacts x).

(** *** The round trip *)

Lemma parse_each_map {A B : Type} (f : A -> Parsed B) (g : B -> A) (l : list B) :
  (forall b, f (g b) = Parsed_ok b) -> parse_each f (map g l) = Parsed_ok l.
Proof.
  intros H. induction l as [|b l IH]; [reflexivity|].
  simpl. now rewrite H, IH.
Qed.

Lemma parse_type_name t : parse_type (type_name t) = Parsed_ok t.
Proof. now destruct t. Qed.

Lemma parse_hashes_serialized (l : list (string * string)) :
  parse_each parse_hash (map (fun kv : string * string => (kv.1, VString kv.2)) l)
  = Parsed_ok l.
Proof. apply parse_each_map. now intros [k v]. Qed.

Lemma parse_strings_serialized (l : list string) :
  parse_each parse_string (map VString l) = Parsed_ok l.
Proof. now apply parse_each_map. Qed.

Lemma parse_dependency_serialized d :
  parse_dependency (serialize_dependency d) = Parsed_ok d.
Proof. now destruct d as [n [v|]]. Qed.

Lemma parse_dependencies_serialized (l : list DependencyRef) :
  parse_each parse_dependency (map serialize_dependency l) = Parsed_ok l.
Proof. apply parse_each_map. exact parse_dependency_serialized. Qed.

Lemma parse_http_serialized url hashes size uploadedAt :
  hashes <> ∅ ->
  parse_http ([("url", VString url); ("hashes", serialize_hashes hashes)]
              ++ opt_field "size" VInt size
              ++ opt_field "uploaded-at" VString uploadedAt)
  = Parsed_ok (HttpSource url hashes size uploadedAt).
Proof.
  intros Hne. unfold parse_http, serialize_hashes.
  destruct size, uploadedAt; simpl;
    rewrite parse_hashes_serialized; simpl; rewrite list_to_map_to_list;
    (destruct (decide (hashes = ∅)); [contradiction | reflexivity]).
Qed.

Lemma parse_git_serialized url ref subdirectory :
  is_full_sha ref = true ->
  parse_git ([("url", VString url); ("ref", VString ref)]
             ++ opt_field "subdirectory" VString subdirectory)
  = Parsed_ok (GitSource url ref subdirectory).
Proof.
  intros Hsha. unfold parse_git. destruct subdirectory; simpl; now rewrite Hsha.
Qed.

Lemma parse_source_serialized a :
  valid_source (source a) ->
  match serialize_artifact a with
  | VTable fields => parse_source fields = Parsed_ok (source a)
  | _ => False
  end.
Proof.
  destruct a as [n v t c src sc deps]. unfold serialize_artifact. cbn [source].
  intros Hv. unfold parse_source.
  destruct c, src as [url h sz up | url ref sub | path], sc as [[|u|u p]|],
    deps as [|d deps];
    cbn [app opt_field serialize_source serialize_scope serialize_dependencies field
         name version type clients source scope dependencies];
    simpl String.eqb; cbv iota;
    first [ now apply parse_http_serialized
          | now apply parse_git_serialized
          | reflexivity ].
Qed.

Lemma parse_scope_serialized a :
  match serialize_artifact a with
  | VTable fields => parse_scope fields = Parsed_ok (scope a)
  | _ => False
  end.
Proof.
  destruct a as [n v t c src sc deps]. unfold serialize_artifact, parse_scope.
  destruct c, src as [url h sz up | url ref sub | path], sc as [[|u|u p]|],
    deps as [|d deps]; reflexivity.
Qed.

Lemma parse_clients_serialized a :
  match serialize_artifact a with
  | VTable fields => parse_clients fields = Parsed_ok (clients a)
  | _ => False
  end.
Proof.
  destruct a as [n v t c src sc deps]. unfold serialize_artifact, parse_clients.
  destruct c as [c|].
  - simpl. unfold serialize_clients. rewrite parse_strings_serialized. simpl.
    now rewrite list_to_set_elements_L.
  - destruct src as [url h sz up | url ref sub | path], sc as [[|u|u p]|],
      deps as [|d deps]; reflexivity.
Qed.

Lemma parse_dependencies_serialized_in a :
  match serialize_artifact a with
  | VTable fields => parse_dependencies fields = Parsed_ok (dependencies a)
  | _ => False
  end.
Proof.
  destruct a as [n v t c src sc deps]. unfold serialize_artifact, parse_dependencies.
  destruct c, src as [url h sz up | url ref sub | path], sc as [[|u|u p]|],
    deps as [|d deps];
    cbn [app opt_field serialize_source serialize_scope serialize_dependencies field
         name version type clients source scope dependencies];
    simpl String.eqb; cbv iota;
    first [ reflexivity | apply (parse_dependencies_serialized (d :: deps)) ].
Qed.

Lemma parse_artifact_serialized a :
  valid_source (source a) -> parse_artifact (serialize_artifact a) = Parsed_ok a.
Proof.
  intros Hv.
  pose proof (parse_source_serialized a Hv) as Hsrc.
  pose proof (parse_scope_serialized a) as Hsc.
  pose proof (parse_clients_serialized a) as Hc.
  pose proof (parse_dependencies_serialized_in a) as Hd.
  unfold parse_artifact.
  destruct (serialize_artifact a) as [| | |fields] eqn:E; try contradiction.
  assert (Hn : required_string (ParseError "artifact without name") "name" fields
               = Parsed_ok (name a)).
  { unfold serialize_artifact in E. injection E as <-. reflexivity. }
  assert (Hver : required_string (ParseError "artifact without version") "version" fields
                 = Parsed_ok (version a)).
  { unfold serialize_artifact in E. injection E as <-. reflexivity. }
  assert (Ht : required_string (ParseError "artifact without type") "type" fields
               = Parsed_ok (type_name (type a))).
  { unfold serialize_artifact in E. injection E as <-. reflexivity. }
  rewrite Hn, Hver, Ht. cbn [bind]. rewrite parse_type_name. cbn [bind].
  rewrite Hc, Hsrc, Hsc, Hd. cbn [bind]. now destruct a.
Qed.

Lemma parse_artifacts_serialized (l : list Artifact) :
  Forall (fun a => valid_source (source a)) l ->
  parse_each parse_artifact (map serialize_artifact l) = Parsed_ok l.
Proof.
  induction 1 as [|a l Ha _ IH]; [reflexivity|].
  cbn [map parse_each]. now rewrite (parse_artifact_serialized a Ha), IH.
Qed.

(** C2: parsing the serialization of a valid LockFile gives the LockFile
    back. *)
Theorem parse_serialize_roundtrip (x : LockFile) :
  valid x -> parse (serialize x) = Parsed_ok x.
Proof.
  intros [Hmajor Harts]. destruct x as [lv iv cb arts]. simpl in *.
  unfold required_string. simpl. rewrite Hmajor. simpl.
  now rewrite (parse_artifacts_serialized arts Harts).
Qed.

(** the lock file of the format's description, in short *)
Definition example_lock : LockFile :=
  mkLockFile "1.0" "a3f8d92b1c4e5f6a7b8c9d0e1f2a3b4c" "sleuth-cli/0.1.0"
    [ mkArtifact "github-mcp" "1.2.3" Mcp None
        (HttpSource "https://app.sleuth.io/api/skills/artifacts/github-mcp/1.2.3/github-mcp-1.2.3.zip"
           {[ "sha256" := "e3b0c44298fc1c149afbf4c8996fb92427ae41e4649b934ca495991b7852b855" ]}
           (Some 125678) (Some "2025-11-20T14:30:00Z"))
        None [];
      mkArtifact "local-skill" "0.1.0-dev" Skill (Some {[ "claude-code" ]})
        (PathSource "~/dev/my-skills/local-skill.zip") (Some Global) [];
      mkArtifact "custom-agent" "0.5.0" Agent None
        (GitSource "https://github.com/company/agents.git"
           "a1b2c3d4e5f6789012345678901234567890abcd" (Some "dist"))
        (Some (PathScope "https://github.com/company/backend" "services/api"))
        [mkDependencyRef "local-skill" (Some "0.1.0-dev"); mkDependencyRef "github-mcp" None] ].

Lemma example_lock_valid : valid example_lock.
Proof.
  split; [reflexivity|].
  repeat constructor. simpl. apply insert_non_empty.
Qed.

Lemma parse_serialize_roundtrip_witness :
  valid example_lock /\ parse (serialize example_lock) = Parsed_ok example_lock.
Proof.
  split; [exact example_lock_valid|].
  apply (parse_serialize_roundtrip example_lock). exact example_lock_valid.
Defined.

(** the semantic violations of section 4.1 are refused *)
Example parse_unknown_major :
  parse (VTable [("lock-version", VString "2.0"); ("version", VString "v");
                 ("created-by", VString "manual")])
  = Failed (ValidationError "unknown lock-version 2.0").
Proof. reflexivity. Qed.

Example parse_path_without_repo :
  parse_scope [("path", VString "services/api")]
  = Failed (ValidationError "path scope without a repo scope").
Proof. reflexivity. Qed.

Example parse_two_sources :
  parse_source [("source-path", VTable [("path", VString "a.zip")]);
                ("source-git", VTable [("url", VString "u"); ("ref", VString "main")])]
  = Failed (ValidationError "multiple populated source variants").
Proof. reflexivity. Qed.

Example parse_branch_ref :
  parse_source [("source-git", VTable [("url", VString "u"); ("ref", VString "main")])]
  = Failed (ValidationError "git ref is not a full commit SHA").
Proof. reflexivity. Qed.

Example parse_http_without_hashes :
  parse_source [("source-http", VTable [("url", VString "u")])]
  = Failed (ValidationError "missing required source field").
Proof. reflexivity. Qed.

Example parse_malformed :
  parse (VArray []) = Failed (ParseError "the document is not a table").
Proof. reflexivity. Qed.

End Lockfile.
